(** * FilmFest content server: media reconciliation and access control

    A shallow embedding of the parts of [server.js] that decide how stored
    media are deleted and who may do so:

    - [extractPublicId], the resolver that turns a stored reference (a
      Cloudinary public id, a URL, or nothing) into the key handed to the
      remote store;
    - [authMiddleware] and [verifyJwtToken], the gate in front of every
      mutating route;
    - the four deletion handlers (photo, partner logo, award-slot photo,
      whole award category), written in a small state-and-exception monad
      over the document store and the remote media store.

    JavaScript strings are modelled as [string] (sequences of 8-bit code
    units); [undefined]/[null] fields are [None]. *)

From Stdlib Require Import String Ascii List ZArith Bool Lia DecimalString.
From stdpp Require Import gmap.
Import ListNotations.

Open Scope string_scope.
Open Scope list_scope.
Open Scope stdpp_scope.

Infix "+++" := String.append (at level 60, right associativity).

(* stdpp seals [String.append] against [simpl]; the string lemmas below
   compute with it. *)
#[local] Arguments String.append !_ _ / : simpl nomatch.

(** ** JavaScript values and string primitives *)

Module Js.

(** Truthiness of a possibly-undefined string: [undefined], [null] and the
    empty string are falsy. *)
Definition truthy (v : option string) : bool :=
  match v with
  | Some s => negb (s =? "")%string
  | None => false
  end.

(** [a || b] on possibly-undefined strings. *)
Definition or_else (a b : option string) : option string :=
  if truthy a then a else b.

(** [v === s] for a possibly-undefined [v] and a string [s]. *)
Definition strict_eq (v : option string) (s : string) : bool :=
  match v with
  | Some x => (x =? s)%string
  | None => false
  end.

(** [a === b] when both sides may be undefined. *)
Definition strict_eq_opt (a b : option string) : bool :=
  match a, b with
  | Some x, Some y => (x =? y)%string
  | None, None => true
  | _, _ => false
  end.

(** [s.startsWith(p)]. *)
Definition startsWith (p s : string) : bool := String.prefix p s.

(** [s.includes(needle)]. *)
Fixpoint includes (needle s : string) : bool :=
  String.prefix needle s ||
  match s with
  | EmptyString => false
  | String _ r => includes needle r
  end.

(** [s.split(sep)] for a one-character separator: [k] separators give
    [k + 1] pieces, empty ones included. *)
Fixpoint split (sep : ascii) (s : string) : list string :=
  match s with
  | EmptyString => [EmptyString]
  | String c r =>
      if (c =? sep)%char then EmptyString :: split sep r
      else match split sep r with
           | h :: t => String c h :: t
           | [] => [String c EmptyString]
           end
  end.

Definition nonempty (s : string) : bool := negb (s =? "")%string.

(** [xs.filter(Boolean)] on an array of strings. *)
Definition filter_Boolean (xs : list string) : list string :=
  List.filter nonempty xs.

(** [xs.findIndex(p)]; [None] stands for [-1]. *)
Fixpoint findIndex {A} (p : A -> bool) (xs : list A) : option nat :=
  match xs with
  | [] => None
  | x :: r => if p x then Some 0 else option_map S (findIndex p r)
  end.

(** [xs.pop()] read as an expression: the last element, if any. *)
Fixpoint pop {A} (xs : list A) : option A :=
  match xs with
  | [] => None
  | [x] => Some x
  | _ :: r => pop r
  end.

(** [xs.join(sep)]. *)
Definition join (sep : string) (xs : list string) : string :=
  String.concat sep xs.

Definition is_digit (c : ascii) : bool :=
  let n := nat_of_ascii c in (48 <=? n)%nat && (n <=? 57)%nat.

Definition is_alnum (c : ascii) : bool :=
  let n := nat_of_ascii c in
  ((48 <=? n)%nat && (n <=? 57)%nat) || ((65 <=? n)%nat && (n <=? 90)%nat) ||
  ((97 <=? n)%nat && (n <=? 122)%nat).

Fixpoint all_chars (p : ascii -> bool) (s : string) : bool :=
  match s with
  | EmptyString => true
  | String c r => p c && all_chars p r
  end.

(** [/^v\d+$/.test(s)]. *)
Definition is_version (s : string) : bool :=
  match s with
  | String c r => (c =? "v")%char && nonempty r && all_chars is_digit r
  | EmptyString => false
  end.

(** [s.replace(/\.[a-zA-Z0-9]+$/, '')]: the leftmost position holding a
    dot followed, up to the end of the string, by one or more
    alphanumerics is where the string is cut. *)
Fixpoint strip_ext (s : string) : string :=
  match s with
  | EmptyString => EmptyString
  | String c r =>
      if (c =? ".")%char && nonempty r && all_chars is_alnum r
      then EmptyString
      else String c (strip_ext r)
  end.

(** [s.toLowerCase()] on 8-bit code units: A-Z, and the Latin-1 capitals
    apart from the multiplication sign. *)
Definition lower_char (c : ascii) : ascii :=
  let n := nat_of_ascii c in
  if ((65 <=? n)%nat && (n <=? 90)%nat) ||
     ((192 <=? n)%nat && (n <=? 222)%nat && negb (n =? 215)%nat)
  then ascii_of_nat (n + 32) else c.

Fixpoint toLowerCase (s : string) : string :=
  match s with
  | EmptyString => EmptyString
  | String c r => String (lower_char c) (toLowerCase r)
  end.

(** Completion of an expression: a value, or a thrown exception. *)
Inductive Completion (A : Type) : Type :=
| Normal (a : A)
| Throw (e : string).
Arguments Normal {A} a.
Arguments Throw {A} e.

(** [try { body } catch (e) { handler }]. *)
Definition try_catch {A} (body : Completion A) (handler : string -> Completion A)
  : Completion A :=
  match body with
  | Normal a => Normal a
  | Throw e => handler e
  end.

Definition bind {A B} (m : Completion A) (k : A -> Completion B) : Completion B :=
  match m with
  | Normal a => k a
  | Throw e => Throw e
  end.

End Js.

Import Js.

(** ** The WHATWG URL constructor

    [new URL(s)] belongs to the platform, not to the repository.  The
    resolver only reads [pathname], so the constructor is a parameter
    [URL_pathname]: [Some p] when [new URL(s)] succeeds with
    [pathname = p], [None] when it throws.  [plain_URL_pathname] below is
    a reference instance that agrees with the platform on the inputs used
    in the closed examples: strings with no scheme (rejected) and plain
    http(s) URLs whose host and path need no normalisation.  On other
    URLs the platform parses (with a port, a query, a fragment, upper
    case in the host) it answers [None]; it is used on no such input. *)

Module PlainURL.

Definition is_lower (c : ascii) : bool :=
  let n := nat_of_ascii c in (97 <=? n)%nat && (n <=? 122)%nat.

Definition host_char (c : ascii) : bool :=
  is_lower c || is_digit c || (c =? ".")%char.

Definition path_char (c : ascii) : bool :=
  is_alnum c || (c =? "-")%char || (c =? ".")%char || (c =? "_")%char ||
  (c =? "~")%char || (c =? "/")%char.

Definition starts_lower (s : string) : bool :=
  match s with
  | String c _ => is_lower c
  | EmptyString => false
  end.

(** A host made of non-empty lower-case labels, each starting with a
    letter: it is neither an IPv4 literal nor in need of IDNA mapping. *)
Definition plain_host (h : string) : bool :=
  all_chars host_char h && forallb starts_lower (split "." h).

Definition dot_segment (s : string) : bool :=
  (s =? ".")%string || (s =? "..")%string.

(** A path the parser copies verbatim: unreserved characters only, no
    dot segments. *)
Definition plain_path (p : string) : bool :=
  startsWith "/" p && all_chars path_char p &&
  negb (existsb dot_segment (split "/" p)).

(** Splits [s] at the first character satisfying [stop]. *)
Fixpoint span_until (stop : ascii -> bool) (s : string) : string * string :=
  match s with
  | EmptyString => (EmptyString, EmptyString)
  | String c r =>
      if stop c then (EmptyString, s)
      else let (a, b) := span_until stop r in (String c a, b)
  end.

Definition after_scheme (s : string) : option string :=
  if startsWith "https://" s then Some (substring 8 (String.length s - 8) s)
  else if startsWith "http://" s then Some (substring 7 (String.length s - 7) s)
  else None.

Definition plain_URL_pathname (s : string) : option string :=
  match after_scheme s with
  | None => None
  | Some rest =>
      let (host, path) := span_until (fun c => (c =? "/")%char) rest in
      if plain_host host && plain_path path then Some path else None
  end.

End PlainURL.

(** ** The identity resolver *)

Section Resolver.

Variable URL_pathname : string -> option string.

Record URL := { pathname : string }.

(** [new URL(s)]. *)
Definition new_URL (s : string) : Completion URL :=
  match URL_pathname s with
  | Some p => Normal {| pathname := p |}
  | None => Throw "TypeError: Invalid URL"
  end.

Definition is_upload (p : string) : bool :=
  (p =? "upload")%string || (p =? "uploads")%string.

(** The body of the [try] block of [extractPublicId]. *)
Definition extractPublicId_try (maybeIdOrUrl : string) : Completion (option string) :=
  bind (new_URL maybeIdOrUrl) (fun u =>
    let parts := filter_Boolean (split "/" (pathname u)) in
    let uploadIdx := findIndex is_upload parts in
    let candidateParts :=
      match uploadIdx with
      | Some i => skipn (i + 1) parts
      | None => parts
      end in
    let candidateParts :=
      match candidateParts with
      | p0 :: rest => if is_version p0 then rest else candidateParts
      | [] => candidateParts
      end in
    let joined := join "/" candidateParts in
    let joined := strip_ext joined in
    if negb (nonempty joined) then
      let last := match pop parts with Some l => l | None => "" end in
      Normal (Some (strip_ext last))
    else Normal (Some joined)).

(** The body of the [catch] block. *)
Definition extractPublicId_catch (maybeIdOrUrl : string) : Completion (option string) :=
  let raw := maybeIdOrUrl in
  let last := pop (filter_Boolean (split "/" raw)) in
  Normal (Some (strip_ext (match or_else last (Some raw) with
                           | Some x => x
                           | None => raw
                           end))).

Definition extractPublicId (maybeIdOrUrl : option string) : Completion (option string) :=
  match maybeIdOrUrl with
  | None => Normal None
  | Some s =>
      if negb (nonempty s) then Normal None
      else if negb (startsWith "http" s) && negb (includes "/" s)
      then Normal (Some s)
      else try_catch (extractPublicId_try s) (fun _ => extractPublicId_catch s)
  end.

End Resolver.

(** The shape [/upload/v<digits>/<folder>/<name>.<ext>] of the end of a
    delivery URL; [up] is the upload segment. *)
Definition versioned_upload_tail (up digits folder name ext : string) : string :=
  "/" +++ up +++ "/v" +++ digits +++ "/" +++ folder +++ "/" +++ name +++ "." +++ ext.

(** ** The access-control gate *)

(** The payload [jwt.verify] decodes; login signs [{ id, email, role }]. *)
Record JwtPayload := {
  jwt_id : option string;
  jwt_email : option string;
  jwt_role : option string
}.

(** An [AdminUser] document as [.select('-passwordHash')] returns it. *)
Record AdminUser := {
  user_id : string;
  user_email : string;
  user_role : string
}.

(** What the gate attaches to [req.user]. *)
Inductive Principal :=
| Account (u : AdminUser)
| Pseudo (email role : string).

(** The two headers the gate reads; [None] when the header is absent. *)
Record Request := {
  authorization : option string;
  x_admin_key : option string
}.

(** The gate either hands over to the route with [req.user] set, or
    answers itself. *)
Inductive GateResult :=
| Next (user : Principal)
| Respond (status : nat) (message : string).

Section Gate.

(** [jwt.verify(token, process.env.JWT_SECRET)]: throws on a malformed,
    forged or expired token. *)
Variable jwt_verify : option string -> Completion JwtPayload.

(** [AdminUser.findById(id).select('-passwordHash')]. *)
Variable AdminUser_findById : string -> Completion (option AdminUser).

(** [process.env.ADMIN_KEY]. *)
Variable ADMIN_KEY : option string.

Definition verifyJwtToken (token : option string) : Completion (option AdminUser) :=
  try_catch
    (bind (jwt_verify token) (fun decoded =>
       match jwt_id decoded with
       | Some id =>
           if negb (nonempty id) then Normal None
           else bind (AdminUser_findById id) (fun user => Normal user)
       | None => Normal None
       end))
    (fun _ => Normal None).

(** Step 1 of [authMiddleware]: the user a Bearer header resolves to. *)
Definition bearer_user (req : Request) : Completion (option AdminUser) :=
  match authorization req with
  | Some authHeader =>
      if nonempty authHeader && startsWith "bearer " (toLowerCase authHeader) then
        let token := nth_error (split " " authHeader) 1 in
        verifyJwtToken token
      else Normal None
  | None => Normal None
  end.

Definition authMiddleware (req : Request) : Completion GateResult :=
  bind (bearer_user req) (fun user =>
    match user with
    | Some user => Normal (Next (Account user))
    | None =>
        let key := x_admin_key req in
        if truthy key && strict_eq_opt key ADMIN_KEY then
          Normal (Next (Pseudo "x-admin-key" "admin"))
        else Normal (Respond 401 "Unauthorized")
    end).

(** The token verifies, carries an id, and the id is that of a stored
    account. *)
Inductive TokenResolves (token : option string) (user : AdminUser) : Prop :=
| token_resolves (decoded : JwtPayload) (id : string) :
    jwt_verify token = Normal decoded ->
    jwt_id decoded = Some id ->
    nonempty id = true ->
    AdminUser_findById id = Normal (Some user) ->
    TokenResolves token user.

(** The token is forged, malformed or expired ([jwt.verify] throws), or
    it carries no id, or no account has its id any more, or the look-up
    itself fails. *)
Inductive TokenRejected (token : option string) : Prop :=
| token_invalid (e : string) :
    jwt_verify token = Throw e -> TokenRejected token
| token_without_id (decoded : JwtPayload) :
    jwt_verify token = Normal decoded ->
    truthy (jwt_id decoded) = false ->
    TokenRejected token
| token_account_gone (decoded : JwtPayload) (id : string) :
    jwt_verify token = Normal decoded ->
    jwt_id decoded = Some id ->
    AdminUser_findById id = Normal None ->
    TokenRejected token
| token_lookup_failed (decoded : JwtPayload) (id e : string) :
    jwt_verify token = Normal decoded ->
    jwt_id decoded = Some id ->
    AdminUser_findById id = Throw e ->
    TokenRejected token.

End Gate.

Definition no_space (s : string) : bool :=
  all_chars (fun c => negb (c =? " ")%char) s.

(** ** The year records *)

(** [ImageSchema].  [filename] is not a schema path; the handlers read it
    all the same, and it is [None] on every stored document. *)
Record Image := {
  url : option string;
  public_id : option string;
  caption : option string;
  filename : option string
}.

(** The [photo] object of [PersonWithPhotoSchema]. *)
Record Photo := {
  photo_url : option string;
  photo_public_id : option string;
  photo_filename : option string
}.

(** [PersonWithPhotoSchema]. *)
Record Person := {
  name : string;
  position : option string;
  photo : option Photo
}.

(** [AwardCategorySchema]. *)
Record AwardCategory := {
  category : string;
  winner : option Person;
  firstRunnerUp : option Person;
  secondRunnerUp : option Person
}.

(** [ContentSchema]. *)
Record Content := {
  year : Z;
  videoLink : option string;
  photos : list Image;
  awards : list AwardCategory;
  partners : list Image
}.

Inductive Role := Winner | FirstRunnerUp | SecondRunnerUp.

(** [['winner','firstRunnerUp','secondRunnerUp'].includes(role)], with the
    slot the role names. *)
Definition role_of_string (role : string) : option Role :=
  if (role =? "winner")%string then Some Winner
  else if (role =? "firstRunnerUp")%string then Some FirstRunnerUp
  else if (role =? "secondRunnerUp")%string then Some SecondRunnerUp
  else None.

(** [cat[role]]. *)
Definition get_slot (cat : AwardCategory) (role : Role) : option Person :=
  match role with
  | Winner => winner cat
  | FirstRunnerUp => firstRunnerUp cat
  | SecondRunnerUp => secondRunnerUp cat
  end.

(** [cat[role] = person]. *)
Definition set_slot (cat : AwardCategory) (role : Role) (person : option Person)
  : AwardCategory :=
  match role with
  | Winner =>
      {| category := category cat; winner := person;
         firstRunnerUp := firstRunnerUp cat; secondRunnerUp := secondRunnerUp cat |}
  | FirstRunnerUp =>
      {| category := category cat; winner := winner cat;
         firstRunnerUp := person; secondRunnerUp := secondRunnerUp cat |}
  | SecondRunnerUp =>
      {| category := category cat; winner := winner cat;
         firstRunnerUp := firstRunnerUp cat; secondRunnerUp := person |}
  end.

Definition set_photos (doc : Content) (ps : list Image) : Content :=
  {| year := year doc; videoLink := videoLink doc; photos := ps;
     awards := awards doc; partners := partners doc |}.

Definition set_partners (doc : Content) (ps : list Image) : Content :=
  {| year := year doc; videoLink := videoLink doc; photos := photos doc;
     awards := awards doc; partners := ps |}.

Definition set_awards (doc : Content) (aw : list AwardCategory) : Content :=
  {| year := year doc; videoLink := videoLink doc; photos := photos doc;
     awards := aw; partners := partners doc |}.

(** ** Arrays of objects

    [find] returns the element itself, and the handlers later compare
    array elements with it by reference ([p !== photo]).  An element's
    identity is its position in the array it was read from: [tag] pairs
    every element with that position. *)

Definition tag {A} (xs : list A) : list (nat * A) :=
  combine (seq 0 (List.length xs)) xs.

Definition untag {A} (xs : list (nat * A)) : list A := List.map snd xs.

(** [xs.find(p)], with the position of the element found. *)
Definition find_tagged {A} (p : A -> bool) (xs : list A) : option (nat * A) :=
  List.find (fun e => p (snd e)) (tag xs).

(** ** The two stores and the handler monad *)

(** What [cloudinary.uploader.destroy] does with one request: it resolves
    with [{ result: 'ok' }] or [{ result: 'not found' }], or it rejects. *)
Inductive DestroyOutcome := DestroyOk | DestroyNotFound | DestroyRejects.

(** The environment of a run: whether the [n]-th document-store operation
    fails, and how the remote store answers its [n]-th request. *)
Record Env := {
  db_fails : nat -> bool;
  destroy_outcome : nat -> string -> DestroyOutcome
}.

(** The state the handlers act on: the [Content] collection keyed by year
    (the unique index), the number of document-store operations issued so
    far, and the keys sent to the remote store, oldest first. *)
Record World := {
  db : gmap Z Content;
  db_ops : nat;
  destroy_log : list string
}.

Definition M (A : Type) : Type := Env -> World -> Completion A * World.

Definition ret {A} (a : A) : M A := fun _ w => (Normal a, w).

Definition mbind {A B} (m : M A) (k : A -> M B) : M B :=
  fun env w =>
    match m env w with
    | (Normal a, w') => k a env w'
    | (Throw e, w') => (Throw e, w')
    end.

Notation "'do' x <- m ; k" := (mbind m (fun x => k))
  (at level 10, x name, m at level 100, k at level 200).
Notation "'run' m ; k" := (mbind m (fun _ => k))
  (at level 10, m at level 100, k at level 200).

(** [try { body } catch (e) { handler e }] around effectful code. *)
Definition try_catchM {A} (body : M A) (handler : string -> M A) : M A :=
  fun env w =>
    match body env w with
    | (Normal a, w') => (Normal a, w')
    | (Throw e, w') => handler e env w'
    end.

(** A pure expression evaluated inside a handler. *)
Definition lift {A} (c : Completion A) : M A := fun _ w => (c, w).

Definition db_error : string := "document store unavailable".
Definition remote_error : string := "remote media store error".

Definition count_db_op (w : World) : World :=
  {| db := db w; db_ops := S (db_ops w); destroy_log := destroy_log w |}.

(** [await Content.findOne({ year })]. *)
Definition Content_findOne (y : Z) : M (option Content) :=
  fun env w =>
    if db_fails env (db_ops w) then (Throw db_error, count_db_op w)
    else (Normal (db w !! y), count_db_op w).

(** [await doc.save()]. *)
Definition save (doc : Content) : M unit :=
  fun env w =>
    if db_fails env (db_ops w) then (Throw db_error, count_db_op w)
    else (Normal tt,
          {| db := <[year doc := doc]> (db w);
             db_ops := S (db_ops w);
             destroy_log := destroy_log w |}).

(** [await cloudinary.uploader.destroy(key, { resource_type: 'image' })]. *)
Definition destroy (key : string) : M DestroyOutcome :=
  fun env w =>
    let n := List.length (destroy_log w) in
    let w' := {| db := db w; db_ops := db_ops w;
                 destroy_log := destroy_log w ++ [key] |} in
    match destroy_outcome env n key with
    | DestroyRejects => (Throw remote_error, w')
    | r => (Normal r, w')
    end.

(** [try { await destroy(key); log } catch (e) { warn }]. *)
Definition try_destroy (key : string) : M unit :=
  try_catchM (run destroy key; ret tt) (fun _ => ret tt).

(** ** Responses *)

Inductive Body :=
| JsonDoc (doc : Content)
| JsonMessage (message : string)
| JsonError (message error : string).

Record Response := { status : nat; body : Body }.

Definition json (st : nat) (b : Body) : M Response :=
  ret {| status := st; body := b |}.

(** [`${year}`] for an integral year below [10^21] in absolute value;
    from there on JavaScript prints the exponent form, which this
    function does not.  No result below depends on the text of a message
    for such a year. *)
Definition Number_toString (y : Z) : string :=
  NilZero.string_of_int (Z.to_int y).

Definition content_not_found (y : Z) : Body :=
  JsonMessage ("Content for " +++ Number_toString y +++ " not found").

(** ** The deletion handlers *)

Section Handlers.

Variable URL_pathname : string -> option string.

(** [u && u.includes(needle)] for a possibly-undefined [u]. *)
Definition url_includes (u : option string) (needle : string) : bool :=
  match u with
  | Some s => nonempty s && includes needle s
  | None => false
  end.

(** [if (v) candidates.push(v)]: what a possibly-undefined string adds
    to an array. *)
Definition if_truthy (v : option string) : list string :=
  match v with
  | Some s => if nonempty s then [s] else []
  | None => []
  end.

(** [a || b] where [b] is a string. *)
Definition or_string (a : option string) (b : string) : string :=
  match or_else a (Some b) with
  | Some s => s
  | None => b
  end.

(** The predicate of [doc.photos.find] and [doc.partners.find]:
    [(p.public_id && p.public_id === id) || (p.url && p.url.includes(id))]. *)
Definition locates (id : string) (p : Image) : bool :=
  (truthy (public_id p) && strict_eq (public_id p) id) || url_includes (url p) id.

(** The predicate the not-found branch filters out:
    [p.public_id === id || (p.url && p.url.includes(id))]. *)
Definition partial_match (id : string) (p : Image) : bool :=
  strict_eq (public_id p) id || url_includes (url p) id.

(** [found.public_id || found.filename || extractPublicId(found.url) || id]. *)
Definition destroy_candidate (found : Image) (id : string) : M string :=
  if truthy (public_id found) then ret (or_string (public_id found) id)
  else if truthy (filename found) then ret (or_string (filename found) id)
  else
    do extracted <- lift (extractPublicId URL_pathname (url found));
    ret (or_string extracted id).

(** The fallback both single-item handlers end with: when the element
    found is still in the array, drop the entries sharing its URL. *)
Definition drop_same_url (i : nat) (found : Image) (xs : list (nat * Image))
  : list (nat * Image) :=
  if existsb (fun e => (fst e =? i)%nat) xs then
    List.filter
      (fun e => negb (truthy (url (snd e)) && truthy (url found) &&
                      strict_eq_opt (url (snd e)) (url found))) xs
  else xs.

(** [DELETE /api/content/:year/photos/:public_id]; [year] is
    [Number(req.params.year)], [None] standing for [NaN]. *)
Definition deletePhoto (year : option Z) (public_id_param : string) : M Response :=
  try_catchM
    (match year with
     | None => json 400 (JsonMessage "Invalid year")
     | Some year =>
         do doc <- Content_findOne year;
         match doc with
         | None => json 404 (content_not_found year)
         | Some doc =>
             match find_tagged (locates public_id_param) (photos doc) with
             | None =>
                 let doc :=
                   set_photos doc
                     (List.filter (fun p => negb (partial_match public_id_param p))
                        (photos doc)) in
                 run save doc;
                 json 404 (JsonMessage
                   "Photo not found in DB; attempted to remove any partial matches")
             | Some (i, photo) =>
                 do candidate <- destroy_candidate photo public_id_param;
                 run try_destroy candidate;
                 let kept :=
                   List.filter
                     (fun e =>
                        negb (strict_eq_opt (public_id (snd e)) (public_id photo) &&
                              truthy (public_id photo)) &&
                        negb (fst e =? i)%nat)
                     (tag (photos doc)) in
                 let doc := set_photos doc (untag (drop_same_url i photo kept)) in
                 run save doc;
                 json 200 (JsonDoc doc)
             end
         end
     end)
    (fun err => json 500 (JsonError "Server error" err)).

(** [DELETE /api/content/:year/partners/:public_id]. *)
Definition deletePartner (year : option Z) (public_id_param : string) : M Response :=
  try_catchM
    (match year with
     | None => json 400 (JsonMessage "Invalid year")
     | Some year =>
         do doc <- Content_findOne year;
         match doc with
         | None => json 404 (content_not_found year)
         | Some doc =>
             match find_tagged (locates public_id_param) (partners doc) with
             | None =>
                 let doc :=
                   set_partners doc
                     (List.filter (fun p => negb (partial_match public_id_param p))
                        (partners doc)) in
                 run save doc;
                 json 404 (JsonMessage
                   "Partner not found in DB; attempted to remove any partial matches")
             | Some (i, partner) =>
                 do candidate <- destroy_candidate partner public_id_param;
                 run try_destroy candidate;
                 let kept :=
                   List.filter
                     (fun e =>
                        negb (fst e =? i)%nat &&
                        negb (truthy (public_id (snd e)) &&
                              strict_eq_opt (public_id (snd e)) (public_id partner)))
                     (tag (partners doc)) in
                 let doc := set_partners doc (untag (drop_same_url i partner kept)) in
                 run save doc;
                 json 200 (JsonDoc doc)
             end
         end
     end)
    (fun err => json 500 (JsonError "Server error" err)).

(** The key the award handlers derive from a slot photo's URL: the path
    after [upload], version and extension dropped; when the URL does not
    parse, the text after its last slash, extension dropped. *)
Definition derived_candidates (photo_url : string) : list string :=
  match URL_pathname photo_url with
  | Some path =>
      let parts := filter_Boolean (split "/" path) in
      let parts :=
        match findIndex is_upload parts with
        | Some i => skipn (i + 1) parts
        | None => parts
        end in
      let parts :=
        match parts with
        | p0 :: rest => if is_version p0 then rest else parts
        | [] => parts
        end in
      let derived := strip_ext (join "/" parts) in
      if nonempty derived then [derived] else []
  | None =>
      match pop (split "/" photo_url) with
      | Some last => if nonempty last then [strip_ext last] else []
      | None => []
      end
  end.

(** The [candidates] array built for one slot photo. *)
Definition photo_candidates (photo : Photo) : list string :=
  if_truthy (photo_public_id photo) ++
  if_truthy (photo_filename photo) ++
  match photo_url photo with
  | Some u => if nonempty u then derived_candidates u else []
  | None => []
  end.

Definition mem_string (x : string) (xs : list string) : bool :=
  existsb (fun y => (y =? x)%string) xs.

(** The loop of the award-photo handler: empty and already tried
    candidates are skipped, every other one is sent to the remote store
    inside its own [try]. *)
Fixpoint destroy_untried (tried candidates : list string) : M unit :=
  match candidates with
  | [] => ret tt
  | c :: rest =>
      if negb (nonempty c) || mem_string c tried then destroy_untried tried rest
      else run try_destroy c; destroy_untried (c :: tried) rest
  end.

(** [[...new Set(candidates)]]: first occurrences, in order. *)
Fixpoint dedupe (seen xs : list string) : list string :=
  match xs with
  | [] => []
  | x :: rest =>
      if mem_string x seen then dedupe seen rest
      else x :: dedupe (x :: seen) rest
  end.

(** The loop of the award-category handler over the deduplicated
    candidates. *)
Fixpoint destroy_each (candidates : list string) : M unit :=
  match candidates with
  | [] => ret tt
  | c :: rest =>
      if negb (nonempty c) then destroy_each rest
      else run try_destroy c; destroy_each rest
  end.

(** The filter of the award-photo handler over [doc.photos]: [true] for
    the entries that point at the slot's photo. *)
Definition same_photo (photo : Photo) (p : Image) : bool :=
  let samePublicId :=
    truthy (photo_public_id photo) && truthy (public_id p) &&
    strict_eq_opt (public_id p) (photo_public_id photo) in
  let sameFilename :=
    truthy (photo_filename photo) && truthy (public_id p) &&
    strict_eq_opt (public_id p) (photo_filename photo) in
  let sameUrl :=
    truthy (photo_url photo) && truthy (url p) &&
    strict_eq_opt (url p) (photo_url photo) in
  samePublicId || sameFilename || sameUrl.

Definition has_category (c : string) (a : AwardCategory) : bool :=
  (category a =? c)%string.

(** [const preserved = { ...cat[role] }; delete preserved.photo;], the
    value then assigned back to [cat[role]].  [cat[role]] is a mongoose
    subdocument: its fields are read through accessors and are not own
    properties, so the spread copies none of them as a key of
    [preserved], [delete preserved.photo] finds no [photo] to remove, and
    the assignment casts [preserved] back to the person it was copied
    from, photo included. *)
Definition without_photo (person : Person) : Person := person.

(** [DELETE /api/content/:year/awards/:category/:role/photo]; the route
    parameters arrive after [|| '']. *)
Definition deleteAwardPhoto (year : option Z) (category role : string) : M Response :=
  try_catchM
    (match year with
     | None => json 400 (JsonMessage "Invalid year")
     | Some year =>
         if negb (nonempty category) then json 400 (JsonMessage "Category required")
         else
           match role_of_string role with
           | None => json 400 (JsonMessage "Invalid role")
           | Some role =>
               do doc <- Content_findOne year;
               match doc with
               | None => json 404 (content_not_found year)
               | Some doc =>
                   match find_tagged (has_category category) (awards doc) with
                   | None => json 404 (JsonMessage "Award category not found")
                   | Some (ci, cat) =>
                       match get_slot cat role with
                       | None => json 404 (JsonMessage "Role not set")
                       | Some person =>
                           let photo := photo person in
                           run (match photo with
                                | Some ph =>
                                    if truthy (photo_public_id ph) ||
                                       truthy (photo_filename ph) ||
                                       truthy (photo_url ph)
                                    then destroy_untried [] (photo_candidates ph)
                                    else ret tt
                                | None => ret tt
                                end);
                           let cat := set_slot cat role (Some (without_photo person)) in
                           let doc := set_awards doc (<[ci := cat]> (awards doc)) in
                           let doc :=
                             match photo with
                             | Some ph =>
                                 set_photos doc
                                   (List.filter (fun p => negb (same_photo ph p))
                                      (photos doc))
                             | None => doc
                             end in
                           run save doc;
                           json 200 (JsonDoc doc)
                       end
                   end
               end
           end
     end)
    (fun err => json 500 (JsonError "Server error" err)).

(** [[cat.winner, cat.firstRunnerUp, cat.secondRunnerUp].filter(Boolean)]. *)
Definition people_of (cat : AwardCategory) : list Person :=
  omap id [winner cat; firstRunnerUp cat; secondRunnerUp cat].

(** [for (const p of people) { ... }] of the category handler. *)
Fixpoint destroy_people (people : list Person) : M unit :=
  match people with
  | [] => ret tt
  | p :: rest =>
      match photo p with
      | None => destroy_people rest
      | Some ph =>
          run destroy_each (dedupe [] (photo_candidates ph));
          destroy_people rest
      end
  end.

(** [[photo.public_id, photo.filename, photo.url].filter(Boolean)]. *)
Definition photo_keys (ph : Photo) : list string :=
  if_truthy (photo_public_id ph) ++ if_truthy (photo_filename ph) ++
  if_truthy (photo_url ph).

(** [photoUrlsOrIds]. *)
Definition photoUrlsOrIds (people : list Person) : list string :=
  flat_map photo_keys (omap photo people).

(** The test of the category handler's sweep:
    [idOrUrl && (p.public_id === idOrUrl || p.url === idOrUrl ||
                 (p.url && p.url.includes(idOrUrl)))]. *)
Definition points_at (p : Image) (idOrUrl : string) : bool :=
  nonempty idOrUrl &&
  (strict_eq (public_id p) idOrUrl || strict_eq (url p) idOrUrl ||
   url_includes (url p) idOrUrl).

(** [DELETE /api/content/:year/awards/:category]. *)
Definition deleteAwardCategory (year : option Z) (category : string) : M Response :=
  try_catchM
    (match year with
     | None => json 400 (JsonMessage "Invalid year")
     | Some year =>
         if negb (nonempty category) then json 400 (JsonMessage "Category required")
         else
           do doc <- Content_findOne year;
           match doc with
           | None => json 404 (content_not_found year)
           | Some doc =>
               match find_tagged (has_category category) (awards doc) with
               | None => json 404 (JsonMessage "Award category not found")
               | Some (_, cat) =>
                   let people := people_of cat in
                   run destroy_people people;
                   let doc :=
                     set_awards doc
                       (List.filter (fun a => negb (has_category category a))
                          (awards doc)) in
                   let ids := photoUrlsOrIds people in
                   let doc :=
                     match ids with
                     | [] => doc
                     | _ :: _ =>
                         set_photos doc
                           (List.filter (fun p => negb (existsb (points_at p) ids))
                              (photos doc))
                     end in
                   run save doc;
                   json 200 (JsonDoc doc)
               end
           end
     end)
    (fun err => json 500 (JsonError "Server error" err)).

End Handlers.

(** ** What the handlers leave behind *)

(** The document store answers every operation. *)
Definition db_up (env : Env) : Prop := forall n, db_fails env n = false.

(** The collection is keyed by the [year] field of its documents. *)
Definition db_wf (d : gmap Z Content) : Prop :=
  forall y doc, d !! y = Some doc -> year doc = y.

Definition world_after (w : World) (doc : Content) (keys : list string) : World :=
  {| db := <[year doc := doc]> (db w);
     db_ops := S (S (db_ops w));
     destroy_log := destroy_log w ++ keys |}.

Definition log_more (w : World) (keys : list string) : World :=
  {| db := db w; db_ops := db_ops w; destroy_log := destroy_log w ++ keys |}.

Section Outcomes.

Variable URL_pathname : string -> option string.

(** The key [extractPublicId] resolves a stored URL to. *)
Definition extracted_key (u : option string) : option string :=
  match extractPublicId URL_pathname u with
  | Normal r => r
  | Throw _ => None
  end.

(** The key sent to the remote store for a located entry. *)
Definition candidate_key (found : Image) (id : string) : string :=
  or_string (or_else (public_id found)
               (or_else (filename found) (extracted_key (url found)))) id.

(** The entries of [xs] that survive the removal of the element found at
    position [i]: [photos] and [partners] phrase the same test in two
    orders. *)
Definition kept_photos (i : nat) (photo : Image) (xs : list Image) : list (nat * Image) :=
  List.filter
    (fun e =>
       negb (strict_eq_opt (public_id (snd e)) (public_id photo) &&
             truthy (public_id photo)) &&
       negb (fst e =? i)%nat)
    (tag xs).

Definition kept_partners (i : nat) (partner : Image) (xs : list Image)
  : list (nat * Image) :=
  List.filter
    (fun e =>
       negb (fst e =? i)%nat &&
       negb (truthy (public_id (snd e)) &&
             strict_eq_opt (public_id (snd e)) (public_id partner)))
    (tag xs).

(** The entries the found branch of the photo handler takes out together
    with the entry [find] returned: that entry, and those sharing its
    non-empty [public_id]. *)
Definition removed_with (found e : nat * Image) : bool :=
  (fst e =? fst found)%nat ||
  (truthy (public_id (snd found)) &&
   strict_eq_opt (public_id (snd e)) (public_id (snd found))).

(** Every entry the identifier matches leaves with the first one located. *)
Definition one_call_clears (id : string) (xs : list Image) : Prop :=
  forall found,
    find_tagged (locates id) xs = Some found ->
    forallb (fun e => implb (partial_match id (snd e)) (removed_with found e))
      (tag xs) = true.

(** The candidates the award-photo loop sends, in order. *)
Fixpoint untried (tried candidates : list string) : list string :=
  match candidates with
  | [] => []
  | c :: rest =>
      if negb (nonempty c) || mem_string c tried then untried tried rest
      else c :: untried (c :: tried) rest
  end.

(** The keys the award-photo handler sends for a slot. *)
Definition slot_requests (person : Person) : list string :=
  match photo person with
  | Some ph =>
      if truthy (photo_public_id ph) || truthy (photo_filename ph) ||
         truthy (photo_url ph)
      then untried [] (photo_candidates URL_pathname ph)
      else []
  | None => []
  end.

(** The keys the category handler sends for its slots, in order. *)
Definition category_requests (people : list Person) : list string :=
  flat_map
    (fun p =>
       match photo p with
       | Some ph => List.filter nonempty (dedupe [] (photo_candidates URL_pathname ph))
       | None => []
       end)
    people.

(** The record the award-photo handler saves. *)
Definition award_photo_cleared (doc : Content) (ci : nat) (cat : AwardCategory)
    (role : Role) (person : Person) : Content :=
  let doc1 :=
    set_awards doc (<[ci := set_slot cat role (Some (without_photo person))]> (awards doc)) in
  match photo person with
  | Some ph =>
      set_photos doc1 (List.filter (fun p => negb (same_photo ph p)) (photos doc1))
  | None => doc1
  end.

(** The record the category handler saves. *)
Definition category_removed (doc : Content) (cname : string) (cat : AwardCategory)
  : Content :=
  let doc1 :=
    set_awards doc
      (List.filter (fun a => negb (has_category cname a)) (awards doc)) in
  match photoUrlsOrIds (people_of cat) with
  | [] => doc1
  | ids =>
      set_photos doc1
        (List.filter (fun p => negb (existsb (points_at p) ids)) (photos doc1))
  end.

End Outcomes.

(** ** The deletion routes *)

(** The four deletion routes. *)
Inductive Deletion :=
| DeletePhoto (year : option Z) (public_id_param : string)
| DeletePartner (year : option Z) (public_id_param : string)
| DeleteAwardPhoto (year : option Z) (cname role : string)
| DeleteAwardCategory (year : option Z) (cname : string).

Definition handle (URL_pathname : string -> option string) (op : Deletion) : M Response :=
  match op with
  | DeletePhoto year id => deletePhoto URL_pathname year id
  | DeletePartner year id => deletePartner URL_pathname year id
  | DeleteAwardPhoto year cname role => deleteAwardPhoto URL_pathname year cname role
  | DeleteAwardCategory year cname => deleteAwardCategory URL_pathname year cname
  end.





(** ** Reference data for the closed examples *)

(** A signing service that accepts one token, and an account store with
    one account, for the closed examples. *)
Definition demo_jwt_verify (token : option string) : Completion JwtPayload :=
  match token with
  | Some t =>
      if (t =? "header.payload.signature")%string
      then Normal {| jwt_id := Some "64f0c0ffee"; jwt_email := Some "admin@filmfest.org";
                     jwt_role := Some "admin" |}
      else Throw "JsonWebTokenError: invalid token"
  | None => Throw "JsonWebTokenError: jwt must be provided"
  end.

Definition demo_admin : AdminUser :=
  {| user_id := "64f0c0ffee"; user_email := "admin@filmfest.org"; user_role := "admin" |}.

Definition demo_findById (id : string) : Completion (option AdminUser) :=
  if (id =? "64f0c0ffee")%string then Normal (Some demo_admin) else Normal None.

(** The document store is up; the remote store rejects every request. *)
Definition remote_down : Env :=
  {| db_fails := fun _ => false; destroy_outcome := fun _ _ => DestroyRejects |}.

(** The document store is up; the remote store deletes what it is asked to. *)
Definition remote_ok : Env :=
  {| db_fails := fun _ => false; destroy_outcome := fun _ _ => DestroyOk |}.

Definition uploaded (u k : string) : Image :=
  {| url := Some u; public_id := Some k; caption := Some ""; filename := None |}.

Definition world_of (doc : Content) : World :=
  {| db := {[ year doc := doc ]}; db_ops := 0; destroy_log := [] |}.

(** The scenario of the specification: one uploaded photo. *)
Definition gallery_2024 : Content :=
  {| year := 2024; videoLink := None;
     photos := [uploaded "https://cdn.example.com/x/a.jpg" "x/a"];
     awards := []; partners := [] |}.

(** Two uploads in one batch: the name of the second extends the name of
    the first. *)
Definition batch_2024 : Content :=
  {| year := 2024; videoLink := None;
     photos :=
       [uploaded
          "https://res.cloudinary.com/demo/image/upload/v1712345678/events/photos/17-pic.jpg"
          "events/photos/17-pic";
        uploaded
          "https://res.cloudinary.com/demo/image/upload/v1712345678/events/photos/17-pic2.jpg"
          "events/photos/17-pic2"];
     awards := []; partners := [] |}.

(** A category whose winner's photo was given by URL, next to a gallery
    entry for the same image delivered under another version. *)
Definition ada : Person :=
  {| name := "Ada";
     position := Some "winner";
     photo :=
       Some {| photo_url :=
                 Some "https://res.cloudinary.com/demo/image/upload/v1/events/awards/w.jpg";
               photo_public_id := None;
               photo_filename := None |} |}.

Definition best_film : AwardCategory :=
  {| category := "Best Film"; winner := Some ada;
     firstRunnerUp := None; secondRunnerUp := None |}.

Definition awards_2024 : Content :=
  {| year := 2024; videoLink := None;
     photos :=
       [uploaded
          "https://res.cloudinary.com/demo/image/upload/v2/events/awards/w.jpg"
          "events/awards/w"];
     awards := [best_film];
     partners := [] |}.

(** A category whose winner's photo was uploaded with the award: the
    slot holds the URL and the key the upload returned. *)
Definition grace : Person :=
  {| name := "Grace";
     position := Some "winner";
     photo :=
       Some {| photo_url :=
                 Some "https://res.cloudinary.com/demo/image/upload/v1/events/awards/g.jpg";
               photo_public_id := Some "events/awards/g";
               photo_filename := None |} |}.

Definition best_actor : AwardCategory :=
  {| category := "Best Actor"; winner := Some grace;
     firstRunnerUp := None; secondRunnerUp := None |}.

Definition prizes_2024 : Content :=
  {| year := 2024; videoLink := None; photos := [];
     awards := [best_actor]; partners := [] |}.

(** * More of the server and of its callers *)

(** ** The client's credential headers ([AuthContext.jsx]) *)




(** ** Routes behind the gate *)

Section Protected.

Variable jwt_verify : option string -> Completion JwtPayload.
Variable AdminUser_findById : string -> Completion (option AdminUser).
Variable ADMIN_KEY : option string.

(** [app.METHOD(path, adminAuth, handler)]: the handler runs when the
    gate calls [next()]; otherwise the gate's own answer is the response. *)
Definition behind_gate (req : Request) (handler : M Response) : M Response :=
  fun env w =>
    match authMiddleware jwt_verify AdminUser_findById ADMIN_KEY req with
    | Normal (Next _) => handler env w
    | Normal (Respond st message) =>
        (Normal {| status := st; body := JsonMessage message |}, w)
    | Throw e => (Throw e, w)
    end.

(** What a request must carry for the gate to let it through as [p]: a
    Bearer header whose token resolves to the account [p], or a non-empty
    [x-admin-key] equal to a set [ADMIN_KEY], [p] being the pseudo-user. *)
Definition presents_credentials (req : Request) (p : Principal) : Prop :=
  (exists authHeader user,
     p = Account user /\
     authorization req = Some authHeader /\
     startsWith "bearer " (toLowerCase authHeader) = true /\
     TokenResolves jwt_verify AdminUser_findById
       (nth_error (split " " authHeader) 1) user) \/
  (exists k,
     p = Pseudo "x-admin-key" "admin" /\
     x_admin_key req = Some k /\ ADMIN_KEY = Some k /\ nonempty k = true).

End Protected.

(** ** The video link normaliser *)

(** [s.trim()] on 8-bit code units: tab, line feed, vertical tab, form
    feed, carriage return, space and no-break space are white space. *)
Definition is_space (c : ascii) : bool :=
  let n := nat_of_ascii c in
  ((9 <=? n)%nat && (n <=? 13)%nat) || (n =? 32)%nat || (n =? 160)%nat.

Fixpoint trimStart (s : string) : string :=
  match s with
  | EmptyString => EmptyString
  | String c r => if is_space c then trimStart r else s
  end.

Fixpoint trimEnd (s : string) : string :=
  match s with
  | EmptyString => EmptyString
  | String c r =>
      match trimEnd r with
      | EmptyString => if is_space c then EmptyString else String c EmptyString
      | r' => String c r'
      end
  end.

Definition trim (s : string) : string := trimEnd (trimStart s).

(** What [toYouTubeEmbed] reads of [new URL(url)]; [search_v] is
    [u.searchParams.get('v')]. *)
Record ParsedURL := {
  hostname : string;
  path : string;
  search_v : option string
}.

(** [/^[a-zA-Z0-9_-]{10,}$/.test(id)]. *)
Definition is_bare_id (id : string) : bool :=
  all_chars (fun c => is_alnum c || (c =? "_")%char || (c =? "-")%char) id &&
  (10 <=? String.length id)%nat.

(** [s.slice(1)]. *)
Definition slice1 (s : string) : string :=
  match s with
  | EmptyString => EmptyString
  | String _ r => r
  end.

Definition embed_link (id : string) : string :=
  "https://www.youtube.com/embed/" +++ id.

(** A field of a parsed request body, as far as the code can tell
    values apart: absent ([undefined] or [null]), a string, or another
    JSON value (a number, a boolean, an array, an object), of which the
    code sees whether it is truthy and the text [String(v)] that
    [new URL(v)] parses. *)
Inductive BodyField :=
| FieldAbsent
| FieldString (s : string)
| FieldOther (is_truthy : bool) (as_text : string).

Definition field_truthy (v : BodyField) : bool :=
  match v with
  | FieldAbsent => false
  | FieldString s => nonempty s
  | FieldOther t _ => t
  end.

(** [String(v)]. *)
Definition field_text (v : BodyField) : string :=
  match v with
  | FieldAbsent => "undefined" (* never read: an absent field is falsy *)
  | FieldString s => s
  | FieldOther _ text => text
  end.

Definition trim_TypeError : string := "TypeError: url.trim is not a function".

Section VideoLink.

(** [new URL(s)], [None] when the constructor throws. *)
Variable URL_parse : string -> option ParsedURL.

(** [toYouTubeEmbed(url)].  Its one caller passes a field of the request
    body, which need not be a string: [url.trim()] in the [catch] block
    throws for a value that has no [trim]. *)
Definition toYouTubeEmbed (url : BodyField) : Completion BodyField :=
  if negb (field_truthy url) then Normal url
  else
    try_catch
      (bind (match URL_parse (field_text url) with
             | Some u => Normal u
             | None => Throw "TypeError: Invalid URL"
             end)
         (fun u =>
            if includes "youtu.be" (hostname u) then
              let id := slice1 (path u) in
              if negb (nonempty id) then Normal url
              else Normal (FieldString (embed_link id))
            else if includes "youtube.com" (hostname u) then
              if startsWith "/embed/" (path u) then Normal url
              else if truthy (search_v u)
              then Normal (FieldString (embed_link (match search_v u with
                                                    | Some vid => vid
                                                    | None => ""
                                                    end)))
              else
                let parts := filter_Boolean (split "/" (path u)) in
                let possible := pop parts in
                if truthy possible
                then Normal (FieldString (embed_link (match possible with
                                                      | Some p => p
                                                      | None => ""
                                                      end)))
                else Normal url
            else Normal url))
      (fun _ =>
         match url with
         | FieldString s =>
             let id := trim s in
             if is_bare_id id then Normal (FieldString (embed_link id))
             else Normal url
         | _ => Throw trim_TypeError
         end).

End VideoLink.

(** The result of [toYouTubeEmbed] when it returns: its argument,
    untouched, or an embed link with a non-empty video id. *)
Definition embed_or_same (url r : BodyField) : Prop :=
  r = url \/ exists id, nonempty id = true /\ r = FieldString (embed_link id).

(** A reference instance for plain links of the two video hosts, with at
    most the query [?v=<id>].  It answers [None] for any other query,
    which the platform would parse; it is used on no such input. *)
Module PlainVideoURL.

Definition plain_query_v (q : string) : option (option string) :=
  match q with
  | EmptyString => Some None
  | _ =>
      if startsWith "?v=" q &&
         all_chars (fun c => is_alnum c || (c =? "_")%char || (c =? "-")%char)
           (substring 3 (String.length q - 3) q) &&
         nonempty (substring 3 (String.length q - 3) q)
      then Some (Some (substring 3 (String.length q - 3) q))
      else None
  end.

Definition URL_parse (s : string) : option ParsedURL :=
  match PlainURL.after_scheme s with
  | None => None
  | Some rest =>
      let (host, tail) := PlainURL.span_until (fun c => (c =? "/")%char) rest in
      let (p, q) := PlainURL.span_until (fun c => (c =? "?")%char) tail in
      if PlainURL.plain_host host && PlainURL.plain_path p then
        match plain_query_v q with
        | Some v => Some {| hostname := host; path := p; search_v := v |}
        | None => None
        end
      else None
  end.

End PlainVideoURL.

(** ** The content routes *)

(** [new Content({ year, photos: [], awards: [], partners: [] })]. *)
Definition empty_content (y : Z) : Content :=
  {| year := y; videoLink := None; photos := []; awards := []; partners := [] |}.

Definition set_videoLink (doc : Content) (v : option string) : Content :=
  {| year := year doc; videoLink := v; photos := photos doc;
     awards := awards doc; partners := partners doc |}.

(** [getOrCreateContentByYear(year)]. *)
Definition getOrCreateContentByYear (y : Z) : M Content :=
  do doc <- Content_findOne y;
  match doc with
  | Some doc => ret doc
  | None =>
      let doc := empty_content y in
      run save doc;
      ret doc
  end.

(** [GET /api/content/:year]. *)
Definition getContent (year : option Z) : M Response :=
  try_catchM
    (match year with
     | None => json 400 (JsonMessage "Invalid year")
     | Some year =>
         do doc <- Content_findOne year;
         match doc with
         | None => json 404 (content_not_found year)
         | Some doc => json 200 (JsonDoc doc)
         end
     end)
    (fun err => json 500 (JsonMessage err)).

(** [err.code === 11000]: the document store's duplicate-key error, whose
    message starts with its code. *)
Definition has_code_11000 (err : string) : bool := startsWith "E11000" err.

(** [POST /api/content/:year]. *)
Definition createContent (year : option Z) : M Response :=
  try_catchM
    (match year with
     | None => json 400 (JsonMessage "Invalid year")
     | Some year =>
         do exists_ <- Content_findOne year;
         match exists_ with
         | Some _ =>
             json 400 (JsonMessage
               ("Content for " +++ Number_toString year +++ " already exists"))
         | None =>
             let doc := empty_content year in
             run save doc;
             json 201 (JsonDoc doc)
         end
     end)
    (fun err =>
       if has_code_11000 err
       then json 400 (JsonMessage "Content for this year already exists")
       else json 500 (JsonMessage err)).

(** What the routes read of a file the upload middleware stored.  The
    upload routes are registered with that middleware in front of the
    handler: by the time a handler below runs, the files of the request
    are in the remote store, and they stay there whatever the handler
    answers.  The state modelled here records the deletion requests sent
    to the remote store, not its contents, so the uploads themselves are
    outside it. *)
Record UploadedFile := {
  file_path : option string;
  file_filename : option string;
  file_public_id : option string
}.

(** The entry the photos route pushes for a file:
    [{ url: f.path, public_id: f.filename || f.public_id,
       caption: req.body.caption || '' }]. *)
Definition photo_entry (caption_field : option string) (f : UploadedFile) : Image :=
  {| url := file_path f;
     public_id := or_else (file_filename f) (file_public_id f);
     caption := Some (or_string caption_field "");
     filename := None |}.

(** The entry the partners route pushes:
    [{ url: f.path, public_id: f.filename || f.public_id }]. *)
Definition partner_entry (f : UploadedFile) : Image :=
  {| url := file_path f;
     public_id := or_else (file_filename f) (file_public_id f);
     caption := None;
     filename := None |}.

(** [POST /api/content/:year/photos], after the upload middleware has
    stored [files]. *)
Definition postPhotos (year : option Z) (files : list UploadedFile)
    (caption_field : option string) : M Response :=
  try_catchM
    (match year with
     | None => json 400 (JsonMessage "Invalid year")
     | Some year =>
         match files with
         | [] => json 400 (JsonMessage
                   "No files uploaded (check field name & Content-Type)")
         | _ =>
             do doc <- getOrCreateContentByYear year;
             let doc :=
               set_photos doc (photos doc ++ List.map (photo_entry caption_field) files) in
             run save doc;
             json 200 (JsonDoc doc)
         end
     end)
    (fun err => json 500 (JsonError "Server error" err)).

(** [POST /api/content/:year/partners]. *)
Definition postPartners (year : option Z) (files : list UploadedFile) : M Response :=
  try_catchM
    (match year with
     | None => json 400 (JsonMessage "Invalid year")
     | Some year =>
         match files with
         | [] => json 400 (JsonMessage "No logos uploaded")
         | _ =>
             do doc <- getOrCreateContentByYear year;
             let doc :=
               set_partners doc (partners doc ++ List.map partner_entry files) in
             run save doc;
             json 200 (JsonDoc doc)
         end
     end)
    (fun err => json 500 (JsonError "Server error" err)).

Section VideoRoutes.

Variable URL_parse : string -> option ParsedURL.

(** What the schema's cast to [String] makes of a truthy or falsy value
    that is not a string; [Throw] when the cast fails, with the message
    of the validation error [save()] then rejects with. *)
Variable String_cast_other : bool -> string -> Completion string.

(** [doc.videoLink = v], as far as [save()] is concerned. *)
Definition cast_videoLink (v : BodyField) : Completion (option string) :=
  match v with
  | FieldAbsent => Normal None
  | FieldString s => Normal (Some s)
  | FieldOther t text => bind (String_cast_other t text) (fun s => Normal (Some s))
  end.

(** [PUT /api/content/:year/video]; [videoLink] is the field of the
    request body.  A value the schema cannot cast makes [save()] reject
    before it writes. *)
Definition putVideo (year : option Z) (videoLink_field : BodyField) : M Response :=
  try_catchM
    (match year with
     | None => json 400 (JsonMessage "Invalid year")
     | Some year =>
         if negb (field_truthy videoLink_field)
         then json 400 (JsonMessage "videoLink is required")
         else
           do embed <- lift (toYouTubeEmbed URL_parse videoLink_field);
           do doc <- getOrCreateContentByYear year;
           do link <- lift (cast_videoLink embed);
           let doc := set_videoLink doc link in
           run save doc;
           json 200 (JsonDoc doc)
     end)
    (fun err => json 500 (JsonMessage err)).

End VideoRoutes.

(** [POST /api/content/:year/video-file]: the file is looked at before
    the year. *)
Definition postVideoFile (year : option Z) (file : option UploadedFile) : M Response :=
  try_catchM
    (match file with
     | None => json 400 (JsonMessage "video file required")
     | Some f =>
         match year with
         | None => json 400 (JsonMessage "Invalid year")
         | Some year =>
             do doc <- getOrCreateContentByYear year;
             let doc := set_videoLink doc (file_path f) in
             run save doc;
             json 200 (JsonDoc doc)
         end
     end)
    (fun err => json 500 (JsonMessage err)).

(** The handlers of the four routes that write a year's media. *)
Inductive Edit :=
| PutVideo (videoLink_field : BodyField)
| PostVideoFile (file : option UploadedFile)
| PostPhotos (files : list UploadedFile) (caption_field : option string)
| PostPartners (files : list UploadedFile).

Definition edit (URL_parse : string -> option ParsedURL)
    (String_cast_other : bool -> string -> Completion string)
    (year : option Z) (op : Edit) : M Response :=
  match op with
  | PutVideo v => putVideo URL_parse String_cast_other year v
  | PostVideoFile f => postVideoFile year f
  | PostPhotos files c => postPhotos year files c
  | PostPartners files => postPartners year files
  end.

(** The record an edit starts from: the stored one, or the empty one
    [getOrCreateContentByYear] makes. *)
Definition record_before (w : World) (y : Z) : Content :=
  match db w !! y with
  | Some doc => doc
  | None => empty_content y
  end.

(** ** What a deletion may do to the collection *)

(** The year a deletion addresses. *)
Definition deletion_year (op : Deletion) : option Z :=
  match op with
  | DeletePhoto year _ | DeletePartner year _
  | DeleteAwardPhoto year _ _ | DeleteAwardCategory year _ => year
  end.

(** [doc'] is [doc] with entries taken out: same year and video link,
    the photos and the partners of [doc'] are those of [doc] in the same
    order with some left out, and so are the names of its award
    categories. *)
Definition pruned (doc doc' : Content) : Prop :=
  year doc' = year doc /\ videoLink doc' = videoLink doc /\
  sublist (photos doc') (photos doc) /\
  sublist (partners doc') (partners doc) /\
  sublist (List.map category (awards doc')) (List.map category (awards doc)).

(** The fields a deletion route does not write. *)
Definition untouched (op : Deletion) (doc doc' : Content) : Prop :=
  match op with
  | DeletePhoto _ _ => partners doc' = partners doc /\ awards doc' = awards doc
  | DeletePartner _ _ => photos doc' = photos doc /\ awards doc' = awards doc
  | DeleteAwardPhoto _ _ _ =>
      partners doc' = partners doc /\
      List.length (awards doc') = List.length (awards doc)
  | DeleteAwardCategory _ _ => partners doc' = partners doc
  end.

(** The outcome [res] of a deletion started in [w]: the route answers;
    the remote log only grows; the collection is as it was, or the record
    of the addressed year, which existed, has been replaced by a pruned
    one; an answer 200 carries the record now stored under the year, an
    answer 400 means nothing at all happened, and an answer 500 that the
    collection is as it was. *)
Definition only_prunes (op : Deletion) (w : World)
    (res : Completion Response * World) : Prop :=
  exists r w',
    res = (Normal r, w') /\
    (exists keys, destroy_log w' = destroy_log w ++ keys) /\
    (db w' = db w \/
     exists y doc doc',
       deletion_year op = Some y /\ db w !! y = Some doc /\
       db w' = <[y := doc']> (db w) /\
       pruned doc doc' /\ untouched op doc doc') /\
    (status r = 200 ->
     exists y doc', deletion_year op = Some y /\ body r = JsonDoc doc' /\
                    db w' !! y = Some doc') /\
    (status r = 400 -> w' = w) /\
    (status r = 500 -> db w' = db w).

(** Deletion requests served one after the other. *)
Fixpoint serve (URL_pathname : string -> option string) (ops : list Deletion)
    (env : Env) (w : World) : World :=
  match ops with
  | [] => w
  | op :: rest => serve URL_pathname rest env (snd (handle URL_pathname op env w))
  end.

(** [d'] has the years of [d], each with a pruned record. *)
Definition shrunk (d d' : gmap Z Content) : Prop :=
  forall y,
    match d' !! y with
    | Some doc' => exists doc, d !! y = Some doc /\ pruned doc doc'
    | None => d !! y = None
    end.

(** ** Accounts: registration and login *)

(** An [AdminUser] document as stored. *)
Record StoredUser := {
  su_id : string;
  su_email : string;
  su_passwordHash : string;
  su_role : string
}.

(** [{ id: user._id, email: user.email, role: user.role }], which is also
    what [.select('-passwordHash')] leaves. *)
Definition safeUser (u : StoredUser) : AdminUser :=
  {| user_id := su_id u; user_email := su_email u; user_role := su_role u |}.

(** [email.toLowerCase().trim()]. *)
Definition normalize_email (email : string) : string := trim (toLowerCase email).

(** The account collection, oldest first, with the number of operations
    issued on it; the environment says which of them fail. *)
Record AuthWorld := {
  accounts : list StoredUser;
  account_ops : nat
}.

Record AuthEnv := { accounts_fail : nat -> bool }.

Definition A (X : Type) : Type := AuthEnv -> AuthWorld -> Completion X * AuthWorld.

Definition aret {X} (x : X) : A X := fun _ w => (Normal x, w).

Definition abind {X Y} (m : A X) (k : X -> A Y) : A Y :=
  fun env w =>
    match m env w with
    | (Normal x, w') => k x env w'
    | (Throw e, w') => (Throw e, w')
    end.

Definition try_catchA {X} (body : A X) (handler : string -> A X) : A X :=
  fun env w =>
    match body env w with
    | (Normal x, w') => (Normal x, w')
    | (Throw e, w') => handler e env w'
    end.

Definition count_account_op (w : AuthWorld) : AuthWorld :=
  {| accounts := accounts w; account_ops := S (account_ops w) |}.

(** [await AdminUser.findOne({ email })]. *)
Definition AdminUser_findOne (email : string) : A (option StoredUser) :=
  fun env w =>
    if accounts_fail env (account_ops w) then (Throw db_error, count_account_op w)
    else (Normal (List.find (fun u => (su_email u =? email)%string) (accounts w)),
          count_account_op w).

Definition email_required : string :=
  "AdminUser validation failed: email: Path `email` is required.".

Inductive AuthBody :=
| AuthMessage (message : string)
| AuthCreated (user : AdminUser) (message : string)
| AuthSession (token : string) (user : AdminUser).

Record AuthResponse := { auth_status : nat; auth_body : AuthBody }.

Definition ajson (st : nat) (b : AuthBody) : A AuthResponse :=
  aret {| auth_status := st; auth_body := b |}.

Section Accounts.

(** [process.env.ADMIN_KEY]. *)
Variable ADMIN_KEY : option string.

(** [bcrypt.hash(password, await bcrypt.genSalt(10))] and
    [bcrypt.compare(password, hash)]. *)
Variable bcrypt_hash : string -> string.
Variable bcrypt_compare : string -> string -> bool.

(** The [_id] a new document gets. *)
Variable new_id : list StoredUser -> string.

(** [jwt.sign(payload, process.env.JWT_SECRET, { expiresIn: '12h' })]. *)
Variable jwt_sign : JwtPayload -> Completion string.

(** [new AdminUser({ email, passwordHash })] followed by [user.save()]:
    the role defaults to [admin]; validation refuses an empty [email],
    which is a required path. *)
Definition AdminUser_create (email passwordHash : string) : A StoredUser :=
  fun env w =>
    let user := {| su_id := new_id (accounts w); su_email := email;
                   su_passwordHash := passwordHash; su_role := "admin" |} in
    if negb (nonempty email) then (Throw email_required, w)
    else if accounts_fail env (account_ops w) then (Throw db_error, count_account_op w)
    else (Normal user,
          {| accounts := accounts w ++ [user]; account_ops := S (account_ops w) |}).

Definition string_of (v : option string) : string :=
  match v with Some s => s | None => "" end.

(** [POST /api/auth/register]; [key] is the [x-admin-key] header, [email]
    and [password] are the fields of the body. *)
Definition register (key email password : option string) : A AuthResponse :=
  try_catchA
    (if negb (truthy key) || negb (strict_eq_opt key ADMIN_KEY)
     then ajson 401 (AuthMessage "Unauthorized: ADMIN_KEY required to register")
     else if negb (truthy email) || negb (truthy password)
     then ajson 400 (AuthMessage "email and password required")
     else
       abind (AdminUser_findOne (normalize_email (string_of email))) (fun existing =>
       match existing with
       | Some _ => ajson 400 (AuthMessage "User already exists")
       | None =>
           let hash := bcrypt_hash (string_of password) in
           abind (AdminUser_create (normalize_email (string_of email)) hash) (fun user =>
           ajson 201 (AuthCreated (safeUser user) "Admin user created"))
       end))
    (fun err => ajson 500 (AuthMessage err)).

(** [POST /api/auth/login]. *)
Definition login (email password : option string) : A AuthResponse :=
  try_catchA
    (if negb (truthy email) || negb (truthy password)
     then ajson 400 (AuthMessage "email and password required")
     else
       abind (AdminUser_findOne (normalize_email (string_of email))) (fun user =>
       match user with
       | None => ajson 401 (AuthMessage "Invalid credentials")
       | Some user =>
           if negb (bcrypt_compare (string_of password) (su_passwordHash user))
           then ajson 401 (AuthMessage "Invalid credentials")
           else
             abind (fun _ w =>
                      (jwt_sign {| jwt_id := Some (su_id user);
                                   jwt_email := Some (su_email user);
                                   jwt_role := Some (su_role user) |}, w))
               (fun token => ajson 200 (AuthSession token (safeUser user)))
       end))
    (fun err => ajson 500 (AuthMessage err)).

End Accounts.

(** [AdminUser.findById(id).select('-passwordHash')] over a collection. *)
Definition findById_in (us : list StoredUser) (id : string)
  : Completion (option AdminUser) :=
  Normal (option_map safeUser (List.find (fun u => (su_id u =? id)%string) us)).

(** The collection's invariant: addresses are stored normalised and not
    empty, and no two accounts share one. *)
Definition accounts_wf (us : list StoredUser) : Prop :=
  NoDup (List.map su_email us) /\
  forall u, In u us ->
    normalize_email (su_email u) = su_email u /\ nonempty (su_email u) = true.

(** The account store is available. *)
Definition accounts_up (env : AuthEnv) : Prop := forall n, accounts_fail env n = false.

(** Reference instances of the hashing and signing parameters, and an
    empty account collection, for the closed examples. *)
Definition demo_hash (password : string) : string := "$2a$10$" +++ password.

Definition demo_compare (password hash : string) : bool :=
  (hash =? demo_hash password)%string.

Definition demo_new_id (us : list StoredUser) : string := "64f0c0ffee".

Definition demo_sign (payload : JwtPayload) : Completion string :=
  Normal "header.payload.signature".

Definition accounts_ok : AuthEnv := {| accounts_fail := fun _ => false |}.

Definition no_accounts : AuthWorld := {| accounts := []; account_ops := 0 |}.

(** ** The gallery page and the admin panel *)

(** [nextPhoto] and [nextModalImage] of the gallery page: the index that
    follows [prev] in a gallery of [len] photos. *)
Definition nextPhoto (len prev : Z) : Z :=
  if (prev =? len - 1)%Z then 0%Z else (prev + 1)%Z.

(** [prevPhoto]. *)
Definition prevPhoto (len prev : Z) : Z :=
  if (prev =? 0)%Z then Z.max 0 (len - 1) else (prev - 1)%Z.

(** [prevModalImage]: as [prevPhoto], without the [Math.max]. *)
Definition prevModalImage (len prev : Z) : Z :=
  if (prev =? 0)%Z then (len - 1)%Z else (prev - 1)%Z.

(** [togglePhotoSelection(id)] of the admin panel, as the function it
    applies to the selection. *)
Definition togglePhotoSelection (id : string) (prev : list string) : list string :=
  if existsb (fun x => (x =? id)%string) prev
  then List.filter (fun x => negb (x =? id)%string) prev
  else prev ++ [id].

(** The same delete-photo request sent [n] times in a row. *)
Fixpoint deletePhoto_times (URL_pathname : string -> option string) (n : nat)
    (y : Z) (id : string) (env : Env) (w : World) : World :=
  match n with
  | O => w
  | S n =>
      deletePhoto_times URL_pathname n y id env
        (snd (deletePhoto URL_pathname (Some y) id env w))
  end.

(** Reference instances for the closed examples: a cast that refuses
    every value that is not a string, and a document store whose
    operation number [k] fails. *)
Definition refuse_cast (t : bool) (text : string) : Completion string :=
  Throw "Content validation failed: videoLink: Cast to string failed".

Definition store_fails_at (k : nat) : Env :=
  {| db_fails := fun n => (n =? k)%nat; destroy_outcome := fun _ _ => DestroyOk |}.

(** * Results *)

Example extractPublicId_cloudinary :
  extractPublicId PlainURL.plain_URL_pathname
    (Some "https://res.cloudinary.com/demo/image/upload/v1712345678/events/photos/17-pic.jpg")
  = Normal (Some "events/photos/17-pic").
Proof. vm_compute. reflexivity. Qed.

Example extractPublicId_bare_key :
  extractPublicId PlainURL.plain_URL_pathname (Some "17-pic") = Normal (Some "17-pic").
Proof. reflexivity. Qed.

Example extractPublicId_path_string :
  extractPublicId PlainURL.plain_URL_pathname (Some "events/photos/17-pic.jpg")
  = Normal (Some "17-pic").
Proof. vm_compute. reflexivity. Qed.

(** ** Lemmas on the string primitives *)

Section StringFacts.

Lemma append_empty_r (s : string) : s +++ "" = s.
Proof. induction s as [|c s IH]; simpl; [reflexivity | now rewrite IH]. Qed.

Lemma append_assoc (a b c : string) : (a +++ b) +++ c = a +++ b +++ c.
Proof. induction a as [|x a IH]; simpl; [reflexivity | now rewrite IH]. Qed.

Lemma nonempty_cons (c : ascii) (s : string) : nonempty (String c s) = true.
Proof. reflexivity. Qed.

Lemma nonempty_false (s : string) : nonempty s = false -> s = "".
Proof. destruct s; [reflexivity | discriminate]. Qed.

Lemma split_not_nil (sep : ascii) (s : string) : split sep s <> [].
Proof.
  induction s as [|c s IH]; simpl; [discriminate |].
  destruct (c =? sep)%char; [discriminate |].
  destruct (split sep s); [contradiction | discriminate].
Qed.

Lemma split_cons_other (sep c : ascii) (s : string) :
  (c =? sep)%char = false ->
  exists h t, split sep s = h :: t /\ split sep (String c s) = String c h :: t.
Proof.
  intros Hc. simpl. rewrite Hc.
  destruct (split sep s) as [|h t] eqn:E.
  - now apply split_not_nil in E.
  - now exists h, t.
Qed.

(** Splitting distributes over a separator in the middle. *)
Lemma split_app_sep (sep : ascii) (a b : string) :
  split sep (a +++ String sep b) = split sep a ++ split sep b.
Proof.
  induction a as [|c a IH].
  - simpl. now rewrite Ascii.eqb_refl.
  - destruct (c =? sep)%char eqn:Hc.
    + simpl. rewrite Hc, IH. reflexivity.
    + destruct (split_cons_other sep c a Hc) as (h & t & E1 & E2).
      rewrite E2. simpl. rewrite Hc, IH, E1. reflexivity.
Qed.

(** A string without the separator is a single piece. *)
Lemma split_no_sep (sep : ascii) (s : string) :
  all_chars (fun c => negb (c =? sep)%char) s = true -> split sep s = [s].
Proof.
  induction s as [|c s IH]; simpl; [reflexivity |].
  intros H. apply andb_prop in H as [Hc Hs].
  apply negb_true_iff in Hc. rewrite Hc, (IH Hs). reflexivity.
Qed.

Lemma all_chars_impl (p q : ascii -> bool) (s : string) :
  (forall c, p c = true -> q c = true) ->
  all_chars p s = true -> all_chars q s = true.
Proof.
  intros Hpq. induction s as [|c s IH]; simpl; [reflexivity |].
  intros H. apply andb_prop in H as [Hc Hs].
  now rewrite (Hpq c Hc), (IH Hs).
Qed.

Lemma all_chars_app (p : ascii -> bool) (a b : string) :
  all_chars p (a +++ b) = all_chars p a && all_chars p b.
Proof.
  induction a as [|c a IH]; simpl; [reflexivity |].
  now rewrite IH, andb_assoc.
Qed.

Lemma is_alnum_not_slash (c : ascii) : is_alnum c = true -> negb (c =? "/")%char = true.
Proof.
  intros H. apply negb_true_iff, Ascii.eqb_neq. intros ->. discriminate.
Qed.

Lemma is_alnum_not_dot (c : ascii) : is_alnum c = true -> (c =? ".")%char = false.
Proof. intros H. apply Ascii.eqb_neq. intros ->. discriminate. Qed.

Lemma is_digit_not_slash (c : ascii) : is_digit c = true -> negb (c =? "/")%char = true.
Proof.
  intros H. apply negb_true_iff, Ascii.eqb_neq. intros ->. discriminate.
Qed.

(** Joining the pieces of a split gives the string back. *)
Lemma join_split (sep : ascii) (s : string) :
  join (String sep "") (split sep s) = s.
Proof.
  induction s as [|c s IH]; [reflexivity |].
  destruct (c =? sep)%char eqn:Hc.
  - simpl. rewrite Hc. apply Ascii.eqb_eq in Hc as ->.
    unfold join in *. simpl.
    destruct (split sep s) as [|h t] eqn:E; [now apply split_not_nil in E |].
    now rewrite IH.
  - destruct (split_cons_other sep c s Hc) as (h & t & E1 & E2).
    rewrite E2. unfold join in *. rewrite E1 in IH. simpl.
    destruct t; simpl in *; now rewrite <- IH.
Qed.

Lemma join_app (sep : string) (xs ys : list string) :
  xs <> [] -> ys <> [] ->
  join sep (xs ++ ys) = join sep xs +++ sep +++ join sep ys.
Proof.
  intros Hx Hy. induction xs as [|x xs IH]; [contradiction |].
  destruct xs as [|x' xs].
  - simpl. destruct ys; [contradiction | reflexivity].
  - change (join sep ((x :: x' :: xs) ++ ys))
      with (x +++ sep +++ join sep ((x' :: xs) ++ ys)).
    rewrite IH by discriminate.
    change (join sep (x :: x' :: xs)) with (x +++ sep +++ join sep (x' :: xs)).
    now rewrite !append_assoc.
Qed.

(** Cutting the extension off [s.ext] leaves [s]. *)
Lemma strip_ext_app (s ext : string) :
  nonempty ext = true -> all_chars is_alnum ext = true ->
  strip_ext (s +++ String "." ext) = s.
Proof.
  intros Hne Hal. induction s as [|c s IH].
  - simpl. now rewrite Hne, Hal.
  - simpl. rewrite IH.
    destruct (c =? ".")%char eqn:Hc; [| reflexivity].
    rewrite all_chars_app. simpl.
    now rewrite !andb_false_r.
Qed.

Lemma strip_ext_no_dot (s : string) :
  all_chars (fun c => negb (c =? ".")%char) s = true -> strip_ext s = s.
Proof.
  induction s as [|c s IH]; simpl; [reflexivity |].
  intros H. apply andb_prop in H as [Hc Hs].
  apply negb_true_iff in Hc. rewrite Hc. simpl. now rewrite (IH Hs).
Qed.

Lemma includes_app_sep (sep : ascii) (a b : string) :
  includes (String sep "") (a +++ String sep b) = true.
Proof.
  induction a as [|c a IH]; simpl.
  - destruct (ascii_dec sep sep) as [_|Hne]; [| now contradiction Hne].
    destruct b; reflexivity.
  - rewrite IH. apply orb_true_r.
Qed.

Lemma findIndex_app_first {A} (p : A -> bool) (xs : list A) (y : A) (ys : list A) :
  existsb p xs = false -> p y = true ->
  findIndex p (xs ++ y :: ys) = Some (List.length xs).
Proof.
  intros Hx Hy. induction xs as [|x xs IH]; simpl in *.
  - now rewrite Hy.
  - apply orb_false_elim in Hx as [Hx1 Hx2].
    now rewrite Hx1, (IH Hx2).
Qed.

Lemma pop_filter_nonempty (xs : list string) (l : string) :
  pop (filter_Boolean xs) = Some l -> nonempty l = true.
Proof.
  unfold filter_Boolean. intros H.
  assert (Hin : In l (List.filter nonempty xs)).
  { remember (List.filter nonempty xs) as ys eqn:E. clear E.
    induction ys as [|y ys IH]; [discriminate |].
    destruct ys as [|y' ys]; simpl in H.
    - injection H as ->. now left.
    - right. now apply IH. }
  now apply filter_In in Hin as [_ Hl].
Qed.

Lemma pop_None {A} (xs : list A) : pop xs = None -> xs = [].
Proof.
  induction xs as [|x xs IH]; [reflexivity |].
  destruct xs as [|y ys]; [discriminate |].
  intros H. apply IH in H. discriminate.
Qed.

(** A string all of whose pieces are empty consists of separators only. *)
Lemma split_all_empty (sep : ascii) (s : string) :
  filter_Boolean (split sep s) = [] -> all_chars (fun c => (c =? sep)%char) s = true.
Proof.
  induction s as [|c s IH]; [reflexivity |].
  destruct (c =? sep)%char eqn:Hc.
  - simpl. rewrite Hc. simpl. exact IH.
  - destruct (split_cons_other sep c s Hc) as (h & t & E1 & E2).
    rewrite E2. simpl. discriminate.
Qed.

End StringFacts.

(** ** The identity resolver: results *)

Section ResolverFacts.

Variable URL_pathname : string -> option string.

Lemma includes_nonempty (needle s : string) :
  nonempty needle = true -> includes needle s = true -> nonempty s = true.
Proof.
  intros Hn H. destruct s; [| reflexivity].
  destruct needle; discriminate.
Qed.

Lemma existsb_filter_false {A} (p q : A -> bool) (xs : list A) :
  existsb p xs = false -> existsb p (List.filter q xs) = false.
Proof.
  induction xs as [|x xs IH]; simpl; [reflexivity |].
  intros H. apply orb_false_elim in H as [Hx Hxs].
  destruct (q x); simpl; [rewrite Hx |]; now apply IH.
Qed.

Lemma filter_all {A} (q : A -> bool) (xs : list A) :
  forallb q xs = true -> List.filter q xs = xs.
Proof.
  induction xs as [|x xs IH]; simpl; [reflexivity |].
  intros H. apply andb_prop in H as [Hx Hxs]. now rewrite Hx, IH.
Qed.

Lemma skipn_app_cons {A} (xs : list A) (y : A) (ys : list A) :
  skipn (List.length xs + 1) (xs ++ y :: ys) = ys.
Proof. induction xs as [|x xs IH]; simpl; [reflexivity | exact IH]. Qed.

(** On an input that is neither empty nor a bare key, the resolver is its
    [try] block guarded by its [catch] block. *)
Lemma extractPublicId_with_slash (s : string) :
  includes "/" s = true ->
  extractPublicId URL_pathname (Some s) =
  try_catch (extractPublicId_try URL_pathname s)
            (fun _ => extractPublicId_catch s).
Proof.
  intros H. unfold extractPublicId.
  rewrite (includes_nonempty "/" s eq_refl H), H. simpl.
  now rewrite andb_false_r.
Qed.

Lemma extractPublicId_try_throws (s : string) :
  URL_pathname s = None ->
  try_catch (extractPublicId_try URL_pathname s)
            (fun _ => extractPublicId_catch s) = extractPublicId_catch s.
Proof. intros H. unfold extractPublicId_try, new_URL. now rewrite H. Qed.

Lemma extractPublicId_try_normal (s : string) :
  exists r, try_catch (extractPublicId_try URL_pathname s)
              (fun _ => extractPublicId_catch s) = Normal (Some r).
Proof.
  unfold extractPublicId_try, new_URL, extractPublicId_catch.
  destruct (URL_pathname s) as [p|]; simpl.
  - destruct (negb _); eexists; reflexivity.
  - eexists; reflexivity.
Qed.

(** What the [catch] block returns. *)
Lemma extractPublicId_catch_value (s : string) :
  extractPublicId_catch s =
  Normal (Some match pop (filter_Boolean (split "/" s)) with
               | Some last => strip_ext last
               | None => s
               end).
Proof.
  unfold extractPublicId_catch, or_else.
  destruct (pop (filter_Boolean (split "/" s))) as [last|] eqn:E.
  - apply pop_filter_nonempty in E as Hl. simpl.
    unfold nonempty in Hl. now rewrite Hl.
  - simpl. apply pop_None, split_all_empty in E.
    rewrite strip_ext_no_dot; [reflexivity |].
    eapply all_chars_impl; [| exact E].
    intros c Hc. apply Ascii.eqb_eq in Hc as ->. reflexivity.
Qed.

Lemma split_versioned_upload_tail (P up digits folder name ext : string) :
  is_upload up = true ->
  all_chars is_digit digits = true ->
  all_chars is_alnum ext = true ->
  forallb nonempty (split "/" folder) = true ->
  all_chars (fun c => negb (c =? "/")%char) name = true ->
  filter_Boolean (split "/" (P +++ versioned_upload_tail up digits folder name ext)) =
  filter_Boolean (split "/" P) ++
  up :: ("v" +++ digits) :: split "/" folder ++ [name +++ "." +++ ext].
Proof.
  intros Hup Hd He Hf Hn. unfold versioned_upload_tail. simpl.
  rewrite split_app_sep.
  replace (up +++ String "/" (String "v" (digits +++
             String "/" (folder +++ String "/" (name +++ String "." ext)))))
    with (up +++ String "/" (String "v" digits +++
             String "/" (folder +++ String "/" (name +++ String "." ext))))
    by reflexivity.
  rewrite !split_app_sep.
  assert (Hu : split "/" up = [up]).
  { unfold is_upload in Hup. apply orb_prop in Hup as [H|H];
      apply String.eqb_eq in H as ->; reflexivity. }
  assert (Hv : split "/" (String "v" digits) = [String "v" digits]).
  { apply split_no_sep. simpl.
    eapply all_chars_impl; [apply is_digit_not_slash | exact Hd]. }
  assert (Hfile : split "/" (name +++ String "." ext) = [name +++ String "." ext]).
  { apply split_no_sep. rewrite all_chars_app, Hn. simpl.
    eapply all_chars_impl; [apply is_alnum_not_slash | exact He]. }
  rewrite Hu, Hv, Hfile. unfold filter_Boolean.
  rewrite !List.filter_app, (filter_all _ _ Hf). simpl.
  assert (Hune : nonempty up = true).
  { unfold is_upload in Hup. apply orb_prop in Hup as [H|H];
      apply String.eqb_eq in H as ->; reflexivity. }
  rewrite Hune.
  destruct name; reflexivity.
Qed.

(** C2 (amended).  For every input that the URL parser accepts with a
    path ending in [/upload/v<digits>/<folder>/<name>.<ext>] (or
    [/uploads/...]), where that upload segment is the first path segment
    equal to [upload] or [uploads], <digits> is a nonempty digit string,
    <ext> a nonempty alphanumeric extension, <folder> has no empty
    segment and <name> no slash, [extractPublicId] returns
    [<folder>/<name>]. *)
Theorem extractPublicId_versioned_upload
    (input pre P up digits folder name ext : string) :
  input = pre +++ versioned_upload_tail up digits folder name ext ->
  URL_pathname input = Some (P +++ versioned_upload_tail up digits folder name ext) ->
  is_upload up = true ->
  existsb is_upload (split "/" P) = false ->
  nonempty digits = true -> all_chars is_digit digits = true ->
  nonempty ext = true -> all_chars is_alnum ext = true ->
  forallb nonempty (split "/" folder) = true ->
  all_chars (fun c => negb (c =? "/")%char) name = true ->
  extractPublicId URL_pathname (Some input) = Normal (Some (folder +++ "/" +++ name)).
Proof.
  intros Hin Hurl Hup HP Hdn Hd Hen He Hf Hn.
  rewrite extractPublicId_with_slash
    by (rewrite Hin; unfold versioned_upload_tail; apply includes_app_sep).
  unfold extractPublicId_try, new_URL. rewrite Hurl.
  unfold bind. cbn [pathname].
  rewrite (split_versioned_upload_tail P up digits folder name ext Hup Hd He Hf Hn).
  unfold filter_Boolean.
  rewrite (findIndex_app_first is_upload _ up _
             (existsb_filter_false _ nonempty _ HP) Hup).
  rewrite skipn_app_cons.
  assert (Hver : is_version ("v" +++ digits) = true).
  { simpl. now rewrite Hdn, Hd. }
  rewrite Hver.
  rewrite join_app; [| apply split_not_nil | discriminate].
  rewrite join_split.
  replace (folder +++ "/" +++ join "/" [name +++ "." +++ ext])
    with ((folder +++ "/" +++ name) +++ String "." ext)
    by (simpl; now rewrite !append_assoc).
  rewrite (strip_ext_app _ ext Hen He).
  assert (Hne : nonempty (folder +++ "/" +++ name) = true)
    by (destruct folder; reflexivity).
  rewrite Hne. reflexivity.
Qed.

(** A non-empty input always resolves to a string. *)
Lemma extractPublicId_nonempty (s : string) :
  nonempty s = true ->
  exists r, extractPublicId URL_pathname (Some s) = Normal (Some r).
Proof.
  intros Hs. unfold extractPublicId. rewrite Hs. simpl.
  destruct (negb (startsWith "http" s) && negb (includes "/" s)).
  - now exists s.
  - apply extractPublicId_try_normal.
Qed.

(** The resolver never throws. *)
Lemma extractPublicId_normal (input : option string) :
  exists r, extractPublicId URL_pathname input = Normal r.
Proof.
  destruct input as [s|]; [| now exists None].
  destruct (nonempty s) eqn:Hs.
  - destruct (extractPublicId_nonempty s Hs) as [r Hr]. now exists (Some r).
  - exists None. unfold extractPublicId. now rewrite Hs.
Qed.

(** C3.  The resolver is total on strings and [null]: it completes
    normally on every input; a [null] or empty input gives [null]; every
    other input gives a string; and on the failure path (the URL
    constructor throws) that string is the input's last non-empty
    segment, extension cut, or the input itself. *)
Theorem extractPublicId_total (input : option string) :
  (exists r, extractPublicId URL_pathname input = Normal r) /\
  (truthy input = false -> extractPublicId URL_pathname input = Normal None) /\
  (truthy input = true ->
   exists r, extractPublicId URL_pathname input = Normal (Some r)) /\
  (forall s, input = Some s -> nonempty s = true -> URL_pathname s = None ->
   extractPublicId URL_pathname input = Normal (Some s) \/
   exists last, pop (filter_Boolean (split "/" s)) = Some last /\
     extractPublicId URL_pathname input = Normal (Some (strip_ext last))).
Proof.
  repeat split.
  - apply extractPublicId_normal.
  - destruct input as [s|]; [| reflexivity].
    simpl. intros H. unfold extractPublicId, nonempty. now rewrite H.
  - destruct input as [s|]; [| discriminate].
    intros H. now apply extractPublicId_nonempty.
  - intros s -> Hs Hnone. unfold extractPublicId. rewrite Hs. simpl.
    destruct (negb (startsWith "http" s) && negb (includes "/" s));
      [now left |].
    rewrite (extractPublicId_try_throws s Hnone), extractPublicId_catch_value.
    destruct (pop (filter_Boolean (split "/" s))) as [last|];
      [right; now exists last | now left].
Qed.

(** C4 (amended).  On an input that contains a slash and does not parse
    as a URL, the resolver returns the last non-empty segment with its
    extension cut, also when nothing is left of it; only an input with no
    non-empty segment at all comes back as it is. *)
Theorem extractPublicId_path_fallback (s : string) :
  includes "/" s = true ->
  URL_pathname s = None ->
  extractPublicId URL_pathname (Some s) =
  Normal (Some match pop (filter_Boolean (split "/" s)) with
               | Some last => strip_ext last
               | None => s
               end).
Proof.
  intros Hs Hnone.
  rewrite (extractPublicId_with_slash s Hs), (extractPublicId_try_throws s Hnone).
  apply extractPublicId_catch_value.
Qed.

End ResolverFacts.

(** Reference inputs for the resolver, on the plain URL parser. *)

Lemma extractPublicId_versioned_upload_witness :
  extractPublicId PlainURL.plain_URL_pathname
    (Some "https://res.cloudinary.com/demo/image/upload/v1712345678/events/photos/17-pic.jpg")
  = Normal (Some "events/photos/17-pic").
Proof.
  apply (extractPublicId_versioned_upload PlainURL.plain_URL_pathname
           "https://res.cloudinary.com/demo/image/upload/v1712345678/events/photos/17-pic.jpg"
           "https://res.cloudinary.com/demo/image" "/demo/image"
           "upload" "1712345678" "events/photos" "17-pic" "jpg");
    vm_compute; reflexivity.
Defined.

(** C2, as stated, fails when an earlier path segment is itself [upload]
    or [uploads]: the first URL below has the shape, with folder [f] and
    name [n], and the resolver cuts after the first such segment.  It
    also fails when the folder has an empty segment, which the resolver
    drops: the second URL has folder [a//b]. *)
Lemma extractPublicId_earlier_upload_segment :
  "https://res.cloudinary.com/uploads/image/upload/v1/f/n.jpg" =
    "https://res.cloudinary.com/uploads/image" +++
    versioned_upload_tail "upload" "1" "f" "n" "jpg" /\
  PlainURL.plain_URL_pathname
    "https://res.cloudinary.com/uploads/image/upload/v1/f/n.jpg" =
    Some ("/uploads/image" +++ versioned_upload_tail "upload" "1" "f" "n" "jpg") /\
  extractPublicId PlainURL.plain_URL_pathname
    (Some "https://res.cloudinary.com/uploads/image/upload/v1/f/n.jpg") =
    Normal (Some "image/upload/v1/f/n") /\
  extractPublicId PlainURL.plain_URL_pathname
    (Some "https://res.cloudinary.com/uploads/image/upload/v1/f/n.jpg") <>
    Normal (Some "f/n") /\
  "https://res.cloudinary.com/demo/image/upload/v1/a//b/n.jpg" =
    "https://res.cloudinary.com/demo/image" +++
    versioned_upload_tail "upload" "1" "a//b" "n" "jpg" /\
  extractPublicId PlainURL.plain_URL_pathname
    (Some "https://res.cloudinary.com/demo/image/upload/v1/a//b/n.jpg") =
    Normal (Some "a/b/n").
Proof.
  split; [reflexivity |]. split; [vm_compute; reflexivity |].
  split; [vm_compute; reflexivity |]. split; [vm_compute; discriminate |].
  split; [reflexivity | vm_compute; reflexivity].
Qed.

Lemma extractPublicId_total_witness :
  extractPublicId PlainURL.plain_URL_pathname (Some "events/photos/") =
    Normal (Some "events/photos/") \/
  exists last,
    pop (filter_Boolean (split "/" "events/photos/")) = Some last /\
    extractPublicId PlainURL.plain_URL_pathname (Some "events/photos/") =
      Normal (Some (strip_ext last)).
Proof.
  apply (proj2 (proj2 (proj2
           (extractPublicId_total PlainURL.plain_URL_pathname (Some "events/photos/"))))
           "events/photos/"); reflexivity.
Defined.

Lemma extractPublicId_path_fallback_witness :
  extractPublicId PlainURL.plain_URL_pathname (Some "events/photos/17-pic.jpg") =
  Normal (Some "17-pic").
Proof.
  apply (extractPublicId_path_fallback PlainURL.plain_URL_pathname
           "events/photos/17-pic.jpg"); reflexivity.
Defined.

(** C4, as stated, fails when cutting the extension leaves nothing: the
    last segment of [a/.jpg] is [.jpg], and the resolver returns the empty
    string, not the input. *)
Lemma extractPublicId_empty_stem :
  includes "/" "a/.jpg" = true /\
  PlainURL.plain_URL_pathname "a/.jpg" = None /\
  pop (filter_Boolean (split "/" "a/.jpg")) = Some ".jpg" /\
  strip_ext ".jpg" = "" /\
  extractPublicId PlainURL.plain_URL_pathname (Some "a/.jpg") = Normal (Some "") /\
  extractPublicId PlainURL.plain_URL_pathname (Some "a/.jpg") <> Normal (Some "a/.jpg").
Proof.
  split; [reflexivity |]. split; [reflexivity |]. split; [reflexivity |].
  split; [reflexivity |]. split; [vm_compute; reflexivity | vm_compute; discriminate].
Qed.

(** ** The access-control gate: results *)

Section GateFacts.

Variable jwt_verify : option string -> Completion JwtPayload.
Variable AdminUser_findById : string -> Completion (option AdminUser).
Variable ADMIN_KEY : option string.

Abbreviation verify := (verifyJwtToken jwt_verify AdminUser_findById).
Abbreviation gate := (authMiddleware jwt_verify AdminUser_findById ADMIN_KEY).

Lemma verifyJwtToken_resolves (token : option string) (user : AdminUser) :
  TokenResolves jwt_verify AdminUser_findById token user -> verify token = Normal (Some user).
Proof.
  intros [decoded id Hv Hid Hne Hf]. unfold verifyJwtToken.
  rewrite Hv. simpl. rewrite Hid, Hne. simpl. now rewrite Hf.
Qed.

Lemma verifyJwtToken_rejected (token : option string) :
  TokenRejected jwt_verify AdminUser_findById token -> verify token = Normal None.
Proof.
  unfold verifyJwtToken.
  intros [e Hv | decoded Hv Hid | decoded id Hv Hid Hf | decoded id e Hv Hid Hf];
    rewrite Hv; simpl; [reflexivity | | |].
  - destruct (jwt_id decoded) as [id|]; [| reflexivity].
    simpl in Hid. unfold nonempty. now rewrite Hid.
  - rewrite Hid. destruct (negb (nonempty id)); [reflexivity |]. now rewrite Hf.
  - rewrite Hid. destruct (negb (nonempty id)); [reflexivity |]. now rewrite Hf.
Qed.

(** [verifyJwtToken] never throws. *)
Lemma verifyJwtToken_normal (token : option string) :
  exists r, verify token = Normal r.
Proof.
  unfold verifyJwtToken. destruct (jwt_verify token) as [decoded|e]; simpl;
    [| now eexists].
  destruct (jwt_id decoded) as [id|]; [| now eexists].
  destruct (negb (nonempty id)); [now eexists |].
  destruct (AdminUser_findById id); simpl; now eexists.
Qed.

Lemma toLowerCase_app (a b : string) :
  toLowerCase (a +++ b) = toLowerCase a +++ toLowerCase b.
Proof. induction a as [|c a IH]; simpl; [reflexivity | now rewrite IH]. Qed.

Lemma startsWith_app (a b : string) : startsWith a (a +++ b) = true.
Proof.
  unfold startsWith. induction a as [|c a IH]; simpl; [now destruct b |].
  destruct (ascii_dec c c) as [_|Hne]; [exact IH | now contradiction Hne].
Qed.

Lemma lower_char_space (c : ascii) :
  (c =? " ")%char = true -> lower_char c = " "%char.
Proof. intros H. apply Ascii.eqb_eq in H as ->. reflexivity. Qed.

Lemma toLowerCase_no_space (s t : string) :
  toLowerCase s = t -> no_space t = true -> no_space s = true.
Proof.
  unfold no_space.
  revert t. induction s as [|c s IH]; intros t Ht Hn; [reflexivity |].
  simpl in Ht. subst t. simpl in Hn. apply andb_prop in Hn as [Hc Hs].
  simpl. rewrite (IH _ eq_refl Hs), andb_true_r.
  destruct (c =? " ")%char eqn:E; [| reflexivity].
  rewrite (lower_char_space c E) in Hc. discriminate.
Qed.

(** A header [<scheme> <token>] whose scheme reads [bearer] in any
    letter case hands [<token>] to [verifyJwtToken]. *)
Lemma bearer_user_token (req : Request) (scheme token : string) :
  authorization req = Some (scheme +++ " " +++ token) ->
  toLowerCase scheme = "bearer" ->
  no_space token = true ->
  bearer_user jwt_verify AdminUser_findById req = verify (Some token).
Proof.
  intros Hh Hs Ht. unfold bearer_user. rewrite Hh.
  assert (Hsp : no_space scheme = true)
    by (apply (toLowerCase_no_space scheme "bearer" Hs); reflexivity).
  assert (Hne : nonempty (scheme +++ " " +++ token) = true).
  { destruct scheme; [discriminate | reflexivity]. }
  rewrite Hne.
  replace (scheme +++ " " +++ token) with ((scheme +++ " ") +++ token)
    by apply append_assoc.
  rewrite !toLowerCase_app, Hs.
  change ("bearer" +++ toLowerCase " ") with "bearer ".
  rewrite startsWith_app. simpl.
  rewrite append_assoc. change (" " +++ token) with (String " " token).
  rewrite split_app_sep, (split_no_sep " " scheme Hsp), (split_no_sep " " token Ht).
  reflexivity.
Qed.

(** C1 (amended).  For every request: a Bearer token that verifies and
    resolves to a stored account is accepted with that account; with no
    token, a non-empty [x-admin-key] equal to [ADMIN_KEY] is accepted
    with the pseudo-user; with neither header the answer is 401; a
    rejected token with no [x-admin-key] gets 401; and a rejected token
    next to a non-empty [x-admin-key] equal to [ADMIN_KEY] falls through
    and is accepted with the pseudo-user. *)
Theorem authMiddleware_paths (req : Request) :
  (forall scheme token user,
     authorization req = Some (scheme +++ " " +++ token) ->
     toLowerCase scheme = "bearer" -> no_space token = true ->
     TokenResolves jwt_verify AdminUser_findById (Some token) user ->
     gate req = Normal (Next (Account user))) /\
  (forall k,
     authorization req = None ->
     x_admin_key req = Some k -> ADMIN_KEY = Some k -> nonempty k = true ->
     gate req = Normal (Next (Pseudo "x-admin-key" "admin"))) /\
  (authorization req = None -> x_admin_key req = None ->
   gate req = Normal (Respond 401 "Unauthorized")) /\
  (forall scheme token,
     authorization req = Some (scheme +++ " " +++ token) ->
     toLowerCase scheme = "bearer" -> no_space token = true ->
     TokenRejected jwt_verify AdminUser_findById (Some token) ->
     x_admin_key req = None ->
     gate req = Normal (Respond 401 "Unauthorized")) /\
  (forall scheme token k,
     authorization req = Some (scheme +++ " " +++ token) ->
     toLowerCase scheme = "bearer" -> no_space token = true ->
     TokenRejected jwt_verify AdminUser_findById (Some token) ->
     x_admin_key req = Some k -> ADMIN_KEY = Some k -> nonempty k = true ->
     gate req = Normal (Next (Pseudo "x-admin-key" "admin"))).
Proof.
  assert (Hkey : forall k, x_admin_key req = Some k -> ADMIN_KEY = Some k ->
            nonempty k = true ->
            truthy (x_admin_key req) && strict_eq_opt (x_admin_key req) ADMIN_KEY = true).
  { intros k -> -> Hk. simpl. unfold nonempty in Hk.
    now rewrite Hk, String.eqb_refl. }
  repeat split.
  - intros scheme token user Hh Hs Ht Hr. unfold authMiddleware.
    rewrite (bearer_user_token req scheme token Hh Hs Ht),
      (verifyJwtToken_resolves _ _ Hr). reflexivity.
  - intros k Ha Hx HK Hk. unfold authMiddleware, bearer_user.
    rewrite Ha. simpl. now rewrite (Hkey k Hx HK Hk).
  - intros Ha Hx. unfold authMiddleware, bearer_user. rewrite Ha, Hx. reflexivity.
  - intros scheme token Hh Hs Ht Hr Hx. unfold authMiddleware.
    rewrite (bearer_user_token req scheme token Hh Hs Ht),
      (verifyJwtToken_rejected _ Hr), Hx. reflexivity.
  - intros scheme token k Hh Hs Ht Hr Hx HK Hk. unfold authMiddleware.
    rewrite (bearer_user_token req scheme token Hh Hs Ht),
      (verifyJwtToken_rejected _ Hr). simpl. now rewrite (Hkey k Hx HK Hk).
Qed.

End GateFacts.

Lemma authMiddleware_paths_witness :
  authMiddleware demo_jwt_verify demo_findById (Some "s3cret")
    {| authorization := Some "Bearer header.payload.signature"; x_admin_key := None |}
  = Normal (Next (Account demo_admin)) /\
  authMiddleware demo_jwt_verify demo_findById (Some "s3cret")
    {| authorization := None; x_admin_key := Some "s3cret" |}
  = Normal (Next (Pseudo "x-admin-key" "admin")) /\
  authMiddleware demo_jwt_verify demo_findById (Some "s3cret")
    {| authorization := Some "bearer expired.or.forged"; x_admin_key := None |}
  = Normal (Respond 401 "Unauthorized") /\
  authMiddleware demo_jwt_verify demo_findById (Some "s3cret")
    {| authorization := Some "bearer expired.or.forged"; x_admin_key := Some "s3cret" |}
  = Normal (Next (Pseudo "x-admin-key" "admin")).
Proof.
  split; [| split; [| split]].
  - apply (proj1 (authMiddleware_paths demo_jwt_verify demo_findById (Some "s3cret") _)
             "Bearer" "header.payload.signature" demo_admin); try reflexivity.
    eapply token_resolves; reflexivity.
  - apply (proj1 (proj2 (authMiddleware_paths demo_jwt_verify demo_findById
                           (Some "s3cret") _)) "s3cret"); reflexivity.
  - apply (proj1 (proj2 (proj2 (proj2
             (authMiddleware_paths demo_jwt_verify demo_findById (Some "s3cret") _))))
             "bearer" "expired.or.forged"); try reflexivity.
    eapply token_invalid; reflexivity.
  - apply (proj2 (proj2 (proj2 (proj2
             (authMiddleware_paths demo_jwt_verify demo_findById (Some "s3cret") _))))
             "bearer" "expired.or.forged" "s3cret"); try reflexivity.
    eapply token_invalid; reflexivity.
Defined.

(** C1, as stated, fails for an empty secret: with [ADMIN_KEY] set to the
    empty string, an [x-admin-key] header equal to it is refused. *)
Lemma authMiddleware_empty_key_refused :
  strict_eq_opt (Some "") (Some "") = true /\
  authMiddleware demo_jwt_verify demo_findById (Some "")
    {| authorization := None; x_admin_key := Some "" |}
  = Normal (Respond 401 "Unauthorized").
Proof. split; reflexivity. Qed.

(** ** The deletion handlers: running them *)

Section HandlerFacts.

Variable URL_pathname : string -> option string.

Lemma findOne_run (env : Env) (w : World) (y : Z) :
  db_up env ->
  Content_findOne y env w = (Normal (db w !! y), count_db_op w).
Proof. intros Hup. unfold Content_findOne. now rewrite Hup. Qed.

Lemma save_run (env : Env) (w : World) (doc : Content) :
  db_up env ->
  save doc env w =
  (Normal tt, {| db := <[year doc := doc]> (db w);
                 db_ops := S (db_ops w);
                 destroy_log := destroy_log w |}).
Proof. intros Hup. unfold save. now rewrite Hup. Qed.

(** Whatever the remote store answers, a guarded request completes and
    leaves one more key in the log. *)
Lemma try_destroy_run (env : Env) (w : World) (key : string) :
  try_destroy key env w =
  (Normal tt, {| db := db w; db_ops := db_ops w;
                 destroy_log := destroy_log w ++ [key] |}).
Proof.
  unfold try_destroy, try_catchM, mbind, destroy, ret.
  now destruct (destroy_outcome env _ key).
Qed.

Lemma extractPublicId_extracted_key (u : option string) :
  extractPublicId URL_pathname u = Normal (extracted_key URL_pathname u).
Proof.
  unfold extracted_key.
  destruct (extractPublicId_normal URL_pathname u) as [r ->]. reflexivity.
Qed.

Lemma destroy_candidate_run (env : Env) (w : World) (found : Image) (id : string) :
  destroy_candidate URL_pathname found id env w =
  (Normal (candidate_key URL_pathname found id), w).
Proof.
  unfold destroy_candidate, candidate_key, or_else, mbind, lift, ret.
  destruct (truthy (public_id found)); [reflexivity |].
  destruct (truthy (filename found)); [reflexivity |].
  now rewrite extractPublicId_extracted_key.
Qed.

Lemma deletePhoto_not_found_run (env : Env) (w : World) (y : Z) (id : string)
    (doc : Content) :
  db_up env -> db w !! y = Some doc ->
  find_tagged (locates id) (photos doc) = None ->
  deletePhoto URL_pathname (Some y) id env w =
  (Normal {| status := 404;
             body := JsonMessage
               "Photo not found in DB; attempted to remove any partial matches" |},
   world_after w
     (set_photos doc (List.filter (fun p => negb (partial_match id p)) (photos doc)))
     []).
Proof.
  intros Hup Hdoc Hfind.
  unfold deletePhoto, try_catchM, mbind.
  rewrite (findOne_run env w y Hup), Hdoc, Hfind, save_run by exact Hup.
  unfold json, ret, world_after. simpl. now rewrite app_nil_r.
Qed.

Lemma deletePhoto_found_run (env : Env) (w : World) (y : Z) (id : string)
    (doc : Content) (i : nat) (photo : Image) :
  db_up env -> db w !! y = Some doc ->
  find_tagged (locates id) (photos doc) = Some (i, photo) ->
  let doc' :=
    set_photos doc (untag (drop_same_url i photo (kept_photos i photo (photos doc)))) in
  deletePhoto URL_pathname (Some y) id env w =
  (Normal {| status := 200; body := JsonDoc doc' |},
   world_after w doc' [candidate_key URL_pathname photo id]).
Proof.
  intros Hup Hdoc Hfind doc'.
  unfold deletePhoto, try_catchM, mbind.
  rewrite (findOne_run env w y Hup), Hdoc, Hfind, destroy_candidate_run,
    try_destroy_run, save_run by exact Hup.
  reflexivity.
Qed.

Lemma deletePhoto_no_record_run (env : Env) (w : World) (y : Z) (id : string) :
  db_up env -> db w !! y = None ->
  deletePhoto URL_pathname (Some y) id env w =
  (Normal {| status := 404; body := content_not_found y |}, count_db_op w).
Proof.
  intros Hup Hdoc. unfold deletePhoto, try_catchM, mbind.
  now rewrite (findOne_run env w y Hup), Hdoc.
Qed.

Lemma deletePartner_not_found_run (env : Env) (w : World) (y : Z) (id : string)
    (doc : Content) :
  db_up env -> db w !! y = Some doc ->
  find_tagged (locates id) (partners doc) = None ->
  deletePartner URL_pathname (Some y) id env w =
  (Normal {| status := 404;
             body := JsonMessage
               "Partner not found in DB; attempted to remove any partial matches" |},
   world_after w
     (set_partners doc
        (List.filter (fun p => negb (partial_match id p)) (partners doc)))
     []).
Proof.
  intros Hup Hdoc Hfind.
  unfold deletePartner, try_catchM, mbind.
  rewrite (findOne_run env w y Hup), Hdoc, Hfind, save_run by exact Hup.
  unfold json, ret, world_after. simpl. now rewrite app_nil_r.
Qed.

Lemma deletePartner_found_run (env : Env) (w : World) (y : Z) (id : string)
    (doc : Content) (i : nat) (partner : Image) :
  db_up env -> db w !! y = Some doc ->
  find_tagged (locates id) (partners doc) = Some (i, partner) ->
  let doc' :=
    set_partners doc
      (untag (drop_same_url i partner (kept_partners i partner (partners doc)))) in
  deletePartner URL_pathname (Some y) id env w =
  (Normal {| status := 200; body := JsonDoc doc' |},
   world_after w doc' [candidate_key URL_pathname partner id]).
Proof.
  intros Hup Hdoc Hfind doc'.
  unfold deletePartner, try_catchM, mbind.
  rewrite (findOne_run env w y Hup), Hdoc, Hfind, destroy_candidate_run,
    try_destroy_run, save_run by exact Hup.
  reflexivity.
Qed.

End HandlerFacts.

(** ** Arrays with identities: lemmas *)

Section TaggedLists.

Context {A : Type}.

Lemma find_combine_seq_None (p : A -> bool) (xs : list A) (k : nat) :
  List.find (fun e => p (snd e)) (combine (seq k (List.length xs)) xs) = None <->
  forallb (fun x => negb (p x)) xs = true.
Proof.
  revert k. induction xs as [|x xs IH]; intros k; simpl; [tauto |].
  destruct (p x); simpl; [split; discriminate |]. apply IH.
Qed.

(** [find] fails exactly when no element satisfies the predicate. *)
Lemma find_tagged_None (p : A -> bool) (xs : list A) :
  find_tagged p xs = None <-> forallb (fun x => negb (p x)) xs = true.
Proof. apply find_combine_seq_None. Qed.

Lemma find_combine_seq_Some (p : A -> bool) (xs : list A) (k i : nat) (x : A) :
  List.find (fun e => p (snd e)) (combine (seq k (List.length xs)) xs) = Some (i, x) ->
  In (i, x) (combine (seq k (List.length xs)) xs) /\ p x = true.
Proof.
  intros H. apply find_some in H. exact H.
Qed.

(** What [find] returns is an element of the array and satisfies the
    predicate. *)
Lemma find_tagged_Some (p : A -> bool) (xs : list A) (i : nat) (x : A) :
  find_tagged p xs = Some (i, x) -> In (i, x) (tag xs) /\ p x = true.
Proof. apply find_combine_seq_Some. Qed.

Lemma In_tag_lookup (xs : list A) (k i : nat) (x : A) :
  In (i, x) (combine (seq k (List.length xs)) xs) ->
  (k <= i)%nat /\ xs !! (i - k)%nat = Some x.
Proof.
  revert k. induction xs as [|y ys IH]; intros k; simpl; [contradiction |].
  intros [H | H].
  - injection H as <- <-. split; [lia |]. now rewrite Nat.sub_diag.
  - apply IH in H as [Hle Hl]. split; [lia |].
    replace (i - k)%nat with (S (i - S k)) by lia. exact Hl.
Qed.

(** The first element satisfying the predicate sits at the position
    [find] reports. *)
Lemma find_tagged_lookup (p : A -> bool) (xs : list A) (i : nat) (x : A) :
  find_tagged p xs = Some (i, x) -> xs !! i = Some x.
Proof.
  intros H. apply find_tagged_Some in H as [H _].
  apply In_tag_lookup in H as [_ H]. now rewrite Nat.sub_0_r in H.
Qed.

Lemma untag_tag_from (xs : list A) (k : nat) :
  untag (combine (seq k (List.length xs)) xs) = xs.
Proof.
  revert k. induction xs as [|x xs IH]; intros k; simpl; [reflexivity |].
  now rewrite IH.
Qed.

Lemma untag_tag (xs : list A) : untag (tag xs) = xs.
Proof. apply untag_tag_from. Qed.

Lemma forallb_untag (q : A -> bool) (l : list (nat * A)) :
  (forall e, In e l -> q (snd e) = true) -> forallb q (untag l) = true.
Proof.
  intros H. apply forallb_forall. intros x Hx.
  apply in_map_iff in Hx as (e & <- & He). now apply H.
Qed.

Lemma filter_true (q : A -> bool) (xs : list A) :
  (forall x, In x xs -> q x = true) -> List.filter q xs = xs.
Proof.
  intros H. apply filter_all. now apply forallb_forall.
Qed.

End TaggedLists.

(** ** Single-item deletion: results *)

Section SingleItemFacts.

Variable URL_pathname : string -> option string.

(** For a non-empty identifier, [find] and the not-found filter test the
    same thing. *)
Lemma locates_partial_match (id : string) (p : Image) :
  nonempty id = true -> locates id p = partial_match id p.
Proof.
  intros Hid. unfold locates, partial_match. f_equal.
  destruct (public_id p) as [k|]; simpl; [| reflexivity].
  destruct (k =? id)%string eqn:E; [| apply andb_false_r].
  apply String.eqb_eq in E as ->. unfold nonempty in Hid. now rewrite Hid.
Qed.

Lemma drop_same_url_In (i : nat) (found : Image) (xs : list (nat * Image))
    (e : nat * Image) :
  In e (drop_same_url i found xs) -> In e xs.
Proof.
  unfold drop_same_url. destruct (existsb _ xs); [| trivial].
  intros H. now apply filter_In in H.
Qed.

(** The element found is not among the entries kept, so the URL fallback
    of the two handlers never runs. *)
Lemma drop_same_url_kept_photos (i : nat) (photo : Image) (xs : list Image) :
  drop_same_url i photo (kept_photos i photo xs) = kept_photos i photo xs.
Proof.
  unfold drop_same_url.
  destruct (existsb _ (kept_photos i photo xs)) eqn:E; [| reflexivity].
  apply existsb_exists in E as (e & He & Hi).
  apply filter_In in He as [_ He]. apply andb_prop in He as [_ He].
  now rewrite Hi in He.
Qed.

Lemma drop_same_url_kept_partners (i : nat) (partner : Image) (xs : list Image) :
  drop_same_url i partner (kept_partners i partner xs) = kept_partners i partner xs.
Proof.
  unfold drop_same_url.
  destruct (existsb _ (kept_partners i partner xs)) eqn:E; [| reflexivity].
  apply existsb_exists in E as (e & He & Hi).
  apply filter_In in He as [_ He]. apply andb_prop in He as [He _].
  now rewrite Hi in He.
Qed.

Lemma set_photos_same (doc : Content) : set_photos doc (photos doc) = doc.
Proof. now destruct doc. Qed.

Lemma set_partners_same (doc : Content) : set_partners doc (partners doc) = doc.
Proof. now destruct doc. Qed.

(** With no entry located and a non-empty identifier, the not-found
    filter keeps every entry. *)
Lemma partial_match_filter_same (id : string) (xs : list Image) :
  nonempty id = true ->
  find_tagged (locates id) xs = None ->
  List.filter (fun p => negb (partial_match id p)) xs = xs.
Proof.
  intros Hid Hfind. apply find_tagged_None in Hfind.
  apply filter_true. intros x Hx.
  rewrite <- (locates_partial_match id x Hid).
  now apply (proj1 (forallb_forall _ xs) Hfind).
Qed.

End SingleItemFacts.

Section SingleItemTheorems.

Variable URL_pathname : string -> option string.

(** C8.  Not-found policy of the photo and partner handlers: when [find]
    locates no entry, the handler filters out every entry whose
    [public_id] equals the identifier or whose URL contains it, saves the
    record, sends nothing to the remote store and answers 404. *)
Theorem not_found_cleanup_persisted (env : Env) (w : World) (y : Z) (id : string)
    (doc : Content) :
  db_up env -> db w !! y = Some doc -> year doc = y ->
  (forallb (fun p => negb (locates id p)) (photos doc) = true ->
   exists w',
     deletePhoto URL_pathname (Some y) id env w =
       (Normal {| status := 404;
                  body := JsonMessage
                    "Photo not found in DB; attempted to remove any partial matches" |},
        w') /\
     db w' = <[y := set_photos doc
                 (List.filter (fun p => negb (partial_match id p)) (photos doc))]> (db w) /\
     destroy_log w' = destroy_log w) /\
  (forallb (fun p => negb (locates id p)) (partners doc) = true ->
   exists w',
     deletePartner URL_pathname (Some y) id env w =
       (Normal {| status := 404;
                  body := JsonMessage
                    "Partner not found in DB; attempted to remove any partial matches" |},
        w') /\
     db w' = <[y := set_partners doc
                 (List.filter (fun p => negb (partial_match id p)) (partners doc))]> (db w) /\
     destroy_log w' = destroy_log w).
Proof.
  intros Hup Hdoc Hy. split; intros Hnone; apply find_tagged_None in Hnone.
  - rewrite (deletePhoto_not_found_run URL_pathname env w y id doc Hup Hdoc Hnone).
    eexists. split; [reflexivity |]. simpl. rewrite Hy, app_nil_r. now split.
  - rewrite (deletePartner_not_found_run URL_pathname env w y id doc Hup Hdoc Hnone).
    eexists. split; [reflexivity |]. simpl. rewrite Hy, app_nil_r. now split.
Qed.

(** C10.  For a non-empty identifier the predicate of [find] and the
    predicate of the not-found filter coincide, so a 404 from the photo
    or the partner handler leaves the collection as it was. *)
Theorem not_found_leaves_collection (id : string) :
  nonempty id = true ->
  (forall p, locates id p = partial_match id p) /\
  (forall env w year r w',
     db_wf (db w) ->
     deletePhoto URL_pathname year id env w = (Normal r, w') ->
     status r = 404 -> db w' = db w) /\
  (forall env w year r w',
     db_wf (db w) ->
     deletePartner URL_pathname year id env w = (Normal r, w') ->
     status r = 404 -> db w' = db w).
Proof.
  intros Hid. split; [intros p; now apply locates_partial_match |].
  split; intros env w year r w' Hwf Hrun Hst.
  - unfold deletePhoto, try_catchM, mbind, Content_findOne, save in Hrun.
    destruct year as [y|]; [| injection Hrun as <- <-; discriminate].
    destruct (db_fails env (db_ops w));
      [injection Hrun as <- <-; discriminate |].
    destruct (db w !! y) as [doc|] eqn:Hdoc;
      [| injection Hrun as <- <-; reflexivity].
    destruct (find_tagged (locates id) (photos doc)) as [[i photo]|] eqn:Hfind.
    + rewrite destroy_candidate_run, try_destroy_run in Hrun. simpl in Hrun.
      destruct (db_fails env (S (db_ops w)));
        injection Hrun as <- <-; discriminate.
    + simpl in Hrun. destruct (db_fails env (S (db_ops w)));
        [injection Hrun as <- <-; discriminate |].
      injection Hrun as <- <-. simpl.
      rewrite (partial_match_filter_same id _ Hid Hfind), set_photos_same.
      apply insert_id. now rewrite (Hwf y doc Hdoc).
  - unfold deletePartner, try_catchM, mbind, Content_findOne, save in Hrun.
    destruct year as [y|]; [| injection Hrun as <- <-; discriminate].
    destruct (db_fails env (db_ops w));
      [injection Hrun as <- <-; discriminate |].
    destruct (db w !! y) as [doc|] eqn:Hdoc;
      [| injection Hrun as <- <-; reflexivity].
    destruct (find_tagged (locates id) (partners doc)) as [[i partner]|] eqn:Hfind.
    + rewrite destroy_candidate_run, try_destroy_run in Hrun. simpl in Hrun.
      destruct (db_fails env (S (db_ops w)));
        injection Hrun as <- <-; discriminate.
    + simpl in Hrun. destruct (db_fails env (S (db_ops w)));
        [injection Hrun as <- <-; discriminate |].
      injection Hrun as <- <-. simpl.
      rewrite (partial_match_filter_same id _ Hid Hfind), set_partners_same.
      apply insert_id. now rewrite (Hwf y doc Hdoc).
Qed.

Lemma locates_partial (id : string) (p : Image) :
  locates id p = true -> partial_match id p = true.
Proof.
  unfold locates, partial_match. intros H.
  apply orb_prop in H as [H | H]; [| rewrite H; apply orb_true_r].
  apply andb_prop in H as [_ H]. now rewrite H.
Qed.

(** Entries none of which the not-found filter would drop: [find]
    locates none of them, and the filter keeps them all. *)
Lemma no_partial_match (id : string) (xs : list Image) :
  forallb (fun p => negb (partial_match id p)) xs = true ->
  find_tagged (locates id) xs = None /\
  List.filter (fun p => negb (partial_match id p)) xs = xs.
Proof.
  intros H. split; [| now apply filter_all].
  apply find_tagged_None, forallb_forall. intros p Hp.
  pose proof (proj1 (forallb_forall _ _) H p Hp) as Hn. cbv beta in Hn.
  destruct (locates id p) eqn:Hl; [| reflexivity].
  now rewrite (locates_partial id p Hl) in Hn.
Qed.

Lemma forallb_filter_same {A} (q : A -> bool) (xs : list A) :
  forallb q (List.filter q xs) = true.
Proof.
  apply forallb_forall. intros x Hx. now apply filter_In in Hx.
Qed.

Lemma kept_photos_unmatched (id : string) (xs : list Image) (i : nat) (photo : Image) :
  one_call_clears id xs ->
  find_tagged (locates id) xs = Some (i, photo) ->
  forallb (fun p => negb (partial_match id p)) (untag (kept_photos i photo xs)) = true.
Proof.
  intros Hclear Hfind. apply forallb_untag.
  intros e He. apply filter_In in He as [Hin Hkeep].
  pose proof (proj1 (forallb_forall _ _) (Hclear _ Hfind) e Hin) as Himp.
  cbv beta in Himp.
  destruct (partial_match id (snd e)) eqn:Hl; [| reflexivity].
  unfold removed_with in Himp. simpl in Himp.
  apply andb_prop in Hkeep as [Hpid Hidx].
  apply negb_true_iff in Hidx. rewrite Hidx in Himp. simpl in Himp.
  rewrite andb_comm, Himp in Hpid. discriminate.
Qed.

(** C5 (amended).  With the document store available, when every photo
    whose [public_id] equals the identifier or whose URL contains it is
    the first entry [find] locates or shares that entry's non-empty
    [public_id] (as when at most one entry matches), a second delete-photo
    call on the record left by the first answers 404 and leaves the
    record unchanged. *)
Theorem deletePhoto_twice (env : Env) (w : World) (y : Z) (id : string) :
  db_up env -> db_wf (db w) ->
  (forall doc, db w !! y = Some doc -> one_call_clears id (photos doc)) ->
  forall r1 w1 r2 w2,
    deletePhoto URL_pathname (Some y) id env w = (r1, w1) ->
    deletePhoto URL_pathname (Some y) id env w1 = (r2, w2) ->
    (exists b, r2 = Normal {| status := 404; body := b |}) /\ db w2 = db w1.
Proof.
  intros Hup Hwf Hclear r1 w1 r2 w2 H1 H2.
  assert (Hnf : forall w' doc',
            db w' !! y = Some doc' -> year doc' = y ->
            forallb (fun p => negb (partial_match id p)) (photos doc') = true ->
            deletePhoto URL_pathname (Some y) id env w' = (r2, w2) ->
            (exists b, r2 = Normal {| status := 404; body := b |}) /\ db w2 = db w').
  { intros w' doc' Hdoc' Hy' Hnone Hrun.
    destruct (no_partial_match id _ Hnone) as [Hfind Hsame].
    rewrite (deletePhoto_not_found_run URL_pathname env w' y id doc' Hup Hdoc' Hfind)
      in Hrun.
    injection Hrun as <- <-. split; [now eexists |]. simpl.
    rewrite Hsame, set_photos_same.
    apply insert_id. now rewrite Hy'. }
  destruct (db w !! y) as [doc|] eqn:Hdoc.
  - pose proof (Hwf y doc Hdoc) as Hy.
    destruct (find_tagged (locates id) (photos doc)) as [[i photo]|] eqn:Hfind.
    + rewrite (deletePhoto_found_run URL_pathname env w y id doc i photo Hup Hdoc Hfind)
        in H1.
      injection H1 as <- <-.
      rewrite drop_same_url_kept_photos in H2 |- *.
      eapply Hnf; [| | | exact H2].
      * simpl. rewrite Hy. apply lookup_insert_eq.
      * exact Hy.
      * simpl. apply kept_photos_unmatched; [now apply Hclear | exact Hfind].
    + rewrite (deletePhoto_not_found_run URL_pathname env w y id doc Hup Hdoc Hfind)
        in H1.
      injection H1 as <- <-.
      eapply Hnf; [| | | exact H2].
      * simpl. rewrite Hy. apply lookup_insert_eq.
      * exact Hy.
      * simpl. apply forallb_filter_same.
  - rewrite (deletePhoto_no_record_run URL_pathname env w y id Hup Hdoc) in H1.
    injection H1 as <- <-.
    rewrite (deletePhoto_no_record_run URL_pathname env (count_db_op w) y id Hup Hdoc)
      in H2.
    injection H2 as <- <-. split; [now eexists | reflexivity].
Qed.

End SingleItemTheorems.

(** ** The award handlers: running them *)

Section AwardFacts.

Variable URL_pathname : string -> option string.

Lemma log_more_nil (w : World) : log_more w [] = w.
Proof. destruct w. unfold log_more. simpl. now rewrite app_nil_r. Qed.

Lemma log_more_app (w : World) (a b : list string) :
  log_more (log_more w a) b = log_more w (a ++ b).
Proof. unfold log_more. simpl. now rewrite app_assoc. Qed.

Lemma try_destroy_log (env : Env) (w : World) (key : string) :
  try_destroy key env w = (Normal tt, log_more w [key]).
Proof. apply try_destroy_run. Qed.

Lemma destroy_untried_run (env : Env) (w : World) (tried cs : list string) :
  destroy_untried tried cs env w = (Normal tt, log_more w (untried tried cs)).
Proof.
  revert tried w. induction cs as [|c cs IH]; intros tried w; simpl.
  - now rewrite log_more_nil.
  - destruct (negb (nonempty c) || mem_string c tried); [apply IH |].
    unfold mbind. rewrite try_destroy_log, IH, log_more_app. reflexivity.
Qed.

Lemma destroy_each_run (env : Env) (w : World) (cs : list string) :
  destroy_each cs env w = (Normal tt, log_more w (List.filter nonempty cs)).
Proof.
  revert w. induction cs as [|c cs IH]; intros w; simpl.
  - now rewrite log_more_nil.
  - destruct (nonempty c); simpl; [| apply IH].
    unfold mbind. rewrite try_destroy_log, IH, log_more_app. reflexivity.
Qed.

Lemma destroy_people_run (env : Env) (w : World) (people : list Person) :
  destroy_people URL_pathname people env w =
  (Normal tt, log_more w (category_requests URL_pathname people)).
Proof.
  revert w. induction people as [|p people IH]; intros w; simpl.
  - now rewrite log_more_nil.
  - destruct (photo p) as [ph|]; [| apply IH].
    unfold mbind. rewrite destroy_each_run, IH, log_more_app. reflexivity.
Qed.

Lemma deleteAwardPhoto_run (env : Env) (w : World) (y : Z) (category role : string)
    (doc : Content) (r : Role) (ci : nat) (cat : AwardCategory) (person : Person) :
  db_up env -> db w !! y = Some doc ->
  nonempty category = true -> role_of_string role = Some r ->
  find_tagged (has_category category) (awards doc) = Some (ci, cat) ->
  get_slot cat r = Some person ->
  deleteAwardPhoto URL_pathname (Some y) category role env w =
  (Normal {| status := 200;
             body := JsonDoc (award_photo_cleared doc ci cat r person) |},
   world_after w (award_photo_cleared doc ci cat r person)
     (slot_requests URL_pathname person)).
Proof.
  intros Hup Hdoc Hcat Hrole Hfind Hslot.
  unfold deleteAwardPhoto, try_catchM, mbind.
  rewrite Hcat, Hrole. change (negb true) with false. cbv beta iota.
  rewrite (findOne_run env w y Hup), Hdoc, Hfind, Hslot.
  unfold award_photo_cleared, slot_requests.
  destruct (photo person) as [ph|].
  - destruct (truthy (photo_public_id ph) || truthy (photo_filename ph) ||
              truthy (photo_url ph)).
    + rewrite destroy_untried_run, save_run by exact Hup. reflexivity.
    + unfold ret at 1. rewrite save_run by exact Hup.
      unfold world_after. simpl. now rewrite app_nil_r.
  - unfold ret at 1. rewrite save_run by exact Hup.
    unfold world_after. simpl. now rewrite app_nil_r.
Qed.

Lemma deleteAwardCategory_run (env : Env) (w : World) (y : Z) (category : string)
    (doc : Content) (ci : nat) (cat : AwardCategory) :
  db_up env -> db w !! y = Some doc ->
  nonempty category = true ->
  find_tagged (has_category category) (awards doc) = Some (ci, cat) ->
  deleteAwardCategory URL_pathname (Some y) category env w =
  (Normal {| status := 200; body := JsonDoc (category_removed doc category cat) |},
   world_after w (category_removed doc category cat)
     (category_requests URL_pathname (people_of cat))).
Proof.
  intros Hup Hdoc Hcat Hfind.
  unfold deleteAwardCategory, try_catchM, mbind.
  rewrite Hcat. change (negb true) with false. cbv beta iota.
  rewrite (findOne_run env w y Hup), Hdoc, Hfind, destroy_people_run.
  unfold category_removed.
  destruct (photoUrlsOrIds (people_of cat)); rewrite save_run by exact Hup;
    reflexivity.
Qed.

End AwardFacts.

(** ** The award handlers: results *)

Section AwardTheorems.

Variable URL_pathname : string -> option string.

Lemma awards_award_photo_cleared (doc : Content) (ci : nat) (cat : AwardCategory)
    (r : Role) (person : Person) :
  awards (award_photo_cleared doc ci cat r person) =
  <[ci := set_slot cat r (Some (without_photo person))]> (awards doc).
Proof. unfold award_photo_cleared. now destruct (photo person). Qed.

Lemma year_award_photo_cleared (doc : Content) (ci : nat) (cat : AwardCategory)
    (r : Role) (person : Person) :
  year (award_photo_cleared doc ci cat r person) = year doc.
Proof. unfold award_photo_cleared. now destruct (photo person). Qed.

Lemma get_set_slot (cat : AwardCategory) (r : Role) (p : option Person) :
  get_slot (set_slot cat r p) r = p.
Proof. now destruct r. Qed.

Lemma get_set_slot_other (cat : AwardCategory) (r r' : Role) (p : option Person) :
  r' <> r -> get_slot (set_slot cat r p) r' = get_slot cat r'.
Proof. destruct r, r'; intros H; try reflexivity; now contradiction H. Qed.

Lemma category_set_slot (cat : AwardCategory) (r : Role) (p : option Person) :
  category (set_slot cat r p) = category cat.
Proof. now destruct r. Qed.

Lemma set_slot_same (cat : AwardCategory) (r : Role) (p : Person) :
  get_slot cat r = Some p -> set_slot cat r (Some p) = cat.
Proof. destruct cat, r; simpl; now intros ->. Qed.

(** The record the award-photo handler saves has the awards it read:
    the slot is assigned the person it held. *)
Lemma award_photo_cleared_awards (doc : Content) (ci : nat) (cat : AwardCategory)
    (r : Role) (person : Person) :
  awards doc !! ci = Some cat -> get_slot cat r = Some person ->
  awards (award_photo_cleared doc ci cat r person) = awards doc.
Proof.
  intros Hci Hslot. rewrite awards_award_photo_cleared.
  unfold without_photo. rewrite (set_slot_same cat r person Hslot).
  now apply list_insert_id.
Qed.

(** C6.  The claim fails on the code.  On a record whose winner of
    "Best Actor" has an uploaded photo, the award-photo route answers
    200 and asks the remote store to delete the photo's key, and the
    record it stores still carries the photo on the winner's slot: the
    awards are the awards it read. *)
Theorem deleteAwardPhoto_leaves_photo :
  exists doc' w',
    deleteAwardPhoto PlainURL.plain_URL_pathname (Some 2024%Z) "Best Actor" "winner"
      remote_ok (world_of prizes_2024) =
      (Normal {| status := 200; body := JsonDoc doc' |}, w') /\
    db w' !! 2024%Z = Some doc' /\
    destroy_log w' = ["events/awards/g"] /\
    awards doc' = [best_actor] /\
    get_slot best_actor Winner = Some grace /\
    photo grace =
      Some {| photo_url :=
                Some "https://res.cloudinary.com/demo/image/upload/v1/events/awards/g.jpg";
              photo_public_id := Some "events/awards/g";
              photo_filename := None |}.
Proof.
  eexists _, _. split; [vm_compute; reflexivity |].
  split; [vm_compute; reflexivity |].
  split; [reflexivity |].
  split; [| split; reflexivity].
  apply (award_photo_cleared_awards prizes_2024 0 best_actor Winner grace);
    reflexivity.
Qed.





End AwardTheorems.

(** ** Remote failures *)

Section RemoteFailures.

Variable URL_pathname : string -> option string.

























End RemoteFailures.

(** ** Closed examples for the deletion handlers *)

Lemma world_of_wf (doc : Content) : db_wf (db (world_of doc)).
Proof.
  intros y d H. simpl in H. apply lookup_singleton_Some in H as [<- <-]. reflexivity.
Qed.

Lemma world_of_lookup (doc : Content) : db (world_of doc) !! year doc = Some doc.
Proof. apply lookup_singleton_eq. Qed.

Lemma remote_down_db_up : db_up remote_down.
Proof. intros n. reflexivity. Qed.

Lemma deletePhoto_twice_witness :
  (exists b,
     fst (deletePhoto PlainURL.plain_URL_pathname (Some 2024%Z) "x/a" remote_down
            (snd (deletePhoto PlainURL.plain_URL_pathname (Some 2024%Z) "x/a"
                    remote_down (world_of gallery_2024)))) =
     Normal {| status := 404; body := b |}) /\
  db (snd (deletePhoto PlainURL.plain_URL_pathname (Some 2024%Z) "x/a" remote_down
             (snd (deletePhoto PlainURL.plain_URL_pathname (Some 2024%Z) "x/a"
                     remote_down (world_of gallery_2024))))) =
  db (snd (deletePhoto PlainURL.plain_URL_pathname (Some 2024%Z) "x/a" remote_down
             (world_of gallery_2024))).
Proof.
  refine (deletePhoto_twice PlainURL.plain_URL_pathname remote_down
            (world_of gallery_2024) 2024%Z "x/a" remote_down_db_up
            (world_of_wf gallery_2024) _
            (fst (deletePhoto PlainURL.plain_URL_pathname (Some 2024%Z) "x/a"
                    remote_down (world_of gallery_2024)))
            _ _ _ _ _).
  - intros doc Hdoc. simpl in Hdoc.
    apply lookup_singleton_Some in Hdoc as [_ <-].
    intros found Hfound. vm_compute in Hfound. injection Hfound as <-.
    vm_compute. reflexivity.
  - apply surjective_pairing.
  - apply surjective_pairing.
Defined.

(** C5, as stated, fails when a second entry matches the identifier: the
    first call removes [events/photos/17-pic]; the second call, with the
    same identifier, locates [events/photos/17-pic2] through its URL,
    answers 200 and removes it too. *)
Lemma deletePhoto_twice_removes_another :
  fst (deletePhoto PlainURL.plain_URL_pathname (Some 2024%Z) "events/photos/17-pic"
         remote_down
         (snd (deletePhoto PlainURL.plain_URL_pathname (Some 2024%Z)
                 "events/photos/17-pic" remote_down (world_of batch_2024)))) =
  Normal {| status := 200;
            body := JsonDoc {| year := 2024; videoLink := None; photos := [];
                               awards := []; partners := [] |} |} /\
  option_map photos
    (db (snd (deletePhoto PlainURL.plain_URL_pathname (Some 2024%Z)
                "events/photos/17-pic" remote_down (world_of batch_2024))) !! 2024%Z) =
  Some [uploaded
          "https://res.cloudinary.com/demo/image/upload/v1712345678/events/photos/17-pic2.jpg"
          "events/photos/17-pic2"] /\
  option_map photos
    (db (snd (deletePhoto PlainURL.plain_URL_pathname (Some 2024%Z)
                "events/photos/17-pic" remote_down
                (snd (deletePhoto PlainURL.plain_URL_pathname (Some 2024%Z)
                        "events/photos/17-pic" remote_down (world_of batch_2024)))))
       !! 2024%Z) =
  Some [].
Proof. split; [| split]; vm_compute; reflexivity. Qed.

Lemma not_found_cleanup_persisted_witness :
  exists w',
    deletePhoto PlainURL.plain_URL_pathname (Some 2024%Z) "x/b" remote_down
      (world_of gallery_2024) =
    (Normal {| status := 404;
               body := JsonMessage
                 "Photo not found in DB; attempted to remove any partial matches" |},
     w') /\
    db w' !! 2024%Z = Some gallery_2024.
Proof.
  destruct (proj1 (not_found_cleanup_persisted PlainURL.plain_URL_pathname remote_down
                     (world_of gallery_2024) 2024%Z "x/b" gallery_2024
                     remote_down_db_up (world_of_lookup gallery_2024) eq_refl)
              eq_refl) as (w' & Hrun & Hdb & _).
  exists w'. split; [exact Hrun |].
  rewrite Hdb. apply lookup_insert_eq.
Defined.

Lemma not_found_leaves_collection_witness :
  db (snd (deletePhoto PlainURL.plain_URL_pathname (Some 2024%Z) "x/b" remote_down
             (world_of gallery_2024))) =
  db (world_of gallery_2024).
Proof.
  apply (proj1 (proj2 (not_found_leaves_collection PlainURL.plain_URL_pathname
                         "x/b" eq_refl))
           remote_down (world_of gallery_2024) (Some 2024%Z)
           {| status := 404;
              body := JsonMessage
                "Photo not found in DB; attempted to remove any partial matches" |}).
  - apply world_of_wf.
  - vm_compute. reflexivity.
  - reflexivity.
Defined.




(** * Further results *)

(** ** The gate accepts nothing but credentials *)

Section GateSoundness.

Variable jwt_verify : option string -> Completion JwtPayload.
Variable AdminUser_findById : string -> Completion (option AdminUser).
Variable ADMIN_KEY : option string.

(** A user comes out of [verifyJwtToken] only for a token that
    resolves. *)
Lemma verifyJwtToken_Some (token : option string) (user : AdminUser) :
  verifyJwtToken jwt_verify AdminUser_findById token = Normal (Some user) ->
  TokenResolves jwt_verify AdminUser_findById token user.
Proof.
  unfold verifyJwtToken.
  destruct (jwt_verify token) as [decoded|e] eqn:Hv; simpl; [| discriminate].
  destruct (jwt_id decoded) as [id|] eqn:Hid; [| discriminate].
  destruct (nonempty id) eqn:Hne; simpl; [| discriminate].
  destruct (AdminUser_findById id) as [[u|]|e] eqn:Hf; simpl; try discriminate.
  intros H. injection H as <-. now apply (token_resolves _ _ _ _ decoded id).
Qed.

Lemma bearer_user_Some (req : Request) (user : AdminUser) :
  bearer_user jwt_verify AdminUser_findById req = Normal (Some user) ->
  exists authHeader,
    authorization req = Some authHeader /\
    startsWith "bearer " (toLowerCase authHeader) = true /\
    TokenResolves jwt_verify AdminUser_findById
      (nth_error (split " " authHeader) 1) user.
Proof.
  unfold bearer_user. destruct (authorization req) as [h|]; [| discriminate].
  destruct (nonempty h); simpl; [| discriminate].
  destruct (startsWith "bearer " (toLowerCase h)) eqn:Hb; [| discriminate].
  intros H. exists h. split; [reflexivity |]. split; [exact Hb |].
  now apply verifyJwtToken_Some.
Qed.

Lemma bearer_user_normal (req : Request) :
  exists r, bearer_user jwt_verify AdminUser_findById req = Normal r.
Proof.
  unfold bearer_user. destruct (authorization req) as [h|]; [| now eexists].
  destruct (nonempty h && startsWith "bearer " (toLowerCase h)); [| now eexists].
  apply verifyJwtToken_normal.
Qed.

(** The gate answers 401, or calls [next()] for a request that presents
    credentials. *)
Lemma authMiddleware_cases (req : Request) :
  authMiddleware jwt_verify AdminUser_findById ADMIN_KEY req =
    Normal (Respond 401 "Unauthorized") \/
  exists p,
    authMiddleware jwt_verify AdminUser_findById ADMIN_KEY req = Normal (Next p) /\
    presents_credentials jwt_verify AdminUser_findById ADMIN_KEY req p.
Proof.
  unfold authMiddleware.
  destruct (bearer_user_normal req) as [[user|] Hb]; rewrite Hb; simpl.
  - right. exists (Account user). split; [reflexivity |]. left.
    destruct (bearer_user_Some req user Hb) as (h & Hh & Hs & Hr).
    now exists h, user.
  - destruct (truthy (x_admin_key req) && strict_eq_opt (x_admin_key req) ADMIN_KEY)
      eqn:Hk; [| now left].
    right. exists (Pseudo "x-admin-key" "admin"). split; [reflexivity |]. right.
    apply andb_prop in Hk as [Ht He].
    destruct (x_admin_key req) as [k|]; [| discriminate].
    destruct ADMIN_KEY as [k'|]; [| discriminate].
    simpl in He. apply String.eqb_eq in He as <-.
    exists k. now repeat split.
Qed.

(** X1.  The gate calls [next()] with an account only for a Bearer
    header whose token resolves to that account, and with the
    pseudo-user only for a non-empty [x-admin-key] equal to a set
    [ADMIN_KEY]; no other principal ever reaches a handler. *)
Theorem authMiddleware_sound (req : Request) (p : Principal) :
  authMiddleware jwt_verify AdminUser_findById ADMIN_KEY req = Normal (Next p) ->
  presents_credentials jwt_verify AdminUser_findById ADMIN_KEY req p.
Proof.
  intros H. destruct (authMiddleware_cases req) as [H401 | (q & Hq & Hp)].
  - rewrite H in H401. discriminate.
  - rewrite H in Hq. now injection Hq as ->.
Qed.

(** X2.  Whatever route stands behind the gate, a request either
    presents credentials, and the response and the state are the
    handler's, or it is answered 401 and neither the database nor the
    remote store is touched. *)
Theorem behind_gate_outcomes (req : Request) (handler : M Response)
    (env : Env) (w : World) :
  behind_gate jwt_verify AdminUser_findById ADMIN_KEY req handler env w =
    (Normal {| status := 401; body := JsonMessage "Unauthorized" |}, w) \/
  exists p,
    presents_credentials jwt_verify AdminUser_findById ADMIN_KEY req p /\
    behind_gate jwt_verify AdminUser_findById ADMIN_KEY req handler env w =
      handler env w.
Proof.
  unfold behind_gate.
  destruct (authMiddleware_cases req) as [-> | (p & -> & Hp)]; [now left |].
  right. now exists p.
Qed.


End GateSoundness.

Lemma authMiddleware_sound_witness :
  presents_credentials demo_jwt_verify demo_findById (Some "s3cret")
    {| authorization := Some "Bearer header.payload.signature";
       x_admin_key := None |} (Account demo_admin).
Proof.
  apply (authMiddleware_sound demo_jwt_verify demo_findById (Some "s3cret")
           {| authorization := Some "Bearer header.payload.signature";
              x_admin_key := None |} (Account demo_admin)).
  reflexivity.
Defined.


(** ** The video link normaliser *)

Section VideoLinkFacts.

Variable URL_parse : string -> option ParsedURL.

Lemma is_bare_id_nonempty (id : string) : is_bare_id id = true -> nonempty id = true.
Proof.
  unfold is_bare_id. intros H. apply andb_prop in H as [_ H].
  destruct id; [discriminate | reflexivity].
Qed.

(** What the [try] block returns once the URL has parsed. *)
Lemma toYouTubeEmbed_parsed (url : BodyField) (u : ParsedURL) :
  exists r,
    (if includes "youtu.be" (hostname u) then
       let id := slice1 (path u) in
       if negb (nonempty id) then Normal url
       else Normal (FieldString (embed_link id))
     else if includes "youtube.com" (hostname u) then
       if startsWith "/embed/" (path u) then Normal url
       else if truthy (search_v u)
       then Normal (FieldString (embed_link (match search_v u with
                                             | Some vid => vid
                                             | None => ""
                                             end)))
       else
         let parts := filter_Boolean (split "/" (path u)) in
         let possible := pop parts in
         if truthy possible
         then Normal (FieldString (embed_link (match possible with
                                               | Some p => p
                                               | None => ""
                                               end)))
         else Normal url
     else Normal url) = Normal r /\
    embed_or_same url r.
Proof.
  unfold embed_or_same. cbv zeta.
  destruct (includes "youtu.be" (hostname u)).
  - destruct (nonempty (slice1 (path u))) eqn:Hid; simpl;
      eexists; (split; [reflexivity |]); [right | now left].
    now exists (slice1 (path u)).
  - destruct (includes "youtube.com" (hostname u));
      [| eexists; split; [reflexivity | now left]].
    destruct (startsWith "/embed/" (path u));
      [eexists; split; [reflexivity | now left] |].
    destruct (search_v u) as [v|]; simpl.
    + destruct (v =? "")%string eqn:Hv; simpl.
      * destruct (pop (filter_Boolean (split "/" (path u)))) as [p|] eqn:Hp; simpl;
          [| eexists; split; [reflexivity | now left]].
        destruct (p =? "")%string eqn:Hpe; simpl;
          eexists; (split; [reflexivity |]); [now left | right].
        exists p. unfold nonempty. now rewrite Hpe.
      * eexists; split; [reflexivity | right].
        exists v. unfold nonempty. now rewrite Hv.
    + destruct (pop (filter_Boolean (split "/" (path u)))) as [p|] eqn:Hp; simpl;
        [| eexists; split; [reflexivity | now left]].
      destruct (p =? "")%string eqn:Hpe; simpl;
        eexists; (split; [reflexivity |]); [now left | right].
      exists p. unfold nonempty. now rewrite Hpe.
Qed.

(** [toYouTubeEmbed] on any field of a request body: it returns, and
    then as [embed_or_same] says, or it throws the [TypeError] of
    [url.trim()], and then for a truthy value that is not a string and
    that the URL parser refuses. *)
Lemma toYouTubeEmbed_cases (url : BodyField) :
  (exists r, toYouTubeEmbed URL_parse url = Normal r /\ embed_or_same url r) \/
  (toYouTubeEmbed URL_parse url = Throw trim_TypeError /\
   exists text, url = FieldOther true text /\ URL_parse text = None).
Proof.
  unfold toYouTubeEmbed.
  destruct (field_truthy url) eqn:Ht; cbn [negb];
    [| left; eexists; split; [reflexivity | now left]].
  destruct (URL_parse (field_text url)) as [u|] eqn:Hparse.
  - left. cbn [bind]. destruct (toYouTubeEmbed_parsed url u) as (r & Hr & Hshape).
    exists r. cbv zeta in Hr |- *. rewrite Hr. now split.
  - cbn [bind try_catch]. destruct url as [|s|t text].
    + discriminate Ht.
    + left. destruct (is_bare_id (trim s)) eqn:Hb;
        eexists; (split; [reflexivity |]); [right | now left].
      exists (trim s). split; [now apply is_bare_id_nonempty | reflexivity].
    + right. split; [reflexivity |]. simpl in Ht, Hparse. subst t. now exists text.
Qed.

(** X4.  [toYouTubeEmbed] on a field of the request body.  For a
    string, and for an absent or falsy value, it never throws, and its
    result is its argument, untouched, or an embed link with a non-empty
    video id.  For any value, when it returns the result has that shape;
    and it throws only the [TypeError] of [url.trim()], which happens
    exactly for a truthy value that is not a string and that the URL
    parser refuses. *)
Theorem toYouTubeEmbed_shape (url : BodyField) :
  (forall r, toYouTubeEmbed URL_parse url = Normal r -> embed_or_same url r) /\
  (forall e, toYouTubeEmbed URL_parse url = Throw e <->
             e = trim_TypeError /\
             exists text, url = FieldOther true text /\ URL_parse text = None) /\
  (forall s, exists r, toYouTubeEmbed URL_parse (FieldString s) = Normal r) /\
  (field_truthy url = false -> toYouTubeEmbed URL_parse url = Normal url).
Proof.
  split; [| split; [| split]].
  - intros r Hr. destruct (toYouTubeEmbed_cases url) as [(r' & Hr' & Hs) | [Ht _]].
    + rewrite Hr in Hr'. now injection Hr' as <-.
    + rewrite Hr in Ht. discriminate.
  - intros e. destruct (toYouTubeEmbed_cases url) as [(r' & Hr' & Hs) | [Ht Hx]].
    + rewrite Hr'. split; [discriminate |].
      intros (_ & text & -> & Hparse). exfalso.
      unfold toYouTubeEmbed in Hr'. simpl in Hr'. rewrite Hparse in Hr'.
      discriminate.
    + rewrite Ht. split.
      * intros H. injection H as <-. now split.
      * now intros [-> _].
  - intros s. destruct (toYouTubeEmbed_cases (FieldString s))
      as [(r & Hr & _) | (_ & text & Hx & _)]; [now exists r | discriminate].
  - intros Ht. unfold toYouTubeEmbed. now rewrite Ht.
Qed.

Lemma trimStart_spaces (pre s : string) :
  all_chars is_space pre = true -> trimStart (pre +++ s) = trimStart s.
Proof.
  induction pre as [|c pre IH]; simpl; [reflexivity |].
  intros H. apply andb_prop in H as [Hc H]. rewrite Hc. now apply IH.
Qed.

Lemma trimEnd_spaces (post : string) :
  all_chars is_space post = true -> trimEnd post = "".
Proof.
  induction post as [|c post IH]; simpl; [reflexivity |].
  intros H. apply andb_prop in H as [Hc H]. now rewrite (IH H), Hc.
Qed.

Lemma trimEnd_solid (s post : string) :
  all_chars (fun c => negb (is_space c)) s = true ->
  all_chars is_space post = true ->
  trimEnd (s +++ post) = s.
Proof.
  intros Hs Hpost. induction s as [|c s IH]; simpl.
  - now apply trimEnd_spaces.
  - simpl in Hs. apply andb_prop in Hs as [Hc Hs]. rewrite (IH Hs).
    destruct s; [| reflexivity].
    now destruct (is_space c).
Qed.

Lemma trim_padded (pre s post : string) :
  all_chars (fun c => negb (is_space c)) s = true ->
  all_chars is_space pre = true -> all_chars is_space post = true ->
  trim (pre +++ s +++ post) = s.
Proof.
  intros Hs Hpre Hpost. unfold trim. rewrite trimStart_spaces by exact Hpre.
  destruct s as [|c s].
  - simpl. clear Hs Hpre. induction post as [|d post IH]; simpl; [reflexivity |].
    simpl in Hpost. apply andb_prop in Hpost as [Hd Hpost]. rewrite Hd. now apply IH.
  - assert (Hc : is_space c = false).
    { simpl in Hs. apply andb_prop in Hs as [Hc _]. now destruct (is_space c). }
    change (String c s +++ post) with (String c (s +++ post)).
    cbn [trimStart]. rewrite Hc.
    change (String c (s +++ post)) with (String c s +++ post).
    now apply trimEnd_solid.
Qed.

Lemma bare_char_solid (c : ascii) :
  is_alnum c || (c =? "_")%char || (c =? "-")%char = true -> negb (is_space c) = true.
Proof.
  destruct c as [[] [] [] [] [] [] [] []]; vm_compute; intros H;
    first [reflexivity | discriminate].
Qed.

(** X5.  A bare video id of at least ten characters, pasted with white
    space around it, is stored as the embed link of the id itself: the
    padding never reaches the link. *)
Theorem toYouTubeEmbed_padded_id (pre id post : string) :
  is_bare_id id = true ->
  all_chars is_space pre = true -> all_chars is_space post = true ->
  URL_parse (pre +++ id +++ post) = None ->
  toYouTubeEmbed URL_parse (FieldString (pre +++ id +++ post)) =
  Normal (FieldString (embed_link id)).
Proof.
  intros Hid Hpre Hpost Hparse.
  assert (Htrim : trim (pre +++ id +++ post) = id).
  { apply trim_padded; try assumption.
    unfold is_bare_id in Hid. apply andb_prop in Hid as [Hid _].
    revert Hid. apply all_chars_impl. exact bare_char_solid. }
  assert (Hne : nonempty (pre +++ id +++ post) = true).
  { destruct (nonempty (pre +++ id +++ post)) eqn:Hn; [reflexivity |].
    apply nonempty_false in Hn. rewrite Hn in Htrim. subst id. discriminate. }
  unfold toYouTubeEmbed. cbn [field_truthy field_text]. rewrite Hne.
  cbn [negb]. rewrite Hparse. simpl. now rewrite Htrim, Hid.
Qed.

End VideoLinkFacts.

Lemma toYouTubeEmbed_padded_id_witness :
  toYouTubeEmbed PlainVideoURL.URL_parse (FieldString "  dQw4w9WgXcQ ") =
  Normal (FieldString "https://www.youtube.com/embed/dQw4w9WgXcQ").
Proof.
  apply (toYouTubeEmbed_padded_id PlainVideoURL.URL_parse "  " "dQw4w9WgXcQ" " ");
    reflexivity.
Defined.

(** ** The content routes *)

Section ContentFacts.

Lemma getOrCreate_run (env : Env) (w : World) (y : Z) :
  db_up env ->
  getOrCreateContentByYear y env w =
  match db w !! y with
  | Some doc => (Normal doc, count_db_op w)
  | None =>
      (Normal (empty_content y),
       {| db := <[y := empty_content y]> (db w);
          db_ops := S (S (db_ops w));
          destroy_log := destroy_log w |})
  end.
Proof.
  intros Hup. unfold getOrCreateContentByYear, mbind.
  rewrite (findOne_run env w y Hup).
  destruct (db w !! y) as [doc|]; [reflexivity |].
  now rewrite save_run by exact Hup.
Qed.

Lemma db_wf_insert (d : gmap Z Content) (doc : Content) :
  db_wf d -> db_wf (<[year doc := doc]> d).
Proof.
  intros Hwf y' doc' H.
  destruct (decide (year doc = y')) as [<- | Hne].
  - rewrite lookup_insert_eq in H. now injection H as <-.
  - rewrite lookup_insert_ne in H by exact Hne. now apply Hwf.
Qed.

(** X6.  [getOrCreateContentByYear] returns the record stored under the
    year: the one that was there, which it leaves exactly as it was, or
    else a fresh empty one, which it stores.  No other year changes, the
    collection stays keyed by year, and the remote store is not used. *)
Theorem getOrCreateContentByYear_spec (env : Env) (w : World) (y : Z) :
  db_up env -> db_wf (db w) ->
  exists doc w',
    getOrCreateContentByYear y env w = (Normal doc, w') /\
    db w' !! y = Some doc /\ year doc = y /\
    (forall old, db w !! y = Some old -> doc = old /\ db w' = db w) /\
    (db w !! y = None -> doc = empty_content y) /\
    (forall y', y' <> y -> db w' !! y' = db w !! y') /\
    db_wf (db w') /\
    destroy_log w' = destroy_log w.
Proof.
  intros Hup Hwf. rewrite (getOrCreate_run env w y Hup).
  destruct (db w !! y) as [doc|] eqn:Hdoc.
  - exists doc, (count_db_op w). split; [reflexivity |].
    split; [exact Hdoc |]. split; [now apply Hwf |].
    split; [intros old H; now injection H as <- |].
    split; [discriminate |]. now repeat split.
  - eexists _, _. split; [reflexivity |]. simpl.
    split; [apply lookup_insert_eq |]. split; [reflexivity |].
    split; [discriminate |]. split; [reflexivity |].
    split; [intros y' Hy'; now apply lookup_insert_ne |].
    split; [apply (db_wf_insert (db w) (empty_content y) Hwf) | reflexivity].
Qed.

Lemma getContent_run (env : Env) (w : World) (y : Z) :
  db_up env ->
  getContent (Some y) env w =
  (Normal match db w !! y with
          | Some doc => {| status := 200; body := JsonDoc doc |}
          | None => {| status := 404; body := content_not_found y |}
          end, count_db_op w).
Proof.
  intros Hup. unfold getContent, try_catchM, mbind.
  rewrite (findOne_run env w y Hup). now destruct (db w !! y).
Qed.

Lemma createContent_run (env : Env) (w : World) (y : Z) :
  db_up env ->
  createContent (Some y) env w =
  match db w !! y with
  | Some _ =>
      (Normal {| status := 400;
                 body := JsonMessage
                   ("Content for " +++ Number_toString y +++ " already exists") |},
       count_db_op w)
  | None =>
      (Normal {| status := 201; body := JsonDoc (empty_content y) |},
       {| db := <[y := empty_content y]> (db w);
          db_ops := S (S (db_ops w));
          destroy_log := destroy_log w |})
  end.
Proof.
  intros Hup. unfold createContent, try_catchM, mbind.
  rewrite (findOne_run env w y Hup).
  destruct (db w !! y) as [doc|]; [reflexivity |].
  now rewrite save_run by exact Hup.
Qed.

(** X7.  Creating a year is not an upsert.  With the document store
    available, [POST /api/content/:year] answers 201 with the empty
    record exactly when the year had none, and then the public [GET]
    returns that record; a year that has a record is answered 400 and
    the collection is left as it was.  Either way no stored record is
    overwritten, and creating the same year again is refused. *)
Theorem createContent_once (env : Env) (w : World) (y : Z) :
  db_up env ->
  exists r w',
    createContent (Some y) env w = (Normal r, w') /\
    (db w !! y = None ->
     r = {| status := 201; body := JsonDoc (empty_content y) |} /\
     fst (getContent (Some y) env w') =
       Normal {| status := 200; body := JsonDoc (empty_content y) |}) /\
    (forall doc, db w !! y = Some doc -> status r = 400 /\ db w' = db w) /\
    (forall y' doc, db w !! y' = Some doc -> db w' !! y' = Some doc) /\
    exists r2 w2,
      createContent (Some y) env w' = (Normal r2, w2) /\
      status r2 = 400 /\ db w2 = db w'.
Proof.
  intros Hup. rewrite (createContent_run env w y Hup).
  destruct (db w !! y) as [doc|] eqn:Hdoc.
  - eexists _, _. split; [reflexivity |].
    split; [discriminate |].
    split; [now intros doc' _ |].
    split; [now intros y' doc' H |].
    rewrite (createContent_run env _ y Hup). simpl. rewrite Hdoc.
    now eexists _, _.
  - eexists _, _. split; [reflexivity |].
    split.
    { intros _. split; [reflexivity |].
      rewrite (getContent_run env _ y Hup). simpl.
      now rewrite lookup_insert_eq. }
    split; [discriminate |].
    split.
    { intros y' doc H. simpl. rewrite lookup_insert_ne; [exact H |].
      intros <-. rewrite Hdoc in H. discriminate. }
    rewrite (createContent_run env _ y Hup). simpl. rewrite lookup_insert_eq.
    now eexists _, _.
Qed.

End ContentFacts.

Lemma getOrCreateContentByYear_spec_witness :
  exists doc w',
    getOrCreateContentByYear 2024 remote_down (world_of gallery_2024) =
      (Normal doc, w') /\
    db w' !! 2024%Z = Some doc /\ year doc = 2024%Z /\
    (forall old, db (world_of gallery_2024) !! 2024%Z = Some old ->
       doc = old /\ db w' = db (world_of gallery_2024)) /\
    (db (world_of gallery_2024) !! 2024%Z = None -> doc = empty_content 2024) /\
    (forall y', y' <> 2024%Z -> db w' !! y' = db (world_of gallery_2024) !! y') /\
    db_wf (db w') /\
    destroy_log w' = destroy_log (world_of gallery_2024).
Proof.
  apply (getOrCreateContentByYear_spec remote_down (world_of gallery_2024) 2024).
  - exact remote_down_db_up.
  - apply world_of_wf.
Defined.

Lemma createContent_once_witness :
  exists r w',
    createContent (Some 2025%Z) remote_down (world_of gallery_2024) = (Normal r, w') /\
    (db (world_of gallery_2024) !! 2025%Z = None ->
     r = {| status := 201; body := JsonDoc (empty_content 2025) |} /\
     fst (getContent (Some 2025%Z) remote_down w') =
       Normal {| status := 200; body := JsonDoc (empty_content 2025) |}) /\
    (forall doc, db (world_of gallery_2024) !! 2025%Z = Some doc ->
       status r = 400 /\ db w' = db (world_of gallery_2024)) /\
    (forall y' doc, db (world_of gallery_2024) !! y' = Some doc ->
       db w' !! y' = Some doc) /\
    exists r2 w2,
      createContent (Some 2025%Z) remote_down w' = (Normal r2, w2) /\
      status r2 = 400 /\ db w2 = db w'.
Proof.
  apply (createContent_once remote_down (world_of gallery_2024) 2025).
  exact remote_down_db_up.
Defined.

Section EditFacts.

Variable URL_parse : string -> option ParsedURL.
Variable String_cast_other : bool -> string -> Completion string.

(** What one save after [getOrCreateContentByYear] leaves. *)
Lemma getOrCreate_then_save (env : Env) (w : World) (y : Z)
    (change : Content -> Content) :
  db_up env -> db_wf (db w) ->
  (forall doc, year (change doc) = year doc) ->
  (do doc <- getOrCreateContentByYear y;
   let doc := change doc in
   run save doc;
   json 200 (JsonDoc doc)) env w =
  (Normal {| status := 200; body := JsonDoc (change (record_before w y)) |},
   {| db := <[y := change (record_before w y)]> (db w);
      db_ops := match db w !! y with
                | Some _ => S (S (db_ops w))
                | None => S (S (S (db_ops w)))
                end;
      destroy_log := destroy_log w |}).
Proof.
  intros Hup Hwf Hyear. unfold mbind at 1. rewrite (getOrCreate_run env w y Hup).
  unfold record_before.
  destruct (db w !! y) as [doc|] eqn:Hdoc; unfold mbind;
    rewrite save_run by exact Hup; simpl; rewrite Hyear.
  - now rewrite (Hwf y doc Hdoc).
  - simpl. now rewrite insert_insert_eq.
Qed.





End EditFacts.


(** A number as video link: the URL parser refuses its text, [url.trim()]
    throws, and the route answers 500 without having touched the
    collection. *)
Example putVideo_number :
  putVideo PlainVideoURL.URL_parse refuse_cast (Some 2024%Z) (FieldOther true "5")
    remote_down (world_of gallery_2024) =
  (Normal {| status := 500; body := JsonMessage trim_TypeError |},
   world_of gallery_2024).
Proof. reflexivity. Qed.

(** ** Uploading and deleting again *)

Section TaggedAppend.

Context {A : Type}.

Lemma find_combine_seq_app (p : A -> bool) (xs : list A) (x : A) (ys : list A) (k : nat) :
  forallb (fun a => negb (p a)) xs = true -> p x = true ->
  List.find (fun e => p (snd e))
    (combine (seq k (List.length (xs ++ x :: ys))) (xs ++ x :: ys)) =
  Some ((k + List.length xs)%nat, x).
Proof.
  revert k. induction xs as [|a xs IH]; intros k Hxs Hx; simpl.
  - rewrite Hx. now rewrite Nat.add_0_r.
  - simpl in Hxs. apply andb_prop in Hxs as [Ha Hxs].
    apply negb_true_iff in Ha. rewrite Ha.
    rewrite (IH (S k) Hxs Hx). f_equal. f_equal. lia.
Qed.

(** [find] returns the first element the predicate accepts. *)
Lemma find_tagged_app (p : A -> bool) (xs : list A) (x : A) (ys : list A) :
  forallb (fun a => negb (p a)) xs = true -> p x = true ->
  find_tagged p (xs ++ x :: ys) = Some (List.length xs, x).
Proof. intros Hxs Hx. apply (find_combine_seq_app p xs x ys 0 Hxs Hx). Qed.

Lemma filter_from_skip (q : A -> bool) (i k : nat) (ys : list A) :
  (i < k)%nat ->
  untag (List.filter (fun e => q (snd e) && negb (fst e =? i)%nat)
           (combine (seq k (List.length ys)) ys)) =
  List.filter q ys.
Proof.
  revert k. induction ys as [|y ys IH]; intros k Hik; simpl; [reflexivity |].
  replace (k =? i)%nat with false by (symmetry; apply Nat.eqb_neq; lia).
  rewrite andb_true_r. destruct (q y); simpl; rewrite IH by lia; reflexivity.
Qed.

Lemma filter_from_at (q : A -> bool) (xs : list A) (x : A) (ys : list A) (k : nat) :
  untag (List.filter
           (fun e => q (snd e) && negb (fst e =? k + List.length xs)%nat)
           (combine (seq k (List.length (xs ++ x :: ys))) (xs ++ x :: ys))) =
  List.filter q xs ++ List.filter q ys.
Proof.
  revert k. induction xs as [|a xs IH]; intros k; simpl.
  - rewrite Nat.add_0_r, Nat.eqb_refl, andb_false_r.
    apply filter_from_skip. lia.
  - replace (k =? k + S (List.length xs))%nat with false
      by (symmetry; apply Nat.eqb_neq; lia).
    rewrite andb_true_r.
    replace (k + S (List.length xs))%nat with (S k + List.length xs)%nat by lia.
    destruct (q a); simpl; [f_equal |]; apply (IH (S k)).
Qed.

End TaggedAppend.

Section RoundTrip.

Variable URL_pathname : string -> option string.

(** The photos that stay when the entry at the end of [xs] is the one
    found. *)
Lemma kept_photos_app (xs : list Image) (x : Image) (ys : list Image) :
  untag (kept_photos (List.length xs) x (xs ++ x :: ys)) =
  List.filter
    (fun p => negb (strict_eq_opt (public_id p) (public_id x) && truthy (public_id x)))
    xs ++
  List.filter
    (fun p => negb (strict_eq_opt (public_id p) (public_id x) && truthy (public_id x)))
    ys.
Proof.
  unfold kept_photos, tag.
  apply (filter_from_at
           (fun p => negb (strict_eq_opt (public_id p) (public_id x) &&
                           truthy (public_id x))) xs x ys 0).
Qed.

Lemma unlocated_other_key (k : string) (p : Image) :
  nonempty k = true -> locates k p = false ->
  strict_eq_opt (public_id p) (Some k) = false.
Proof.
  intros Hk Hl. unfold locates in Hl. apply orb_false_iff in Hl as [Hl _].
  destruct (public_id p) as [k'|]; [| reflexivity]. simpl in *.
  destruct (k' =? k)%string eqn:E; [| reflexivity].
  apply String.eqb_eq in E as ->. unfold nonempty in Hk. now rewrite Hk in Hl.
Qed.

(** X9.  Uploading and deleting again.  With the document store
    available, after a batch of files is uploaded to a year, deleting one
    of them by the key it was stored under answers 200 and removes that
    file's entry and no other: the record is the one before the upload
    with the other files of the batch appended, and that key is the one
    request sent to the remote store.  It is assumed that the key is not
    empty, that it locates no older entry and no earlier file of the
    batch, and that no later file of the batch has the same key. *)
Theorem upload_then_deletePhoto (env : Env) (w : World) (y : Z)
    (caption_field : option string) (pre : list UploadedFile) (f : UploadedFile)
    (post : list UploadedFile) (k : string) :
  db_up env -> db_wf (db w) ->
  public_id (photo_entry caption_field f) = Some k -> nonempty k = true ->
  forallb (fun p => negb (locates k p))
    (photos (record_before w y) ++ List.map (photo_entry caption_field) pre) = true ->
  forallb (fun g => negb (strict_eq (public_id (photo_entry caption_field g)) k))
    post = true ->
  exists r1 w1 doc2 w2,
    postPhotos (Some y) (pre ++ f :: post) caption_field env w = (Normal r1, w1) /\
    deletePhoto URL_pathname (Some y) k env w1 =
      (Normal {| status := 200; body := JsonDoc doc2 |}, w2) /\
    db w2 !! y = Some doc2 /\
    doc2 = set_photos (record_before w y)
             (photos (record_before w y) ++
              List.map (photo_entry caption_field) (pre ++ post)) /\
    destroy_log w2 = destroy_log w ++ [k].
Proof.
  intros Hup Hwf Hkey Hk Hold Hpost.
  set (old := record_before w y).
  set (entry := photo_entry caption_field).
  assert (Hy : year old = y).
  { unfold old, record_before. destruct (db w !! y) as [doc|] eqn:Hdoc; [| reflexivity].
    now apply Hwf. }
  set (doc1 := set_photos old (photos old ++ List.map entry (pre ++ f :: post))).
  assert (Hrun1 : exists w1,
            postPhotos (Some y) (pre ++ f :: post) caption_field env w =
              (Normal {| status := 200; body := JsonDoc doc1 |}, w1) /\
            db w1 = <[y := doc1]> (db w) /\ destroy_log w1 = destroy_log w).
  { unfold postPhotos, try_catchM.
    pose proof (getOrCreate_then_save env w y
                  (fun doc => set_photos doc
                     (photos doc ++ List.map entry (pre ++ f :: post)))
                  Hup Hwf (fun _ => eq_refl)) as Hrun.
    cbv beta iota zeta in Hrun.
    destruct (pre ++ f :: post) as [|g gs] eqn:Hfiles;
      [now destruct pre |].
    unfold entry in Hrun. rewrite Hrun. eexists. split; [reflexivity |].
    now split. }
  destruct Hrun1 as (w1 & Hrun1 & Hdb1 & Hlog1).
  assert (Hdoc1 : db w1 !! y = Some doc1).
  { rewrite Hdb1. apply lookup_insert_eq. }
  assert (Hphotos : photos doc1 = (photos old ++ List.map entry pre) ++
                                  entry f :: List.map entry post).
  { unfold doc1. simpl. now rewrite List.map_app, app_assoc. }
  assert (Hfind : find_tagged (locates k) (photos doc1) =
                  Some (List.length (photos old ++ List.map entry pre), entry f)).
  { rewrite Hphotos. apply find_tagged_app; [exact Hold |].
    unfold locates. unfold entry. rewrite Hkey. simpl.
    unfold nonempty in Hk. now rewrite Hk, String.eqb_refl. }
  pose proof (deletePhoto_found_run URL_pathname env w1 y k doc1 _ _ Hup Hdoc1 Hfind)
    as Hrun2.
  cbv zeta in Hrun2. rewrite drop_same_url_kept_photos in Hrun2.
  rewrite Hphotos in Hrun2 at 1 2. rewrite kept_photos_app in Hrun2.
  assert (Hkeep_old :
            List.filter
              (fun p => negb (strict_eq_opt (public_id p) (public_id (entry f)) &&
                              truthy (public_id (entry f))))
              (photos old ++ List.map entry pre) =
            photos old ++ List.map entry pre).
  { apply filter_true. intros p Hp.
    pose proof (proj1 (forallb_forall _ _) Hold p Hp) as Hn. cbv beta in Hn.
    apply negb_true_iff in Hn. unfold entry. rewrite Hkey.
    now rewrite (unlocated_other_key k p Hk Hn). }
  assert (Hkeep_post :
            List.filter
              (fun p => negb (strict_eq_opt (public_id p) (public_id (entry f)) &&
                              truthy (public_id (entry f))))
              (List.map entry post) =
            List.map entry post).
  { apply filter_true. intros p Hp.
    apply in_map_iff in Hp as (g & <- & Hg).
    pose proof (proj1 (forallb_forall _ _) Hpost g Hg) as Hn. cbv beta in Hn.
    apply negb_true_iff in Hn. unfold entry. rewrite Hkey.
    unfold strict_eq in Hn. unfold strict_eq_opt.
    destruct (public_id (photo_entry caption_field g)); [now rewrite Hn | reflexivity]. }
  rewrite Hkeep_old, Hkeep_post in Hrun2.
  assert (Hcand : candidate_key URL_pathname (entry f) k = k).
  { unfold candidate_key, or_string, or_else, entry. rewrite Hkey. simpl.
    unfold nonempty in Hk. rewrite Hk. simpl. now rewrite Hk. }
  rewrite Hcand in Hrun2.
  eexists _, w1, _, _. split; [exact Hrun1 |]. split; [exact Hrun2 |].
  split; [simpl; rewrite Hy; apply lookup_insert_eq |].
  split.
  - unfold doc1, set_photos. simpl. f_equal.
    now rewrite List.map_app, app_assoc.
  - simpl. now rewrite Hlog1.
Qed.

End RoundTrip.

Lemma upload_then_deletePhoto_witness :
  exists w2,
    db w2 !! 2024%Z = Some gallery_2024 /\
    destroy_log w2 = ["events/photos/17-pic"].
Proof.
  destruct (upload_then_deletePhoto PlainURL.plain_URL_pathname remote_down
              (world_of gallery_2024) 2024 None []
              {| file_path :=
                   Some "https://res.cloudinary.com/demo/image/upload/v1/events/photos/17-pic.jpg";
                 file_filename := Some "events/photos/17-pic";
                 file_public_id := None |}
              [] "events/photos/17-pic"
              remote_down_db_up (world_of_wf gallery_2024)
              eq_refl eq_refl eq_refl eq_refl)
    as (r1 & w1 & doc2 & w2 & _ & _ & Hdb & Hdoc & Hlog).
  exists w2. split; [| exact Hlog].
  rewrite Hdb, Hdoc. reflexivity.
Defined.

(** ** Deletions only prune *)

Section DeletionFrame.

Variable URL_pathname : string -> option string.

Lemma findOne_cases (env : Env) (w : World) (y : Z) :
  Content_findOne y env w = (Throw db_error, count_db_op w) \/
  Content_findOne y env w = (Normal (db w !! y), count_db_op w).
Proof. unfold Content_findOne. destruct (db_fails env (db_ops w)); [now left | now right]. Qed.

Lemma save_cases (env : Env) (w : World) (doc : Content) :
  save doc env w = (Throw db_error, count_db_op w) \/
  save doc env w =
    (Normal tt, {| db := <[year doc := doc]> (db w);
                   db_ops := S (db_ops w);
                   destroy_log := destroy_log w |}).
Proof. unfold save. destruct (db_fails env (db_ops w)); [now left | now right]. Qed.

Lemma sublist_filter_map {A B} (f : A -> B) (q : A -> bool) (l : list A) :
  sublist (List.map f (List.filter q l)) (List.map f l).
Proof.
  induction l as [|a l IH]; simpl; [constructor |].
  destruct (q a); simpl; now constructor.
Qed.

Lemma sublist_filter_list {A} (q : A -> bool) (l : list A) :
  sublist (List.filter q l) l.
Proof.
  induction l as [|a l IH]; simpl; [constructor |].
  destruct (q a); now constructor.
Qed.

Lemma sublist_untag_drop (i : nat) (found : Image) (q : nat * Image -> bool)
    (xs : list Image) :
  sublist (untag (drop_same_url i found (List.filter q (tag xs)))) xs.
Proof.
  rewrite <- (untag_tag xs) at 2. unfold untag, drop_same_url.
  destruct (existsb _ _).
  - etransitivity; [apply sublist_filter_map | apply sublist_filter_map].
  - apply sublist_filter_map.
Qed.

Lemma map_category_insert (l : list AwardCategory) (ci : nat) (cat cat' : AwardCategory) :
  l !! ci = Some cat -> category cat' = category cat ->
  List.map category (<[ci := cat']> l) = List.map category l.
Proof.
  revert ci. induction l as [|a l IH]; intros [|ci] H Hc; simpl in *;
    try discriminate.
  - injection H as ->. now rewrite Hc.
  - f_equal. now apply IH.
Qed.

(** The end of a route that saves a pruned record and answers. *)
Lemma only_prunes_save (op : Deletion) (env : Env) (w w0 : World) (y : Z)
    (doc doc' : Content) (st : nat) (b : Body) (keys : list string) :
  db_wf (db w) -> deletion_year op = Some y -> db w !! y = Some doc ->
  db w0 = db w -> destroy_log w0 = destroy_log w ++ keys ->
  pruned doc doc' -> untouched op doc doc' ->
  st <> 400 -> st <> 500 -> (st = 200 -> b = JsonDoc doc') ->
  only_prunes op w
    (match
       (let (c, w') := save doc' env w0 in
        match c with
        | Normal _ => json st b env w'
        | Throw e => (Throw e, w')
        end)
     with
     | (Normal a, w') => (Normal a, w')
     | (Throw e, w') => json 500 (JsonError "Server error" e) env w'
     end).
Proof.
  intros Hwf Hop Hdoc Hdb Hlog Hpr Hun H400 H500 H200.
  assert (Hy : year doc' = y).
  { destruct Hpr as (Hy & _). rewrite Hy. now apply Hwf. }
  destruct (save_cases env w0 doc') as [-> | ->]; eexists _, _; simpl;
    (split; [reflexivity |]); simpl.
  - split; [now exists keys |]. split; [now left |].
    split; [discriminate |]. split; [discriminate | now intros _].
  - split; [now exists keys |].
    split.
    { right. exists y, doc, doc'. split; [exact Hop |]. split; [exact Hdoc |].
      split; [| now split].
      now rewrite Hdb, Hy. }
    split.
    { intros H. exists y, doc'. split; [exact Hop |]. split; [now apply H200 |].
      rewrite Hy. apply lookup_insert_eq. }
    split; intros H; now contradiction.
Qed.

(** The end of a route that answers without saving. *)
Lemma only_prunes_answer (op : Deletion) (w w0 : World) (st : nat) (b : Body) :
  db w0 = db w -> destroy_log w0 = destroy_log w ->
  st <> 200 -> (st = 400 -> w0 = w) ->
  only_prunes op w (Normal {| status := st; body := b |}, w0).
Proof.
  intros Hdb Hlog H200 H400. eexists _, _. split; [reflexivity |].
  split; [exists []; now rewrite app_nil_r |].
  split; [now left |]. split; [intros H; now contradiction |].
  split; [exact H400 | now intros _].
Qed.

Lemma pruned_photos (doc : Content) (ps : list Image) :
  sublist ps (photos doc) -> pruned doc (set_photos doc ps).
Proof. intros H. now repeat split. Qed.

Lemma pruned_partners (doc : Content) (ps : list Image) :
  sublist ps (partners doc) -> pruned doc (set_partners doc ps).
Proof. intros H. now repeat split. Qed.

Lemma deletePhoto_only_prunes (env : Env) (w : World) (year : option Z) (id : string) :
  db_wf (db w) ->
  only_prunes (DeletePhoto year id) w (deletePhoto URL_pathname year id env w).
Proof.
  intros Hwf. unfold deletePhoto, try_catchM.
  destruct year as [y|]; [| now apply only_prunes_answer].
  unfold mbind at 1.
  destruct (findOne_cases env w y) as [-> | ->];
    [now apply only_prunes_answer |].
  destruct (db w !! y) as [doc|] eqn:Hdoc; [| now apply only_prunes_answer].
  destruct (find_tagged (locates id) (photos doc)) as [[i photo]|].
  - unfold mbind at 1. rewrite destroy_candidate_run.
    unfold mbind at 1. rewrite try_destroy_run. unfold mbind.
    eapply (only_prunes_save _ env w _ y doc); try eassumption; try reflexivity;
      try discriminate; try (intros _; reflexivity).
    + apply pruned_photos, sublist_untag_drop.
    + now split.
  - unfold mbind.
    eapply (only_prunes_save _ env w _ y doc _ _ _ []); try eassumption;
      try reflexivity; try discriminate; try (intros _; reflexivity).
    + simpl. now rewrite app_nil_r.
    + apply pruned_photos, sublist_filter_list.
    + now split.
Qed.

Lemma deletePartner_only_prunes (env : Env) (w : World) (year : option Z) (id : string) :
  db_wf (db w) ->
  only_prunes (DeletePartner year id) w (deletePartner URL_pathname year id env w).
Proof.
  intros Hwf. unfold deletePartner, try_catchM.
  destruct year as [y|]; [| now apply only_prunes_answer].
  unfold mbind at 1.
  destruct (findOne_cases env w y) as [-> | ->];
    [now apply only_prunes_answer |].
  destruct (db w !! y) as [doc|] eqn:Hdoc; [| now apply only_prunes_answer].
  destruct (find_tagged (locates id) (partners doc)) as [[i partner]|].
  - unfold mbind at 1. rewrite destroy_candidate_run.
    unfold mbind at 1. rewrite try_destroy_run. unfold mbind.
    eapply (only_prunes_save _ env w _ y doc); try eassumption; try reflexivity;
      try discriminate; try (intros _; reflexivity).
    + apply pruned_partners, sublist_untag_drop.
    + now split.
  - unfold mbind.
    eapply (only_prunes_save _ env w _ y doc _ _ _ []); try eassumption;
      try reflexivity; try discriminate; try (intros _; reflexivity).
    + simpl. now rewrite app_nil_r.
    + apply pruned_partners, sublist_filter_list.
    + now split.
Qed.

Lemma slot_destroy_run (env : Env) (w : World) (person : Person) :
  (match photo person with
   | Some ph =>
       if truthy (photo_public_id ph) || truthy (photo_filename ph) ||
          truthy (photo_url ph)
       then destroy_untried [] (photo_candidates URL_pathname ph)
       else ret tt
   | None => ret tt
   end) env w =
  (Normal tt, log_more w (slot_requests URL_pathname person)).
Proof.
  unfold slot_requests. destruct (photo person) as [ph|].
  - destruct (truthy (photo_public_id ph) || truthy (photo_filename ph) ||
              truthy (photo_url ph)).
    + apply destroy_untried_run.
    + now rewrite log_more_nil.
  - now rewrite log_more_nil.
Qed.

Lemma pruned_award_photo_cleared (doc : Content) (ci : nat) (cat : AwardCategory)
    (r : Role) (person : Person) :
  awards doc !! ci = Some cat ->
  pruned doc (award_photo_cleared doc ci cat r person) /\
  partners (award_photo_cleared doc ci cat r person) = partners doc /\
  List.length (awards (award_photo_cleared doc ci cat r person)) =
    List.length (awards doc).
Proof.
  intros Hci.
  assert (Hcats : List.map category
                    (<[ci := set_slot cat r (Some (without_photo person))]> (awards doc)) =
                  List.map category (awards doc)).
  { apply (map_category_insert _ _ cat); [exact Hci | apply category_set_slot]. }
  unfold award_photo_cleared, pruned.
  destruct (photo person) as [ph|]; simpl; rewrite Hcats, length_insert;
    repeat split; try reflexivity.
  apply sublist_filter_list.
Qed.

Lemma pruned_category_removed (doc : Content) (cname : string) (cat : AwardCategory) :
  pruned doc (category_removed doc cname cat) /\
  partners (category_removed doc cname cat) = partners doc.
Proof.
  unfold category_removed, pruned.
  destruct (photoUrlsOrIds (people_of cat)); simpl; repeat split;
    try reflexivity; try apply sublist_filter_map.
  apply sublist_filter_list.
Qed.

Lemma deleteAwardPhoto_only_prunes (env : Env) (w : World) (year : option Z)
    (cname role : string) :
  db_wf (db w) ->
  only_prunes (DeleteAwardPhoto year cname role) w
    (deleteAwardPhoto URL_pathname year cname role env w).
Proof.
  intros Hwf. unfold deleteAwardPhoto, try_catchM.
  destruct year as [y|]; [| now apply only_prunes_answer].
  destruct (negb (nonempty cname)); [now apply only_prunes_answer |].
  destruct (role_of_string role) as [r|]; [| now apply only_prunes_answer].
  unfold mbind at 1.
  destruct (findOne_cases env w y) as [-> | ->];
    [now apply only_prunes_answer |].
  destruct (db w !! y) as [doc|] eqn:Hdoc; [| now apply only_prunes_answer].
  destruct (find_tagged (has_category cname) (awards doc)) as [[ci cat]|] eqn:Hfind;
    [| now apply only_prunes_answer].
  destruct (get_slot cat r) as [person|]; [| now apply only_prunes_answer].
  unfold mbind at 1. rewrite slot_destroy_run. unfold mbind.
  apply find_tagged_lookup in Hfind.
  destruct (pruned_award_photo_cleared doc ci cat r person Hfind) as (Hpr & Hpa & Hlen).
  eapply (only_prunes_save _ env w _ y doc (award_photo_cleared doc ci cat r person));
    try eassumption; try reflexivity; try discriminate;
    try (intros _; reflexivity).
  now split.
Qed.

Lemma deleteAwardCategory_only_prunes (env : Env) (w : World) (year : option Z)
    (cname : string) :
  db_wf (db w) ->
  only_prunes (DeleteAwardCategory year cname) w
    (deleteAwardCategory URL_pathname year cname env w).
Proof.
  intros Hwf. unfold deleteAwardCategory, try_catchM.
  destruct year as [y|]; [| now apply only_prunes_answer].
  destruct (negb (nonempty cname)); [now apply only_prunes_answer |].
  unfold mbind at 1.
  destruct (findOne_cases env w y) as [-> | ->];
    [now apply only_prunes_answer |].
  destruct (db w !! y) as [doc|] eqn:Hdoc; [| now apply only_prunes_answer].
  destruct (find_tagged (has_category cname) (awards doc)) as [[ci cat]|] eqn:Hfind;
    [| now apply only_prunes_answer].
  unfold mbind at 1. rewrite destroy_people_run. unfold mbind.
  destruct (pruned_category_removed doc cname cat) as (Hpr & Hpa).
  unfold category_removed in Hpr, Hpa.
  destruct (photoUrlsOrIds (people_of cat));
    eapply (only_prunes_save _ env w _ y doc);
    try eassumption; try reflexivity; try discriminate;
    try (intros _; reflexivity).
Qed.

Lemma handle_only_prunes (env : Env) (w : World) (op : Deletion) :
  db_wf (db w) -> only_prunes op w (handle URL_pathname op env w).
Proof.
  intros Hwf. destruct op; simpl.
  - now apply deletePhoto_only_prunes.
  - now apply deletePartner_only_prunes.
  - now apply deleteAwardPhoto_only_prunes.
  - now apply deleteAwardCategory_only_prunes.
Qed.

(** X10.  A deletion only prunes, whatever the document store and the
    remote store do.  Each of the four deletion routes answers; the
    remote log only grows; the route leaves the collection as it was or
    replaces the record of the addressed year, which existed, by one with
    the same year and video link whose photos, partners and award
    categories are those it had, in order, with some left out, and in
    which the fields of the other routes are not written.  An answer 200
    carries the record now stored under the year, an answer 400 means
    that nothing happened at all, an answer 500 that the collection is as
    it was. *)
Theorem deletion_only_prunes (env : Env) (w : World) (op : Deletion) :
  db_wf (db w) ->
  exists r w',
    handle URL_pathname op env w = (Normal r, w') /\
    (exists keys, destroy_log w' = destroy_log w ++ keys) /\
    (db w' = db w \/
     exists y doc doc',
       deletion_year op = Some y /\ db w !! y = Some doc /\
       db w' = <[y := doc']> (db w) /\
       pruned doc doc' /\ untouched op doc doc') /\
    (status r = 200 ->
     exists y doc', deletion_year op = Some y /\ body r = JsonDoc doc' /\
                    db w' !! y = Some doc') /\
    (status r = 400 -> w' = w) /\
    (status r = 500 -> db w' = db w).
Proof.
  intros Hwf. change (only_prunes op w (handle URL_pathname op env w)).
  destruct op as [year id | year id | year cname role | year cname]; simpl.
  - now apply deletePhoto_only_prunes.
  - now apply deletePartner_only_prunes.
  - now apply deleteAwardPhoto_only_prunes.
  - now apply deleteAwardCategory_only_prunes.
Qed.

Lemma pruned_refl (doc : Content) : pruned doc doc.
Proof. now repeat split. Qed.

Lemma pruned_trans (a b c : Content) : pruned a b -> pruned b c -> pruned a c.
Proof.
  intros (Hy & Hv & Hp & Hq & Ha) (Hy' & Hv' & Hp' & Hq' & Ha').
  repeat split; try congruence; etransitivity; eassumption.
Qed.

Lemma shrunk_refl (d : gmap Z Content) : shrunk d d.
Proof.
  intros y. destruct (d !! y) as [doc|]; [| reflexivity].
  exists doc. split; [reflexivity | apply pruned_refl].
Qed.

Lemma shrunk_trans (a b c : gmap Z Content) : shrunk a b -> shrunk b c -> shrunk a c.
Proof.
  intros Hab Hbc y. specialize (Hab y). specialize (Hbc y).
  destruct (c !! y) as [dc|].
  - destruct Hbc as (db_ & Hb & Hpr). rewrite Hb in Hab.
    destruct Hab as (da & Ha & Hpr'). exists da. split; [exact Ha |].
    now apply (pruned_trans da db_ dc).
  - now rewrite Hbc in Hab.
Qed.

(** One deletion keeps the collection keyed by year and shrinks it. *)
Lemma handle_shrinks (env : Env) (w : World) (op : Deletion) :
  db_wf (db w) ->
  db_wf (db (snd (handle URL_pathname op env w))) /\
  shrunk (db w) (db (snd (handle URL_pathname op env w))) /\
  exists keys,
    destroy_log (snd (handle URL_pathname op env w)) = destroy_log w ++ keys.
Proof.
  intros Hwf.
  destruct (handle_only_prunes env w op Hwf) as (r & w' & -> & Hlog & Hdb & _).
  simpl. destruct Hdb as [-> | (y & doc & doc' & _ & Hdoc & -> & Hpr & _)].
  - split; [exact Hwf |]. split; [apply shrunk_refl | exact Hlog].
  - assert (Hy : year doc' = y).
    { destruct Hpr as (Hy & _). rewrite Hy. now apply Hwf. }
    split; [rewrite <- Hy; now apply db_wf_insert |].
    split; [| exact Hlog].
    intros y'. destruct (decide (y = y')) as [<- | Hne].
    + rewrite lookup_insert_eq. now exists doc.
    + rewrite lookup_insert_ne by exact Hne.
      destruct (db w !! y') as [d|]; [| reflexivity].
      exists d. split; [reflexivity | apply pruned_refl].
Qed.

(** X11.  No sequence of deletion requests adds anything.  After any
    number of deletions, under any failures of the two stores, the
    collection is still keyed by year, it has exactly the years it had,
    every record is the one it was with entries left out (same video
    link, photos, partners and award categories in their old order), and
    the remote log has only grown. *)
Theorem deletions_never_add (env : Env) (ops : list Deletion) (w : World) :
  db_wf (db w) ->
  db_wf (db (serve URL_pathname ops env w)) /\
  shrunk (db w) (db (serve URL_pathname ops env w)) /\
  exists keys, destroy_log (serve URL_pathname ops env w) = destroy_log w ++ keys.
Proof.
  revert w. induction ops as [|op ops IH]; intros w Hwf; simpl.
  - split; [exact Hwf |]. split; [apply shrunk_refl |].
    exists []. now rewrite app_nil_r.
  - destruct (handle_shrinks env w op Hwf) as (Hwf1 & Hsh1 & keys1 & Hlog1).
    destruct (IH _ Hwf1) as (Hwf2 & Hsh2 & keys2 & Hlog2).
    split; [exact Hwf2 |].
    split; [now apply (shrunk_trans _ _ _ Hsh1 Hsh2) |].
    exists (keys1 ++ keys2). now rewrite Hlog2, Hlog1, app_assoc.
Qed.

End DeletionFrame.

Lemma deletion_only_prunes_witness :
  exists r w',
    handle PlainURL.plain_URL_pathname (DeletePhoto (Some 2024%Z) "x/a") remote_ok
      (world_of gallery_2024) = (Normal r, w') /\
    (status r = 500 -> db w' = db (world_of gallery_2024)).
Proof.
  destruct (deletion_only_prunes PlainURL.plain_URL_pathname remote_ok
              (world_of gallery_2024) (DeletePhoto (Some 2024%Z) "x/a")
              (world_of_wf gallery_2024))
    as (r & w' & Hrun & _ & _ & _ & _ & H500).
  exists r, w'. split; [exact Hrun | exact H500].
Defined.

Lemma deletions_never_add_witness :
  shrunk (db (world_of batch_2024))
    (db (serve PlainURL.plain_URL_pathname
           [DeletePhoto (Some 2024%Z) "events/photos/17-pic";
            DeletePhoto (Some 2024%Z) "events/photos/17-pic"]
           remote_ok (world_of batch_2024))).
Proof.
  apply (deletions_never_add PlainURL.plain_URL_pathname remote_ok
           [DeletePhoto (Some 2024%Z) "events/photos/17-pic";
            DeletePhoto (Some 2024%Z) "events/photos/17-pic"]
           (world_of batch_2024) (world_of_wf batch_2024)).
Defined.

(** ** Deleting an award photo or category again *)

Section AwardsAgain.

Variable URL_pathname : string -> option string.

Lemma set_awards_same (doc : Content) : set_awards doc (awards doc) = doc.
Proof. now destruct doc. Qed.

Lemma filter_filter_same {A} (q : A -> bool) (xs : list A) :
  List.filter q (List.filter q xs) = List.filter q xs.
Proof.
  apply filter_true. intros x Hx. now apply filter_In in Hx.
Qed.

(** The record the award-photo handler saves: the record it read, less
    the gallery entries that point at the slot's photo. *)
Lemma award_photo_cleared_shape (doc : Content) (ci : nat) (cat : AwardCategory)
    (r : Role) (person : Person) :
  awards doc !! ci = Some cat -> get_slot cat r = Some person ->
  award_photo_cleared doc ci cat r person =
  match photo person with
  | Some ph =>
      set_photos doc (List.filter (fun p => negb (same_photo ph p)) (photos doc))
  | None => doc
  end.
Proof.
  intros Hci Hslot. unfold award_photo_cleared, without_photo.
  rewrite (set_slot_same cat r person Hslot), (list_insert_id _ _ _ Hci),
    set_awards_same.
  reflexivity.
Qed.

(** X12.  Deleting an award photo a second time.  With the document
    store available, a second call for the same slot answers 200 with
    the very record the first call stored and leaves the collection as
    it is; the awards are those the first call read, so the slot still
    has its photo, and the second call sends the remote store the same
    deletion requests as the first. *)
Theorem deleteAwardPhoto_again (env : Env) (w : World) (y : Z) (cname role : string)
    (doc : Content) (r : Role) (ci : nat) (cat : AwardCategory) (person : Person) :
  db_up env -> db_wf (db w) -> db w !! y = Some doc ->
  nonempty cname = true -> role_of_string role = Some r ->
  find_tagged (has_category cname) (awards doc) = Some (ci, cat) ->
  get_slot cat r = Some person ->
  exists doc1 w1 w2,
    deleteAwardPhoto URL_pathname (Some y) cname role env w =
      (Normal {| status := 200; body := JsonDoc doc1 |}, w1) /\
    deleteAwardPhoto URL_pathname (Some y) cname role env w1 =
      (Normal {| status := 200; body := JsonDoc doc1 |}, w2) /\
    db w2 = db w1 /\
    awards doc1 = awards doc /\
    destroy_log w1 = destroy_log w ++ slot_requests URL_pathname person /\
    destroy_log w2 = destroy_log w1 ++ slot_requests URL_pathname person.
Proof.
  intros Hup Hwf Hdoc Hcat Hrole Hfind Hslot.
  pose proof (Hwf y doc Hdoc) as Hy.
  pose proof (find_tagged_lookup _ _ _ _ Hfind) as Hci.
  set (doc1 := award_photo_cleared doc ci cat r person).
  assert (Hy1 : year doc1 = y).
  { unfold doc1. now rewrite year_award_photo_cleared. }
  assert (Haw1 : awards doc1 = awards doc).
  { now apply award_photo_cleared_awards. }
  pose proof (deleteAwardPhoto_run URL_pathname env w y cname role doc r ci cat person
                Hup Hdoc Hcat Hrole Hfind Hslot) as Hrun1.
  fold doc1 in Hrun1.
  set (w1 := world_after w doc1 (slot_requests URL_pathname person)) in *.
  assert (Hdoc1 : db w1 !! y = Some doc1).
  { unfold w1. simpl. rewrite Hy1. apply lookup_insert_eq. }
  assert (Hfind1 : find_tagged (has_category cname) (awards doc1) = Some (ci, cat)).
  { now rewrite Haw1. }
  pose proof (deleteAwardPhoto_run URL_pathname env w1 y cname role doc1 r ci cat
                person Hup Hdoc1 Hcat Hrole Hfind1 Hslot) as Hrun2.
  assert (Hsame : award_photo_cleared doc1 ci cat r person = doc1).
  { rewrite (award_photo_cleared_shape doc1 ci cat r person)
      by (rewrite ?Haw1; assumption).
    unfold doc1.
    rewrite (award_photo_cleared_shape doc ci cat r person Hci Hslot).
    destruct (photo person) as [ph|]; [| reflexivity].
    unfold set_photos. simpl. now rewrite filter_filter_same. }
  rewrite Hsame in Hrun2.
  exists doc1, w1, (world_after w1 doc1 (slot_requests URL_pathname person)).
  split; [exact Hrun1 |]. split; [exact Hrun2 |].
  split; [simpl; rewrite Hy1; apply insert_insert_eq |].
  split; [exact Haw1 |]. now split.
Qed.

Lemma deleteAwardCategory_not_found_run (env : Env) (w : World) (y : Z)
    (cname : string) (doc : Content) :
  db_up env -> db w !! y = Some doc -> nonempty cname = true ->
  find_tagged (has_category cname) (awards doc) = None ->
  deleteAwardCategory URL_pathname (Some y) cname env w =
  (Normal {| status := 404; body := JsonMessage "Award category not found" |},
   count_db_op w).
Proof.
  intros Hup Hdoc Hcat Hfind.
  unfold deleteAwardCategory, try_catchM, mbind.
  rewrite Hcat. change (negb true) with false. cbv beta iota.
  now rewrite (findOne_run env w y Hup), Hdoc, Hfind.
Qed.

(** X13.  Deleting an award category twice.  With the document store
    available, after a category has been deleted a second call with the
    same name answers 404, leaves the collection as it is and sends
    nothing to the remote store: every category of that name went with
    the first call. *)
Theorem deleteAwardCategory_again (env : Env) (w : World) (y : Z) (cname : string)
    (doc : Content) (ci : nat) (cat : AwardCategory) :
  db_up env -> db_wf (db w) -> db w !! y = Some doc ->
  nonempty cname = true ->
  find_tagged (has_category cname) (awards doc) = Some (ci, cat) ->
  exists doc1 w1 w2,
    deleteAwardCategory URL_pathname (Some y) cname env w =
      (Normal {| status := 200; body := JsonDoc doc1 |}, w1) /\
    deleteAwardCategory URL_pathname (Some y) cname env w1 =
      (Normal {| status := 404; body := JsonMessage "Award category not found" |}, w2) /\
    db w2 = db w1 /\ destroy_log w2 = destroy_log w1.
Proof.
  intros Hup Hwf Hdoc Hcat Hfind.
  pose proof (Hwf y doc Hdoc) as Hy.
  set (doc1 := category_removed doc cname cat).
  assert (Hy1 : year doc1 = y).
  { unfold doc1, category_removed. now destruct (photoUrlsOrIds (people_of cat)). }
  assert (Haw1 : awards doc1 =
                 List.filter (fun a => negb (has_category cname a)) (awards doc)).
  { unfold doc1, category_removed. now destruct (photoUrlsOrIds (people_of cat)). }
  pose proof (deleteAwardCategory_run URL_pathname env w y cname doc ci cat
                Hup Hdoc Hcat Hfind) as Hrun1.
  fold doc1 in Hrun1.
  set (w1 := world_after w doc1 (category_requests URL_pathname (people_of cat))) in *.
  assert (Hdoc1 : db w1 !! y = Some doc1).
  { unfold w1. simpl. rewrite Hy1. apply lookup_insert_eq. }
  assert (Hfind1 : find_tagged (has_category cname) (awards doc1) = None).
  { apply find_tagged_None. rewrite Haw1. apply forallb_filter_same. }
  exists doc1, w1, (count_db_op w1).
  split; [exact Hrun1 |].
  split; [now apply (deleteAwardCategory_not_found_run env w1 y cname doc1) |].
  now split.
Qed.

End AwardsAgain.

Lemma deleteAwardPhoto_again_witness :
  exists doc1 w1 w2,
    deleteAwardPhoto PlainURL.plain_URL_pathname (Some 2024%Z) "Best Actor" "winner"
      remote_ok (world_of prizes_2024) =
      (Normal {| status := 200; body := JsonDoc doc1 |}, w1) /\
    deleteAwardPhoto PlainURL.plain_URL_pathname (Some 2024%Z) "Best Actor" "winner"
      remote_ok w1 =
      (Normal {| status := 200; body := JsonDoc doc1 |}, w2) /\
    db w2 = db w1 /\
    awards doc1 = awards prizes_2024 /\
    destroy_log w1 =
      destroy_log (world_of prizes_2024) ++
      slot_requests PlainURL.plain_URL_pathname grace /\
    destroy_log w2 =
      destroy_log w1 ++ slot_requests PlainURL.plain_URL_pathname grace.
Proof.
  apply (deleteAwardPhoto_again PlainURL.plain_URL_pathname remote_ok
           (world_of prizes_2024) 2024 "Best Actor" "winner" prizes_2024 Winner 0
           best_actor grace (fun n => eq_refl) (world_of_wf prizes_2024));
    reflexivity.
Defined.

Lemma deleteAwardCategory_again_witness :
  exists doc1 w1 w2,
    deleteAwardCategory PlainURL.plain_URL_pathname (Some 2024%Z) "Best Film"
      remote_down (world_of awards_2024) =
      (Normal {| status := 200; body := JsonDoc doc1 |}, w1) /\
    deleteAwardCategory PlainURL.plain_URL_pathname (Some 2024%Z) "Best Film"
      remote_down w1 =
      (Normal {| status := 404; body := JsonMessage "Award category not found" |}, w2) /\
    db w2 = db w1 /\ destroy_log w2 = destroy_log w1.
Proof.
  apply (deleteAwardCategory_again PlainURL.plain_URL_pathname remote_down
           (world_of awards_2024) 2024 "Best Film" awards_2024 0 best_film
           remote_down_db_up (world_of_wf awards_2024));
    reflexivity.
Defined.

(** ** The keys the award routes send *)

Section AwardRequests.

Variable URL_pathname : string -> option string.

Lemma untried_dedupe (tried seen cs : list string) :
  (forall c, nonempty c = true -> mem_string c tried = mem_string c seen) ->
  untried tried cs = List.filter nonempty (dedupe seen cs).
Proof.
  revert tried seen. induction cs as [|c cs IH]; intros tried seen Hagree; simpl;
    [reflexivity |].
  destruct (nonempty c) eqn:Hc; simpl.
  - rewrite (Hagree c Hc). destruct (mem_string c seen); [now apply IH |].
    simpl. rewrite Hc. f_equal. apply IH.
    intros c' Hc'. simpl. now rewrite (Hagree c' Hc').
  - destruct (mem_string c seen); [now apply IH |].
    simpl. rewrite Hc. apply IH.
    intros c' Hc'. simpl. rewrite (Hagree c' Hc').
    destruct (String.eqb_spec c c') as [-> | _]; [| reflexivity].
    rewrite Hc in Hc'. discriminate.
Qed.

Lemma untried_fresh (tried cs : list string) (c : string) :
  In c (untried tried cs) -> mem_string c tried = false /\ nonempty c = true.
Proof.
  revert tried. induction cs as [|x cs IH]; intros tried Hin; simpl in Hin;
    [contradiction |].
  destruct (nonempty x) eqn:Hx; simpl in Hin; [| now apply IH].
  destruct (mem_string x tried) eqn:Hm; [now apply IH |].
  destruct Hin as [<- | Hin]; [now split |].
  apply IH in Hin as [Hm' Hc]. split; [| exact Hc].
  simpl in Hm'. now apply orb_false_iff in Hm' as [_ Hm'].
Qed.

Lemma untried_NoDup (tried cs : list string) : NoDup (untried tried cs).
Proof.
  revert tried. induction cs as [|x cs IH]; intros tried; simpl; [constructor |].
  destruct (negb (nonempty x) || mem_string x tried); [apply IH |].
  constructor; [| apply IH].
  rewrite list_elem_of_In. intros Hin. apply untried_fresh in Hin as [Hm _].
  simpl in Hm. now rewrite String.eqb_refl in Hm.
Qed.

Lemma falsy_no_candidates (ph : Photo) :
  truthy (photo_public_id ph) || truthy (photo_filename ph) ||
  truthy (photo_url ph) = false ->
  photo_candidates URL_pathname ph = [].
Proof.
  intros H. apply orb_false_iff in H as [H Hu]. apply orb_false_iff in H as [Hp Hf].
  unfold photo_candidates, if_truthy.
  destruct (photo_public_id ph) as [a|]; destruct (photo_filename ph) as [b|];
    destruct (photo_url ph) as [c|]; simpl in *;
    unfold nonempty; rewrite ?Hp, ?Hf, ?Hu; reflexivity.
Qed.

(** X14.  The two award routes run different loops over a slot's
    candidate keys (one skips what a [Set] has seen, the other iterates
    over a [Set] built first), and both send the same requests: for every
    slot the photo route sends exactly the keys the category route sends
    for that slot, in the same order, none of them empty and none of them
    twice. *)
Theorem award_requests_agree (person : Person) :
  slot_requests URL_pathname person = category_requests URL_pathname [person] /\
  NoDup (slot_requests URL_pathname person) /\
  (forall c, In c (slot_requests URL_pathname person) -> nonempty c = true).
Proof.
  assert (Hshape : slot_requests URL_pathname person =
                   match photo person with
                   | Some ph => untried [] (photo_candidates URL_pathname ph)
                   | None => []
                   end).
  { unfold slot_requests. destruct (photo person) as [ph|]; [| reflexivity].
    destruct (truthy (photo_public_id ph) || truthy (photo_filename ph) ||
              truthy (photo_url ph)) eqn:H; [reflexivity |].
    now rewrite (falsy_no_candidates ph H). }
  rewrite Hshape. unfold category_requests. simpl. rewrite app_nil_r.
  destruct (photo person) as [ph|].
  - split; [now apply untried_dedupe |].
    split; [apply untried_NoDup |].
    intros c Hc. now apply untried_fresh in Hc.
  - split; [reflexivity |]. split; [constructor | contradiction].
Qed.

Lemma pop_filter_last (xs : list string) (l : string) :
  pop xs = Some l -> nonempty l = true -> pop (filter_Boolean xs) = Some l.
Proof.
  unfold filter_Boolean. induction xs as [|x xs IH]; [discriminate |].
  intros Hpop Hl. destruct xs as [|x' xs'].
  - injection Hpop as ->. simpl. now rewrite Hl.
  - specialize (IH Hpop Hl). cbn [List.filter] in *.
    destruct (nonempty x); [| exact IH].
    destruct (nonempty x'); [exact IH |].
    destruct (List.filter nonempty xs'); [discriminate | exact IH].
Qed.

(** X15.  The award routes derive a key from a photo's URL with code of
    their own; whenever that code yields a candidate for a stored value
    that starts with [http] or contains a slash, it is the key
    [extractPublicId] resolves the same value to. *)
Theorem derived_candidate_is_extracted (u d : string) :
  startsWith "http" u || includes "/" u = true ->
  derived_candidates URL_pathname u = [d] ->
  extractPublicId URL_pathname (Some u) = Normal (Some d).
Proof.
  intros Hshape Hd.
  assert (Hne : nonempty u = true) by (now destruct u).
  unfold extractPublicId. rewrite Hne. cbn [negb].
  replace (negb (startsWith "http" u) && negb (includes "/" u)) with false
    by (now rewrite <- negb_orb, Hshape).
  unfold derived_candidates in Hd. unfold extractPublicId_try, new_URL.
  destruct (URL_pathname u) as [p|].
  - cbv [bind try_catch pathname]. cbv beta iota zeta in Hd |- *.
    match type of Hd with
    | (if nonempty ?j then _ else _) = _ => destruct (nonempty j) eqn:Hj
    end; [| discriminate].
    now injection Hd as <-.
  - cbv [bind try_catch].
    destruct (pop (split "/" u)) as [last|] eqn:Hpop; [| discriminate].
    destruct (nonempty last) eqn:Hl; [| discriminate].
    injection Hd as <-.
    rewrite extractPublicId_catch_value.
    now rewrite (pop_filter_last _ _ Hpop Hl).
Qed.

End AwardRequests.

Lemma derived_candidate_is_extracted_witness :
  extractPublicId PlainURL.plain_URL_pathname
    (Some "https://res.cloudinary.com/demo/image/upload/v1/events/awards/w.jpg") =
  Normal (Some "events/awards/w").
Proof.
  apply (derived_candidate_is_extracted PlainURL.plain_URL_pathname
           "https://res.cloudinary.com/demo/image/upload/v1/events/awards/w.jpg"
           "events/awards/w");
    reflexivity.
Defined.

(** ** Accounts *)

Section EmailFacts.

Lemma lower_char_idem (c : ascii) : lower_char (lower_char c) = lower_char c.
Proof. destruct c as [[] [] [] [] [] [] [] []]; reflexivity. Qed.

Lemma is_space_lower_char (c : ascii) : is_space (lower_char c) = is_space c.
Proof. destruct c as [[] [] [] [] [] [] [] []]; reflexivity. Qed.

Lemma toLowerCase_idem (s : string) : toLowerCase (toLowerCase s) = toLowerCase s.
Proof.
  induction s as [|c s IH]; simpl; [reflexivity |].
  now rewrite lower_char_idem, IH.
Qed.

Lemma toLowerCase_trimStart (s : string) :
  toLowerCase (trimStart s) = trimStart (toLowerCase s).
Proof.
  induction s as [|c s IH]; simpl; [reflexivity |].
  rewrite is_space_lower_char. now destruct (is_space c).
Qed.

Lemma toLowerCase_trimEnd (s : string) :
  toLowerCase (trimEnd s) = trimEnd (toLowerCase s).
Proof.
  induction s as [|c s IH]; simpl; [reflexivity |].
  rewrite <- IH, is_space_lower_char.
  destruct (trimEnd s); simpl; [now destruct (is_space c) | reflexivity].
Qed.

Lemma toLowerCase_trim (s : string) : toLowerCase (trim s) = trim (toLowerCase s).
Proof. unfold trim. now rewrite toLowerCase_trimEnd, toLowerCase_trimStart. Qed.

Lemma trimEnd_idem (s : string) : trimEnd (trimEnd s) = trimEnd s.
Proof.
  induction s as [|c s IH]; simpl; [reflexivity |].
  destruct (trimEnd s) as [|d r] eqn:E.
  - destruct (is_space c) eqn:Hc; simpl; [reflexivity | now rewrite Hc].
  - cbn [trimEnd] in IH |- *. now rewrite IH.
Qed.

(** A string that does not start with white space keeps its first
    character under [trimEnd]. *)
Lemma trimEnd_head (c : ascii) (s : string) :
  is_space c = false -> exists r, trimEnd (String c s) = String c r.
Proof.
  intros Hc. simpl. destruct (trimEnd s); [rewrite Hc |]; now eexists.
Qed.

Lemma trimStart_cases (s : string) :
  trimStart s = "" \/ exists c r, trimStart s = String c r /\ is_space c = false.
Proof.
  induction s as [|c s IH]; simpl; [now left |].
  destruct (is_space c) eqn:Hc; [exact IH |]. right. now exists c, s.
Qed.

Lemma trim_idem (s : string) : trim (trim s) = trim s.
Proof.
  unfold trim. destruct (trimStart_cases s) as [-> | (c & r & -> & Hc)];
    [reflexivity |].
  destruct (trimEnd_head c r Hc) as [r' Hr]. rewrite Hr.
  cbn [trimStart]. rewrite Hc, <- Hr. apply trimEnd_idem.
Qed.

Lemma normalize_email_idem (s : string) :
  normalize_email (normalize_email s) = normalize_email s.
Proof.
  unfold normalize_email.
  now rewrite toLowerCase_trim, toLowerCase_idem, trim_idem.
Qed.

End EmailFacts.

Section AccountFacts.

Variable ADMIN_KEY : option string.
Variable bcrypt_hash : string -> string.
Variable bcrypt_compare : string -> string -> bool.
Variable new_id : list StoredUser -> string.
Variable jwt_sign : JwtPayload -> Completion string.

Lemma key_accepted (key : option string) :
  negb (truthy key) || negb (strict_eq_opt key ADMIN_KEY) = false ->
  exists k, key = Some k /\ ADMIN_KEY = Some k /\ nonempty k = true.
Proof.
  intros H. apply orb_false_iff in H as [Ht He].
  apply negb_false_iff in Ht, He.
  destruct key as [k|]; [| discriminate].
  destruct ADMIN_KEY as [k'|]; [| discriminate].
  simpl in He. apply String.eqb_eq in He as <-. now exists k.
Qed.

Lemma find_none_email (us : list StoredUser) (e : string) :
  List.find (fun u => (su_email u =? e)%string) us = None ->
  ~ In e (List.map su_email us).
Proof.
  intros Hfind Hin. apply in_map_iff in Hin as (u & <- & Hu).
  pose proof (find_none _ _ Hfind u Hu) as H. cbv beta in H.
  now rewrite String.eqb_refl in H.
Qed.

Lemma accounts_wf_add (us : list StoredUser) (u : StoredUser) :
  accounts_wf us ->
  ~ In (su_email u) (List.map su_email us) ->
  normalize_email (su_email u) = su_email u -> nonempty (su_email u) = true ->
  accounts_wf (us ++ [u]).
Proof.
  intros [Hnd Hall] Hfresh Hnorm Hne. split.
  - rewrite List.map_app. simpl. apply NoDup_app. split; [exact Hnd |].
    split; [| apply NoDup_singleton].
    intros e He Heu. rewrite list_elem_of_In in He.
    apply list_elem_of_singleton in Heu as ->. contradiction.
  - intros u' Hu'. apply in_app_or in Hu' as [Hu' | [<- | []]]; [now apply Hall |].
    now split.
Qed.

(** X16.  Accounts are created by a registration that carries the admin
    key, and by nothing else.  Whatever the account store does, a call
    of the registration route answers, keeps the collection's invariant
    (addresses stored normalised, not empty, no two alike), and leaves
    the collection as it was unless the [x-admin-key] header is a
    non-empty value equal to [ADMIN_KEY]; then it may append one account,
    whose address is the normalised address of the request and was not
    in the collection, and the answer is 201 with that account. *)
Theorem register_step (env : AuthEnv) (w : AuthWorld) (key email password : option string) :
  accounts_wf (accounts w) ->
  exists r w',
    register ADMIN_KEY bcrypt_hash new_id key email password env w = (Normal r, w') /\
    accounts_wf (accounts w') /\
    (accounts w' = accounts w /\ auth_status r <> 201 \/
     exists k u,
       key = Some k /\ ADMIN_KEY = Some k /\ nonempty k = true /\
       accounts w' = accounts w ++ [u] /\
       su_email u = normalize_email (string_of email) /\
       su_passwordHash u = bcrypt_hash (string_of password) /\
       ~ In (su_email u) (List.map su_email (accounts w)) /\
       r = {| auth_status := 201;
              auth_body := AuthCreated (safeUser u) "Admin user created" |}).
Proof.
  intros Hwf. unfold register, try_catchA.
  destruct (negb (truthy key) || negb (strict_eq_opt key ADMIN_KEY)) eqn:Hkey.
  { eexists _, _. split; [reflexivity |]. split; [exact Hwf |]. left.
    split; [reflexivity | discriminate]. }
  destruct (key_accepted key Hkey) as (k & Hk & Hadmin & Hne).
  destruct (negb (truthy email) || negb (truthy password)).
  { eexists _, _. split; [reflexivity |]. split; [exact Hwf |]. left.
    split; [reflexivity | discriminate]. }
  unfold abind at 1. unfold AdminUser_findOne.
  destruct (accounts_fail env (account_ops w)).
  { eexists _, _. split; [reflexivity |]. split; [exact Hwf |]. left.
    split; [reflexivity | discriminate]. }
  destruct (List.find _ (accounts w)) as [existing|] eqn:Hfind.
  { eexists _, _. split; [reflexivity |]. split; [exact Hwf |]. left.
    split; [reflexivity | discriminate]. }
  unfold abind, AdminUser_create. cbn [accounts account_ops count_account_op].
  destruct (nonempty (normalize_email (string_of email))) eqn:Hemail; cbn [negb].
  2:{ eexists _, _. split; [reflexivity |]. split; [exact Hwf |]. left.
      split; [reflexivity | discriminate]. }
  destruct (accounts_fail env (S (account_ops w))).
  { eexists _, _. split; [reflexivity |]. split; [exact Hwf |]. left.
    split; [reflexivity | discriminate]. }
  eexists _, _. split; [reflexivity |]. cbn [accounts].
  apply find_none_email in Hfind.
  split.
  - apply accounts_wf_add; try assumption. apply normalize_email_idem.
  - right. eexists k, _. repeat split; try eassumption; reflexivity.
Qed.

Lemma find_app_new (us : list StoredUser) (u : StoredUser) (q : StoredUser -> bool) :
  List.find q us = None -> q u = true -> List.find q (us ++ [u]) = Some u.
Proof.
  induction us as [|a us IH]; simpl; intros Hnone Hu; [now rewrite Hu |].
  destruct (q a); [discriminate | now apply IH].
Qed.

Lemma find_id_fresh (us : list StoredUser) (id : string) :
  (forall u, In u us -> su_id u <> id) ->
  List.find (fun u => (su_id u =? id)%string) us = None.
Proof.
  intros H. induction us as [|a us IH]; simpl; [reflexivity |].
  destruct (String.eqb_spec (su_id a) id) as [E | _].
  - exfalso. apply (H a); [now left | exact E].
  - apply IH. intros u Hu. apply H. now right.
Qed.

(** X17.  Register, log in, pass the gate.  With the account store
    available, a registration that carries the admin key, for an address
    not yet in the collection, answers 201; from then on a login with
    that password and any spelling of the address that normalises to the
    same one (other case, white space around it) answers 200 with the
    signed token and the account without its hash, whereas a password
    the hash does not match gets the same 401 as an address that is not
    in the collection; and when the token verifies to what was signed,
    the gate lets a request bearing it through as that account.  The
    hashing and signing functions are parameters, assumed only to accept
    the password they hashed and to sign. *)
Theorem login_after_register (jwt_verify : option string -> Completion JwtPayload)
    (env : AuthEnv) (w : AuthWorld) (k email email' password token : string) :
  let e := normalize_email email in
  let u := {| su_id := new_id (accounts w); su_email := e;
              su_passwordHash := bcrypt_hash password; su_role := "admin" |} in
  let payload := {| jwt_id := Some (su_id u); jwt_email := Some e;
                    jwt_role := Some "admin" |} in
  accounts_up env ->
  ADMIN_KEY = Some k -> nonempty k = true ->
  nonempty password = true -> nonempty e = true ->
  List.find (fun a => (su_email a =? e)%string) (accounts w) = None ->
  normalize_email email' = e ->
  bcrypt_compare password (bcrypt_hash password) = true ->
  jwt_sign payload = Normal token ->
  exists w1,
    register ADMIN_KEY bcrypt_hash new_id (Some k) (Some email) (Some password) env w =
      (Normal {| auth_status := 201;
                 auth_body := AuthCreated (safeUser u) "Admin user created" |}, w1) /\
    accounts w1 = accounts w ++ [u] /\
    login bcrypt_compare jwt_sign (Some email') (Some password) env w1 =
      (Normal {| auth_status := 200; auth_body := AuthSession token (safeUser u) |},
       count_account_op w1) /\
    (forall wrong unknown,
       nonempty wrong = true -> bcrypt_compare wrong (bcrypt_hash password) = false ->
       nonempty unknown = true ->
       List.find (fun a => (su_email a =? normalize_email unknown)%string)
         (accounts w1) = None ->
       login bcrypt_compare jwt_sign (Some email') (Some wrong) env w1 =
       login bcrypt_compare jwt_sign (Some unknown) (Some password) env w1 /\
       fst (login bcrypt_compare jwt_sign (Some email') (Some wrong) env w1) =
         Normal {| auth_status := 401;
                   auth_body := AuthMessage "Invalid credentials" |}) /\
    (jwt_verify (Some token) = Normal payload -> no_space token = true ->
     nonempty (new_id (accounts w)) = true ->
     (forall a, In a (accounts w) -> su_id a <> new_id (accounts w)) ->
     authMiddleware jwt_verify (findById_in (accounts w1)) ADMIN_KEY
       {| authorization := Some ("Bearer " +++ token); x_admin_key := None |} =
     Normal (Next (Account (safeUser u)))).
Proof.
  intros e u payload Hup Hadmin Hk Hpw He Hfresh Hsame Hcmp Hsign.
  assert (Hemail : nonempty email = true).
  { destruct email; [discriminate He | reflexivity]. }
  assert (Hemail' : nonempty email' = true).
  { destruct email'; [| reflexivity]. fold e in Hsame.
    rewrite <- Hsame in He. discriminate He. }
  set (w1 := {| accounts := accounts w ++ [u]; account_ops := S (S (account_ops w)) |}).
  assert (Hlogin : forall em pw,
            nonempty em = true -> nonempty pw = true ->
            login bcrypt_compare jwt_sign (Some em) (Some pw) env w1 =
            match List.find (fun a => (su_email a =? normalize_email em)%string)
                    (accounts w1) with
            | None =>
                (Normal {| auth_status := 401;
                           auth_body := AuthMessage "Invalid credentials" |},
                 count_account_op w1)
            | Some a =>
                if bcrypt_compare pw (su_passwordHash a)
                then
                  match jwt_sign {| jwt_id := Some (su_id a);
                                    jwt_email := Some (su_email a);
                                    jwt_role := Some (su_role a) |} with
                  | Normal t =>
                      (Normal {| auth_status := 200;
                                 auth_body := AuthSession t (safeUser a) |},
                       count_account_op w1)
                  | Throw err =>
                      (Normal {| auth_status := 500; auth_body := AuthMessage err |},
                       count_account_op w1)
                  end
                else
                  (Normal {| auth_status := 401;
                             auth_body := AuthMessage "Invalid credentials" |},
                   count_account_op w1)
            end).
  { intros em pw Hem Hp. unfold login, try_catchA, abind, AdminUser_findOne.
    unfold truthy, nonempty in Hem, Hp |- *. rewrite Hem, Hp.
    cbn [negb orb string_of]. rewrite Hup.
    destruct (List.find _ (accounts w1)) as [a|]; [| reflexivity].
    destruct (bcrypt_compare pw (su_passwordHash a)); [| reflexivity].
    cbn [negb].
    now destruct (jwt_sign {| jwt_id := Some (su_id a); jwt_email := Some (su_email a);
                              jwt_role := Some (su_role a) |}). }
  assert (Hfind1 : List.find (fun a => (su_email a =? e)%string) (accounts w1) = Some u).
  { apply find_app_new; [exact Hfresh |]. apply String.eqb_refl. }
  exists w1. split.
  { unfold register, try_catchA, abind, AdminUser_findOne, AdminUser_create.
    rewrite Hadmin. unfold truthy, strict_eq_opt. unfold nonempty in Hk, Hemail, Hpw.
    rewrite Hk, Hemail, Hpw, String.eqb_refl. cbn [negb orb string_of].
    rewrite Hup. fold e. rewrite Hfresh.
    cbn [accounts account_ops count_account_op]. rewrite He, Hup. reflexivity. }
  split; [reflexivity |].
  split.
  { rewrite (Hlogin email' password Hemail' Hpw), Hsame, Hfind1.
    cbn [su_passwordHash u]. rewrite Hcmp.
    change (jwt_sign payload) with
      (jwt_sign {| jwt_id := Some (su_id u); jwt_email := Some (su_email u);
                   jwt_role := Some (su_role u) |}) in Hsign.
    now rewrite Hsign. }
  split.
  { intros wrong unknown Hwrong Hbad Hunknown Hnone.
    rewrite (Hlogin email' wrong Hemail' Hwrong), Hsame, Hfind1.
    rewrite (Hlogin unknown password Hunknown Hpw), Hnone.
    cbn [su_passwordHash u]. rewrite Hbad. now split. }
  intros Hverify Hspace Hid Hids.
  assert (Hres : TokenResolves jwt_verify (findById_in (accounts w1))
                   (Some token) (safeUser u)).
  { apply (token_resolves _ _ _ _ payload (new_id (accounts w)));
      [exact Hverify | reflexivity | exact Hid |].
    unfold findById_in.
    rewrite (find_app_new (accounts w) u); [reflexivity | | apply String.eqb_refl].
    now apply find_id_fresh. }
  unfold authMiddleware.
  rewrite (bearer_user_token jwt_verify (findById_in (accounts w1))
             {| authorization := Some ("Bearer " +++ token); x_admin_key := None |}
             "Bearer" token eq_refl eq_refl Hspace).
  now rewrite (verifyJwtToken_resolves _ _ _ _ Hres).
Qed.

(** X23.  Registration checks the admin key with code of its own
    ([!key || key !== ADMIN_KEY]), and it refuses exactly the keys the
    gate refuses: the registration route answers 401 if and only if
    [authMiddleware] answers 401 to a request whose only credential is
    that [x-admin-key] header. *)
Theorem register_key_is_gate_key (jwt_verify : option string -> Completion JwtPayload)
    (AdminUser_findById : string -> Completion (option AdminUser))
    (env : AuthEnv) (w : AuthWorld) (key email password : option string) :
  (exists b w',
     register ADMIN_KEY bcrypt_hash new_id key email password env w =
       (Normal {| auth_status := 401; auth_body := b |}, w')) <->
  authMiddleware jwt_verify AdminUser_findById ADMIN_KEY
    {| authorization := None; x_admin_key := key |} =
  Normal (Respond 401 "Unauthorized").
Proof.
  unfold authMiddleware, bearer_user, register, try_catchA. simpl.
  replace (negb (truthy key) || negb (strict_eq_opt key ADMIN_KEY))
    with (negb (truthy key && strict_eq_opt key ADMIN_KEY))
    by apply negb_andb.
  destruct (truthy key && strict_eq_opt key ADMIN_KEY); simpl.
  - split; [| discriminate]. intros (b & w' & H). exfalso.
    destruct (negb (truthy email) || negb (truthy password)); [discriminate |].
    unfold abind, AdminUser_findOne, AdminUser_create, ajson, aret in H.
    destruct (accounts_fail env (account_ops w)); [discriminate |].
    destruct (List.find _ (accounts w)); [discriminate |].
    cbn [accounts account_ops count_account_op] in H.
    destruct (negb (nonempty (normalize_email (string_of email)))); [discriminate |].
    destruct (accounts_fail env (S (account_ops w))); discriminate.
  - split; [reflexivity |]. intros _. now eexists _, _.
Qed.

End AccountFacts.

Lemma no_accounts_wf : accounts_wf (accounts no_accounts).
Proof. split; [constructor | intros u []]. Qed.

Lemma register_step_witness :
  exists r w',
    register (Some "s3cret") demo_hash demo_new_id
      (Some "s3cret") (Some " Admin@FilmFest.org ") (Some "correct horse")
      accounts_ok no_accounts = (Normal r, w') /\
    accounts_wf (accounts w').
Proof.
  destruct (register_step (Some "s3cret") demo_hash demo_new_id accounts_ok no_accounts
              (Some "s3cret") (Some " Admin@FilmFest.org ") (Some "correct horse")
              no_accounts_wf)
    as (r & w' & Hrun & Hwf & _).
  exists r, w'. split; [exact Hrun | exact Hwf].
Defined.

Lemma login_after_register_witness :
  exists w1,
    login demo_compare demo_sign (Some "admin@filmfest.org") (Some "correct horse")
      accounts_ok w1 =
    (Normal {| auth_status := 200;
               auth_body := AuthSession "header.payload.signature" demo_admin |},
     count_account_op w1).
Proof.
  destruct (login_after_register (Some "s3cret") demo_hash demo_compare demo_new_id
              demo_sign demo_jwt_verify accounts_ok no_accounts
              "s3cret" " Admin@FilmFest.org " "admin@filmfest.org" "correct horse"
              "header.payload.signature"
              (fun n => eq_refl) eq_refl eq_refl eq_refl eq_refl eq_refl eq_refl
              eq_refl eq_refl)
    as (w1 & _ & _ & Hlogin & _).
  exists w1. exact Hlogin.
Defined.

(** ** The content routes when the document store fails *)

Section EditFailures.

Variable URL_parse : string -> option ParsedURL.
Variable String_cast_other : bool -> string -> Completion string.

(** The outcome [res] of a handler that writes year [y], started in [w]:
    the handler answers, no other year changes, no deletion request is
    sent to the remote store, an answer 400 is given before any
    operation on the document store, and after an answer 500 the
    collection is as it was, except that a year that had no record may
    have been given the empty one. *)
Let edit_outcome (y : Z) (w : World) (res : Completion Response * World) : Prop :=
  exists r w',
    res = (Normal r, w') /\
    destroy_log w' = destroy_log w /\
    (forall y', y' <> y -> db w' !! y' = db w !! y') /\
    (status r = 400 -> w' = w) /\
    (status r = 500 ->
     db w' = db w \/
     db w !! y = None /\ db w' = <[y := empty_content y]> (db w)).

Lemma edit_outcome_answer (y : Z) (w w0 : World) (st : nat) (b : Body) :
  destroy_log w0 = destroy_log w ->
  (forall y', y' <> y -> db w0 !! y' = db w !! y') ->
  (st = 400 -> w0 = w) ->
  (st = 500 ->
   db w0 = db w \/ db w !! y = None /\ db w0 = <[y := empty_content y]> (db w)) ->
  edit_outcome y w (Normal {| status := st; body := b |}, w0).
Proof. intros Hlog Hother H400 H500. now eexists _, _. Qed.

Lemma getOrCreate_then_save_any (env : Env) (w : World) (y : Z)
    (step : Completion (Content -> Content)) (err500 : string -> Body) :
  db_wf (db w) ->
  (forall change, step = Normal change -> forall doc, year (change doc) = year doc) ->
  edit_outcome y w
    (try_catchM
       (do doc <- getOrCreateContentByYear y;
        do change <- lift step;
        let doc := change doc in
        run save doc;
        json 200 (JsonDoc doc))
       (fun err => json 500 (err500 err)) env w).
Proof.
  intros Hwf Hstep.
  unfold try_catchM, mbind, getOrCreateContentByYear, mbind.
  destruct (findOne_cases env w y) as [-> | ->].
  { apply edit_outcome_answer; try reflexivity; [discriminate | now left]. }
  destruct (db w !! y) as [doc|] eqn:Hdoc.
  - unfold ret, lift. destruct step as [change|e].
    + pose proof (Hstep change eq_refl) as Hyear.
      destruct (save_cases env (count_db_op w) (change doc)) as [-> | ->].
      * apply edit_outcome_answer; try reflexivity; [discriminate | now left].
      * apply edit_outcome_answer; simpl; try reflexivity; try discriminate.
        intros y' Hy'. rewrite Hyear, (Hwf y doc Hdoc). now apply lookup_insert_ne.
    + apply edit_outcome_answer; try reflexivity; [discriminate | now left].
  - destruct (save_cases env (count_db_op w) (empty_content y)) as [-> | ->].
    + apply edit_outcome_answer; try reflexivity; [discriminate | now left].
    + unfold ret, lift. destruct step as [change|e].
      * pose proof (Hstep change eq_refl) as Hyear.
        match goal with
        | |- context [save (change ?d) env ?w0] =>
            destruct (save_cases env w0 (change d)) as [-> | ->]
        end.
        -- apply edit_outcome_answer; simpl; try reflexivity; try discriminate.
           ++ intros y' Hy'. now apply lookup_insert_ne.
           ++ intros _. right. now split.
        -- apply edit_outcome_answer; simpl; try reflexivity; try discriminate.
           intros y' Hy'. rewrite Hyear. simpl.
           rewrite lookup_insert_ne by congruence. now apply lookup_insert_ne.
      * apply edit_outcome_answer; simpl; try reflexivity; try discriminate.
        -- intros y' Hy'. now apply lookup_insert_ne.
        -- intros _. right. now split.
Qed.

(** X18.  The handlers of the four routes that write a year's media
    under failures of the document store.  Each handler answers; no
    other year changes and the handler sends no deletion request to the
    remote store; an answer 400 is given before any operation on the
    document store; and after an answer 500 the collection is as it was,
    except that a year that had no record may have been given the empty
    one: the record [getOrCreateContentByYear] stores stays when the
    save that follows fails.  (The files the upload middleware stored
    before the handler ran stay in the remote store in every case; they
    are not part of the state described here.) *)
Theorem edit_under_failures (env : Env) (w : World) (y : Z) (op : Edit) :
  db_wf (db w) ->
  exists r w',
    edit URL_parse String_cast_other (Some y) op env w = (Normal r, w') /\
    destroy_log w' = destroy_log w /\
    (forall y', y' <> y -> db w' !! y' = db w !! y') /\
    (status r = 400 -> w' = w) /\
    (status r = 500 ->
     db w' = db w \/
     db w !! y = None /\ db w' = <[y := empty_content y]> (db w)).
Proof.
  intros Hwf.
  change (edit_outcome y w (edit URL_parse String_cast_other (Some y) op env w)).
  destruct op as [v | f | files c | files]; unfold edit.
  - unfold putVideo.
    destruct (negb (field_truthy v)).
    { apply edit_outcome_answer; try reflexivity; discriminate. }
    destruct (toYouTubeEmbed_cases URL_parse v) as [(e & He & _) | (He & _)].
    + assert (Hred : forall step,
                (forall link, cast_videoLink String_cast_other e = Normal link ->
                              step = Normal (fun doc => set_videoLink doc link)) ->
                (forall err, cast_videoLink String_cast_other e = Throw err ->
                             step = Throw err) ->
                edit_outcome y w
                  (try_catchM
                     (do doc <- getOrCreateContentByYear y;
                      do change <- lift step;
                      let doc := change doc in
                      run save doc;
                      json 200 (JsonDoc doc))
                     (fun err => json 500 (JsonMessage err)) env w) ->
                edit_outcome y w
                  (try_catchM
                     (do embed <- lift (toYouTubeEmbed URL_parse v);
                      do doc <- getOrCreateContentByYear y;
                      do link <- lift (cast_videoLink String_cast_other embed);
                      let doc := set_videoLink doc link in
                      run save doc;
                      json 200 (JsonDoc doc))
                     (fun err => json 500 (JsonMessage err)) env w)).
      { intros step Hn Ht (r & w' & Hrun & Hrest). exists r, w'.
        split; [| exact Hrest]. rewrite <- Hrun.
        unfold try_catchM, mbind at 1, lift at 1. rewrite He.
        unfold mbind at 2 4, lift.
        destruct (cast_videoLink String_cast_other e) as [link|err].
        - now rewrite (Hn link eq_refl).
        - now rewrite (Ht err eq_refl). }
      destruct (cast_videoLink String_cast_other e) as [link|err] eqn:Hcast.
      * apply (Hred (Normal (fun doc => set_videoLink doc link))).
        -- intros l Hl. now injection Hl as <-.
        -- discriminate.
        -- apply getOrCreate_then_save_any; [exact Hwf |].
           intros change Hc. now injection Hc as <-.
      * apply (Hred (Throw err)).
        -- discriminate.
        -- intros e' He'. now injection He' as <-.
        -- apply getOrCreate_then_save_any; [exact Hwf | discriminate].
    + unfold try_catchM, mbind at 1, lift at 1. rewrite He.
      apply edit_outcome_answer;
        first [reflexivity | discriminate | now intros _ | now left].
  - unfold postVideoFile. destruct f as [f0|].
    + assert (H := getOrCreate_then_save_any env w y
               (Normal (fun doc => set_videoLink doc (file_path f0))) JsonMessage Hwf).
      apply H. intros change Hc. now injection Hc as <-.
    + apply edit_outcome_answer; try reflexivity; discriminate.
  - unfold postPhotos. destruct files as [|f0 files].
    + apply edit_outcome_answer; try reflexivity; discriminate.
    + assert (H := getOrCreate_then_save_any env w y
               (Normal (fun doc => set_photos doc
                          (photos doc ++ List.map (photo_entry c) (f0 :: files))))
               (JsonError "Server error") Hwf).
      apply H. intros change Hc. now injection Hc as <-.
  - unfold postPartners. destruct files as [|f0 files].
    + apply edit_outcome_answer; try reflexivity; discriminate.
    + assert (H := getOrCreate_then_save_any env w y
               (Normal (fun doc => set_partners doc
                          (partners doc ++ List.map partner_entry (f0 :: files))))
               (JsonError "Server error") Hwf).
      apply H. intros change Hc. now injection Hc as <-.
Qed.

End EditFailures.

Lemma edit_under_failures_witness :
  exists r w',
    edit PlainVideoURL.URL_parse refuse_cast (Some 2025%Z)
      (PostPhotos
         [{| file_path :=
               Some "https://res.cloudinary.com/demo/image/upload/v1/events/photos/25-a.jpg";
             file_filename := Some "events/photos/25-a";
             file_public_id := None |}]
         None)
      (store_fails_at 2) (world_of gallery_2024) = (Normal r, w') /\
    (status r = 500 ->
     db w' = db (world_of gallery_2024) \/
     db (world_of gallery_2024) !! 2025%Z = None /\
     db w' = <[2025%Z := empty_content 2025]> (db (world_of gallery_2024))).
Proof.
  destruct (edit_under_failures PlainVideoURL.URL_parse refuse_cast
              (store_fails_at 2) (world_of gallery_2024) 2025
              (PostPhotos
                 [{| file_path :=
                       Some "https://res.cloudinary.com/demo/image/upload/v1/events/photos/25-a.jpg";
                     file_filename := Some "events/photos/25-a";
                     file_public_id := None |}]
                 None)
              (world_of_wf gallery_2024))
    as (r & w' & Hrun & _ & _ & _ & H500).
  exists r, w'. split; [exact Hrun | exact H500].
Defined.

(** The third operation on the document store fails: the upload to a new
    year is answered 500, and the empty record of that year stays. *)
Example postPhotos_save_fails :
  exists w',
    postPhotos (Some 2025%Z)
      [{| file_path :=
            Some "https://res.cloudinary.com/demo/image/upload/v1/events/photos/25-a.jpg";
          file_filename := Some "events/photos/25-a";
          file_public_id := None |}]
      None (store_fails_at 2) (world_of gallery_2024) =
    (Normal {| status := 500; body := JsonError "Server error" db_error |}, w') /\
    db w' = <[2025%Z := empty_content 2025]> (db (world_of gallery_2024)).
Proof. eexists. split; reflexivity. Qed.

(** ** The gallery page and the admin panel *)

Section ClientFacts.

Lemma nextPhoto_mod (len i : Z) :
  (0 < len)%Z -> (0 <= i < len)%Z -> nextPhoto len i = ((i + 1) mod len)%Z.
Proof.
  intros Hlen Hi. unfold nextPhoto.
  destruct (Z.eqb_spec i (len - 1)) as [-> | Hne].
  - replace (len - 1 + 1)%Z with len by lia. now rewrite Z.mod_same by lia.
  - rewrite Z.mod_small by lia. reflexivity.
Qed.

(** X19.  The photo carousel.  In a gallery of [len > 0] photos, with
    the index in range, "next" and "previous" keep the index in range and
    undo each other, the modal's "previous" agrees with the page's, and
    [n] steps forward from [i] show photo [(i + n) mod len]: the carousel
    walks through all the photos and comes back. *)
Theorem carousel_cycle (len i : Z) (n : nat) :
  (0 < len)%Z -> (0 <= i < len)%Z ->
  (0 <= nextPhoto len i < len)%Z /\
  (0 <= prevPhoto len i < len)%Z /\
  prevPhoto len (nextPhoto len i) = i /\
  nextPhoto len (prevPhoto len i) = i /\
  prevModalImage len i = prevPhoto len i /\
  Nat.iter n (nextPhoto len) i = ((i + Z.of_nat n) mod len)%Z.
Proof.
  intros Hlen Hi.
  split; [unfold nextPhoto; destruct (Z.eqb_spec i (len - 1)); lia |].
  split; [unfold prevPhoto; destruct (Z.eqb_spec i 0); lia |].
  split.
  { unfold nextPhoto, prevPhoto.
    destruct (Z.eqb_spec i (len - 1)); simpl; [lia |].
    destruct (Z.eqb_spec (i + 1) 0); lia. }
  split.
  { unfold nextPhoto, prevPhoto.
    destruct (Z.eqb_spec i 0).
    - destruct (Z.eqb_spec (Z.max 0 (len - 1)) (len - 1)); lia.
    - destruct (Z.eqb_spec (i - 1) (len - 1)); lia. }
  split.
  { unfold prevModalImage, prevPhoto. destruct (Z.eqb_spec i 0); lia. }
  induction n as [|n IH].
  - simpl. rewrite Z.add_0_r, Z.mod_small by lia. reflexivity.
  - rewrite Nat.iter_succ, IH.
    rewrite nextPhoto_mod by (try apply Z.mod_pos_bound; lia).
    rewrite Zplus_mod_idemp_l. f_equal. lia.
Qed.

Lemma existsb_eqb_In (id : string) (xs : list string) :
  existsb (fun x => (x =? id)%string) xs = true <-> In id xs.
Proof.
  rewrite existsb_exists. split.
  - intros (x & Hx & E). apply String.eqb_eq in E as ->. exact Hx.
  - intros H. exists id. split; [exact H | apply String.eqb_refl].
Qed.

(** X20.  Toggling a photo in the admin panel's selection flips that
    photo and no other: afterwards an identifier is selected exactly when
    it is the toggled one and was not selected, or is another one and was
    selected.  A selection without repetitions stays without, and
    toggling an unselected photo twice gives back the very selection. *)
Theorem togglePhotoSelection_flips (id : string) (prev : list string) :
  (forall x, In x (togglePhotoSelection id prev) <->
             (x = id /\ ~ In id prev) \/ (x <> id /\ In x prev)) /\
  (NoDup prev -> NoDup (togglePhotoSelection id prev)) /\
  (~ In id prev -> togglePhotoSelection id (togglePhotoSelection id prev) = prev).
Proof.
  unfold togglePhotoSelection.
  destruct (existsb (fun x => (x =? id)%string) prev) eqn:E.
  - apply existsb_eqb_In in E.
    split; [| split].
    + intros x. rewrite filter_In, negb_true_iff, String.eqb_neq. split.
      * intros [Hx Hne]. right. now split.
      * intros [[-> Hn] | [Hne Hx]]; [contradiction | now split].
    + intros Hnd. apply NoDup_ListNoDup. apply List.NoDup_filter.
      now apply NoDup_ListNoDup.
    + intros Hn. contradiction.
  - assert (Hn : ~ In id prev).
    { intros Hin. apply existsb_eqb_In in Hin. rewrite Hin in E. discriminate. }
    split; [| split].
    + intros x. rewrite in_app_iff. simpl. split.
      * intros [Hx | [<- | []]]; [right | left; now split].
        split; [| exact Hx]. intros ->. contradiction.
      * intros [[-> _] | [_ Hx]]; [right; now left | now left].
    + intros Hnd. apply NoDup_app. split; [exact Hnd |].
      split; [| apply NoDup_singleton].
      intros x Hx Hid. apply list_elem_of_singleton in Hid as ->.
      now rewrite list_elem_of_In in Hx.
    + intros _.
      replace (existsb (fun x => (x =? id)%string) (prev ++ [id])) with true.
      * rewrite List.filter_app. simpl. rewrite String.eqb_refl. simpl.
        rewrite app_nil_r. apply filter_true. intros x Hx.
        apply negb_true_iff, String.eqb_neq. intros ->. contradiction.
      * symmetry. apply existsb_eqb_In, in_or_app. right. now left.
Qed.

End ClientFacts.

Lemma carousel_cycle_witness :
  Nat.iter 5 (nextPhoto 3) 1%Z = ((1 + Z.of_nat 5) mod 3)%Z.
Proof.
  apply (carousel_cycle 3 1 5); lia.
Defined.

(** ** Deleting the same photo again and again *)

Section Progress.

Variable URL_pathname : string -> option string.

Lemma filter_length_lt {A} (q : A -> bool) (xs : list A) (x : A) :
  In x xs -> q x = false -> (List.length (List.filter q xs) < List.length xs)%nat.
Proof.
  induction xs as [|a xs IH]; [contradiction |].
  intros [-> | Hin] Hq; simpl.
  - rewrite Hq. pose proof (List.filter_length_le q xs). lia.
  - specialize (IH Hin Hq). destruct (q a); simpl; lia.
Qed.

Lemma tag_length {A} (xs : list A) : List.length (tag xs) = List.length xs.
Proof.
  unfold tag. rewrite List.length_combine, List.length_seq. lia.
Qed.

Lemma kept_photos_shorter (i : nat) (photo : Image) (xs : list Image) (id : string) :
  find_tagged (locates id) xs = Some (i, photo) ->
  (List.length (untag (kept_photos i photo xs)) < List.length xs)%nat.
Proof.
  intros Hfind. apply find_tagged_Some in Hfind as [Hin _].
  unfold untag. rewrite List.length_map, <- (tag_length xs). unfold kept_photos.
  apply (filter_length_lt _ _ (i, photo) Hin). simpl.
  rewrite Nat.eqb_refl. apply andb_false_r.
Qed.

(** One call: 404, or 200 with a strictly shorter list of photos. *)
Lemma deletePhoto_progress (env : Env) (w : World) (y : Z) (id : string) :
  db_up env -> db_wf (db w) ->
  (exists b w',
     deletePhoto URL_pathname (Some y) id env w =
       (Normal {| status := 404; body := b |}, w')) \/
  (exists doc doc' w',
     db w !! y = Some doc /\
     deletePhoto URL_pathname (Some y) id env w =
       (Normal {| status := 200; body := JsonDoc doc' |}, w') /\
     db w' !! y = Some doc' /\ db_wf (db w') /\
     (List.length (photos doc') < List.length (photos doc))%nat).
Proof.
  intros Hup Hwf.
  destruct (db w !! y) as [doc|] eqn:Hdoc.
  - pose proof (Hwf y doc Hdoc) as Hy.
    destruct (find_tagged (locates id) (photos doc)) as [[i photo]|] eqn:Hfind.
    + right.
      pose proof (deletePhoto_found_run URL_pathname env w y id doc i photo
                    Hup Hdoc Hfind) as Hrun.
      cbv zeta in Hrun. rewrite drop_same_url_kept_photos in Hrun.
      eexists doc, _, _. split; [reflexivity |]. split; [exact Hrun |].
      split; [simpl; rewrite Hy; apply lookup_insert_eq |].
      split.
      * simpl. apply (db_wf_insert (db w)
                        (set_photos doc (untag (kept_photos i photo (photos doc))))
                        Hwf).
      * simpl. now apply (kept_photos_shorter i photo (photos doc) id).
    + left. eexists _, _.
      apply (deletePhoto_not_found_run URL_pathname env w y id doc Hup Hdoc Hfind).
  - left. eexists _, _.
    apply (deletePhoto_no_record_run URL_pathname env w y id Hup Hdoc).
Qed.

Lemma deletePhoto_ends_within (env : Env) (y : Z) (id : string) (bound : nat) :
  db_up env ->
  forall w,
    db_wf (db w) ->
    (List.length (photos (record_before w y)) <= bound)%nat ->
    exists n b w',
      (n <= bound)%nat /\
      deletePhoto URL_pathname (Some y) id env
        (deletePhoto_times URL_pathname n y id env w) =
        (Normal {| status := 404; body := b |}, w').
Proof.
  intros Hup. induction bound as [|bound IH]; intros w Hwf Hlen.
  - destruct (deletePhoto_progress env w y id Hup Hwf)
      as [(b & w' & Hrun) | (doc & doc' & w' & Hdoc & _ & _ & _ & Hlt)].
    + exists 0%nat, b, w'. split; [lia | exact Hrun].
    + unfold record_before in Hlen. rewrite Hdoc in Hlen. lia.
  - destruct (deletePhoto_progress env w y id Hup Hwf)
      as [(b & w' & Hrun) | (doc & doc' & w' & Hdoc & Hrun & Hdoc' & Hwf' & Hlt)].
    + exists 0%nat, b, w'. split; [lia | exact Hrun].
    + destruct (IH w' Hwf') as (n & b & w'' & Hn & Hend).
      { unfold record_before in Hlen |- *. rewrite Hdoc in Hlen. rewrite Hdoc'. lia. }
      exists (S n), b, w''. split; [lia |].
      simpl. now rewrite Hrun.
Qed.

(** X21.  Deleting the same photo again and again comes to an end.
    With the document store available, among the first
    [length photos + 1] calls of the delete-photo route with one
    identifier there is one that answers 404: every call answered 200
    has removed at least one entry. *)
Theorem deletePhoto_ends (env : Env) (w : World) (y : Z) (id : string) :
  db_up env -> db_wf (db w) ->
  exists n b w',
    (n <= List.length (photos (record_before w y)))%nat /\
    deletePhoto URL_pathname (Some y) id env
      (deletePhoto_times URL_pathname n y id env w) =
      (Normal {| status := 404; body := b |}, w').
Proof.
  intros Hup Hwf.
  now apply (deletePhoto_ends_within env y id _ Hup w Hwf).
Qed.

End Progress.

Lemma deletePhoto_ends_witness :
  exists n b w',
    (n <= 2)%nat /\
    deletePhoto PlainURL.plain_URL_pathname (Some 2024%Z) "events/photos/17-pic"
      remote_ok
      (deletePhoto_times PlainURL.plain_URL_pathname n 2024 "events/photos/17-pic"
         remote_ok (world_of batch_2024)) =
      (Normal {| status := 404; body := b |}, w').
Proof.
  apply (deletePhoto_ends PlainURL.plain_URL_pathname remote_ok (world_of batch_2024)
           2024 "events/photos/17-pic").
  - intros n. reflexivity.
  - apply world_of_wf.
Defined.

(** ** Uploading a partner logo and deleting it again *)

Section PartnerRoundTrip.

Variable URL_pathname : string -> option string.

Lemma kept_partners_app (xs : list Image) (x : Image) (ys : list Image) :
  untag (kept_partners (List.length xs) x (xs ++ x :: ys)) =
  List.filter
    (fun p => negb (truthy (public_id p) && strict_eq_opt (public_id p) (public_id x)))
    xs ++
  List.filter
    (fun p => negb (truthy (public_id p) && strict_eq_opt (public_id p) (public_id x)))
    ys.
Proof.
  unfold kept_partners, tag.
  rewrite <- (filter_from_at
                (fun p => negb (truthy (public_id p) &&
                                strict_eq_opt (public_id p) (public_id x))) xs x ys 0).
  f_equal. apply List.filter_ext. intros e. apply andb_comm.
Qed.

(** X22.  Uploading partner logos and deleting one again.  With the
    document store available, after a batch of logos is uploaded to a
    year, deleting one of them by the key it was stored under answers 200
    and removes that logo's entry and no other, and that key is the one
    request sent to the remote store.  It is assumed that the key is not
    empty, that it locates no older entry and no earlier logo of the
    batch, and that no later logo of the batch has the same key. *)
Theorem upload_then_deletePartner (env : Env) (w : World) (y : Z)
    (pre : list UploadedFile) (f : UploadedFile) (post : list UploadedFile)
    (k : string) :
  db_up env -> db_wf (db w) ->
  public_id (partner_entry f) = Some k -> nonempty k = true ->
  forallb (fun p => negb (locates k p))
    (partners (record_before w y) ++ List.map partner_entry pre) = true ->
  forallb (fun g => negb (strict_eq (public_id (partner_entry g)) k)) post = true ->
  exists r1 w1 doc2 w2,
    postPartners (Some y) (pre ++ f :: post) env w = (Normal r1, w1) /\
    deletePartner URL_pathname (Some y) k env w1 =
      (Normal {| status := 200; body := JsonDoc doc2 |}, w2) /\
    db w2 !! y = Some doc2 /\
    doc2 = set_partners (record_before w y)
             (partners (record_before w y) ++ List.map partner_entry (pre ++ post)) /\
    destroy_log w2 = destroy_log w ++ [k].
Proof.
  intros Hup Hwf Hkey Hk Hold Hpost.
  set (old := record_before w y).
  assert (Hy : year old = y).
  { unfold old, record_before. destruct (db w !! y) as [doc|] eqn:Hdoc; [| reflexivity].
    now apply Hwf. }
  set (doc1 := set_partners old
                 (partners old ++ List.map partner_entry (pre ++ f :: post))).
  assert (Hrun1 : exists w1,
            postPartners (Some y) (pre ++ f :: post) env w =
              (Normal {| status := 200; body := JsonDoc doc1 |}, w1) /\
            db w1 = <[y := doc1]> (db w) /\ destroy_log w1 = destroy_log w).
  { unfold postPartners, try_catchM.
    pose proof (getOrCreate_then_save env w y
                  (fun doc => set_partners doc
                     (partners doc ++ List.map partner_entry (pre ++ f :: post)))
                  Hup Hwf (fun _ => eq_refl)) as Hrun.
    cbv beta iota zeta in Hrun.
    destruct (pre ++ f :: post) as [|g gs] eqn:Hfiles;
      [now destruct pre |].
    rewrite Hrun. eexists. split; [reflexivity |].
    now split. }
  destruct Hrun1 as (w1 & Hrun1 & Hdb1 & Hlog1).
  assert (Hdoc1 : db w1 !! y = Some doc1).
  { rewrite Hdb1. apply lookup_insert_eq. }
  assert (Hpartners : partners doc1 = (partners old ++ List.map partner_entry pre) ++
                                      partner_entry f :: List.map partner_entry post).
  { unfold doc1. simpl. now rewrite List.map_app, app_assoc. }
  assert (Hfind : find_tagged (locates k) (partners doc1) =
                  Some (List.length (partners old ++ List.map partner_entry pre),
                        partner_entry f)).
  { rewrite Hpartners. apply find_tagged_app; [exact Hold |].
    unfold locates. rewrite Hkey. simpl.
    unfold nonempty in Hk. now rewrite Hk, String.eqb_refl. }
  pose proof (deletePartner_found_run URL_pathname env w1 y k doc1 _ _ Hup Hdoc1 Hfind)
    as Hrun2.
  cbv zeta in Hrun2. rewrite drop_same_url_kept_partners in Hrun2.
  rewrite Hpartners in Hrun2 at 1 2. rewrite kept_partners_app in Hrun2.
  assert (Hkeep_old :
            List.filter
              (fun p => negb (truthy (public_id p) &&
                              strict_eq_opt (public_id p) (public_id (partner_entry f))))
              (partners old ++ List.map partner_entry pre) =
            partners old ++ List.map partner_entry pre).
  { apply filter_true. intros p Hp.
    pose proof (proj1 (forallb_forall _ _) Hold p Hp) as Hn. cbv beta in Hn.
    apply negb_true_iff in Hn. rewrite Hkey.
    now rewrite (unlocated_other_key k p Hk Hn), andb_false_r. }
  assert (Hkeep_post :
            List.filter
              (fun p => negb (truthy (public_id p) &&
                              strict_eq_opt (public_id p) (public_id (partner_entry f))))
              (List.map partner_entry post) =
            List.map partner_entry post).
  { apply filter_true. intros p Hp.
    apply in_map_iff in Hp as (g & <- & Hg).
    pose proof (proj1 (forallb_forall _ _) Hpost g Hg) as Hn. cbv beta in Hn.
    apply negb_true_iff in Hn. rewrite Hkey.
    unfold strict_eq in Hn. unfold strict_eq_opt.
    destruct (public_id (partner_entry g));
      [now rewrite Hn, andb_false_r | now rewrite andb_false_r]. }
  rewrite Hkeep_old, Hkeep_post in Hrun2.
  assert (Hcand : candidate_key URL_pathname (partner_entry f) k = k).
  { unfold candidate_key, or_string, or_else. rewrite Hkey. simpl.
    unfold nonempty in Hk. rewrite Hk. simpl. now rewrite Hk. }
  rewrite Hcand in Hrun2.
  eexists _, w1, _, _. split; [exact Hrun1 |]. split; [exact Hrun2 |].
  split; [simpl; rewrite Hy; apply lookup_insert_eq |].
  split.
  - unfold doc1, set_partners. simpl. f_equal.
    now rewrite List.map_app, app_assoc.
  - simpl. now rewrite Hlog1.
Qed.

End PartnerRoundTrip.

Lemma upload_then_deletePartner_witness :
  exists w2,
    db w2 !! 2024%Z = Some gallery_2024 /\
    destroy_log w2 = ["events/partners/17-logo"].
Proof.
  destruct (upload_then_deletePartner PlainURL.plain_URL_pathname remote_down
              (world_of gallery_2024) 2024 []
              {| file_path :=
                   Some "https://res.cloudinary.com/demo/image/upload/v1/events/partners/17-logo.png";
                 file_filename := Some "events/partners/17-logo";
                 file_public_id := None |}
              [] "events/partners/17-logo"
              remote_down_db_up (world_of_wf gallery_2024)
              eq_refl eq_refl eq_refl eq_refl)
    as (r1 & w1 & doc2 & w2 & _ & _ & Hdb & Hdoc & Hlog).
  exists w2. split; [| exact Hlog].
  rewrite Hdb, Hdoc. reflexivity.
Defined.
